(** * GardePro: renaming and archiving camera files

    A shallow embedding of [cmd/gardepro/gardepro.go].  The program takes one
    JPG or MP4 file, reads its creation time from the embedded metadata,
    derives the path [<target>/<year>/<month>-<day>-<hour>:<minute>:<second>-<basename>]
    and copies the file there unless a file is already present.

    Layout of the development:
    - [GoStrings], [Filepath]: the functions of Go's [strings] and
      [path/filepath] packages that the program calls;
    - [GoTime]: instants, locations, [Date], [Add], [In], [Format], [Parse];
    - [OS]: a file system keyed by path, with [Stat], [Mkdir], [Open],
      [Create], and the file comparison of [equalfile];
    - [Gardepro]: the program itself, as a state-and-exit monad over the
      file system and a trace of the calls it makes;
    - the theorems about it. *)

From stdpp Require Import base numbers list strings gmap.
From Stdlib Require Import Ascii String ZArith Lia.

Local Open Scope string_scope.
Local Open Scope Z_scope.

(** ** Strings as Go sees them: sequences of bytes *)

Module GoStrings.

Definition bytesOf (s : string) : list ascii := list_ascii_of_string s.
Definition ofBytes (l : list ascii) : string := string_of_list_ascii l.

(** [strings.HasSuffix(s, suffix)] *)
Definition HasSuffix (s suffix : string) : bool :=
  bool_decide (reverse (bytesOf suffix) `prefix_of` reverse (bytesOf s)).

(** [strings.TrimSuffix(s, suffix)]: [s] without the trailing [suffix],
    once; [s] itself when it does not end so. *)
Definition TrimSuffix (s suffix : string) : string :=
  if HasSuffix s suffix
  then ofBytes (take (List.length (bytesOf s) - List.length (bytesOf suffix))%nat (bytesOf s))
  else s.

Definition isUpper (c : ascii) : bool :=
  let n := N_of_ascii c in ((65 <=? n) && (n <=? 90))%N.

Definition lowerByte (c : ascii) : ascii :=
  if isUpper c then ascii_of_N (N_of_ascii c + 32) else c.

(** [strings.ToLower] on the ASCII range.  Outside ASCII Go maps by
    Unicode case tables; no letter there lower-cases to an ASCII letter
    other than [i] and [k], so the three extensions the program matches
    are reached from ASCII spellings only. *)
Fixpoint ToLower (s : string) : string :=
  match s with
  | EmptyString => EmptyString
  | String c r => String (lowerByte c) (ToLower r)
  end.

End GoStrings.

(** ** path/filepath on a system whose separator is [/] *)

Module Filepath.
Import GoStrings.

Definition Separator : ascii := "/"%char.

Definition IsPathSeparator (c : ascii) : bool := bool_decide (c = Separator).

(** The loop of [filepath.Ext]: walk back from the end of the path; a
    separator ends the search with no extension, a dot returns the
    suffix that starts at it.  [back] holds the bytes not yet visited,
    last byte first, [seen] the bytes already passed. *)
Fixpoint extLoop (back seen : list ascii) : list ascii :=
  match back with
  | [] => []
  | c :: more =>
      if IsPathSeparator c then []
      else if bool_decide (c = "."%char) then c :: seen
      else extLoop more (c :: seen)
  end.

Definition Ext (path : string) : string :=
  ofBytes (extLoop (reverse (bytesOf path)) []).

(** Strip the separators at the front of a reversed path, that is, the
    trailing separators of the path. *)
Fixpoint stripSeparators (back : list ascii) : list ascii :=
  match back with
  | c :: more => if IsPathSeparator c then stripSeparators more else back
  | [] => []
  end.

(** The last element: the bytes after the last separator. *)
Fixpoint lastElement (back seen : list ascii) : list ascii :=
  match back with
  | [] => seen
  | c :: more => if IsPathSeparator c then seen else lastElement more (c :: seen)
  end.

(** [filepath.Base] *)
Definition Base (path : string) : string :=
  if bool_decide (path = "") then "."
  else
    let stripped := stripSeparators (reverse (bytesOf path)) in
    let element := lastElement stripped [] in
    if bool_decide (element = []) then String Separator "" else ofBytes element.

(** The directory a path is created in: what precedes its last
    separator.  Used by the file system to decide whether an entry can
    be made at a path. *)
Fixpoint afterLastSeparator (back : list ascii) : list ascii :=
  match back with
  | [] => []
  | c :: more => if IsPathSeparator c then more else afterLastSeparator more
  end.

Definition hasSeparator (path : string) : bool :=
  existsb IsPathSeparator (bytesOf path).

Definition parent (path : string) : string :=
  if hasSeparator path then
    match reverse (afterLastSeparator (reverse (bytesOf path))) with
    | [] => String Separator ""
    | d => ofBytes d
    end
  else ".".

End Filepath.

(** ** Go errors *)

Module GoErrors.

(** The error numbers the file system calls of the program meet. *)
Inductive Errno := ENOENT | ENOTDIR | EEXIST | EISDIR.

(** An [error] value: an operating-system error number, a message
    ([errors.New], or [fmt.Errorf] without [%w], or a library's error),
    or [fmt.Errorf(prefix + ": %w", inner)]. *)
Inductive error :=
| SyscallError (e : Errno)
| ErrorString (message : string)
| Wrapped (prefix : string) (inner : error).

Inductive Result (A : Type) :=
| Ok (a : A)
| Err (e : error).
Arguments Ok {A} a.
Arguments Err {A} e.

Definition errnoText (e : Errno) : string :=
  match e with
  | ENOENT => "no such file or directory"
  | ENOTDIR => "not a directory"
  | EEXIST => "file exists"
  | EISDIR => "is a directory"
  end.

(** [err.Error()] *)
Fixpoint Error (e : error) : string :=
  match e with
  | SyscallError n => errnoText n
  | ErrorString m => m
  | Wrapped p inner => p +:+ ": " +:+ Error inner
  end.

(** [errors.Is(err, os.ErrNotExist)]: the chain of wrapped errors holds
    [ENOENT]. *)
Fixpoint IsNotExist (e : error) : bool :=
  match e with
  | SyscallError ENOENT => true
  | SyscallError _ => false
  | ErrorString _ => false
  | Wrapped _ inner => IsNotExist inner
  end.

End GoErrors.

(** ** Go's [time] package, to the second *)

Module GoTime.
Import GoStrings GoErrors.

(** A location gives, for an instant in Unix seconds, the offset of local
    time east of UTC in seconds. *)
Definition Location : Type := Z → Z.

Definition UTC : Location := λ _, 0.

(** An instant with the location it is presented in.  The fraction of
    a second is left out: no layout of the program prints it and the
    program only adds whole seconds. *)
Record Time := mkTime { unix : Z; loc : Location }.

(** *** The proleptic Gregorian calendar *)

Definition isLeap (year : Z) : bool :=
  (year mod 4 =? 0) && (negb (year mod 100 =? 0) || (year mod 400 =? 0)).

Definition daysIn (month year : Z) : Z :=
  if month =? 2 then (if isLeap year then 29 else 28)
  else if (month =? 4) || (month =? 6) || (month =? 9) || (month =? 11) then 30
  else 31.

(** The calendar repeats every 400 years, 146097 days.  Inside a cycle
    years start on the first of March, so that the leap day comes last.
    [dayInCycle] numbers the days of a cycle from the year of the cycle
    and the date; [dateInCycle] goes back. *)
Definition dayInCycle (yoe month day : Z) : Z :=
  let mp := if month <=? 2 then month + 9 else month - 3 in
  let doy := (153 * mp + 2) / 5 + day - 1 in
  yoe * 365 + yoe / 4 - yoe / 100 + doy.

Definition dateInCycle (doe : Z) : Z * Z * Z :=
  let yoe := (doe - doe / 1460 + doe / 36524 - doe / 146096) / 365 in
  let doy := doe - (365 * yoe + yoe / 4 - yoe / 100) in
  let mp := (5 * doy + 2) / 153 in
  let d := doy - (153 * mp + 2) / 5 + 1 in
  let m := if mp <? 10 then mp + 3 else mp - 9 in
  (yoe, m, d).

(** Days from 1970-01-01 to the given date. *)
Definition daysSinceEpoch (year month day : Z) : Z :=
  let y := if month <=? 2 then year - 1 else year in
  (y / 400) * 146097 + dayInCycle (y mod 400) month day - 719468.

(** The date of a day counted from 1970-01-01: [(year, month, day)]. *)
Definition civil (days : Z) : Z * Z * Z :=
  let z := days + 719468 in
  let '(yoe, m, d) := dateInCycle (z mod 146097) in
  let y := yoe + (z / 146097) * 400 in
  (if m <=? 2 then y + 1 else y, m, d).

Definition secondsPerDay : Z := 86400.

(** [time.Date(year, month, day, hour, min, sec, 0, time.UTC)] for
    arguments inside their ranges. *)
Definition Date (year month day hour min sec : Z) : Time :=
  mkTime (daysSinceEpoch year month day * secondsPerDay
          + hour * 3600 + min * 60 + sec) UTC.

(** *** Durations: signed 64-bit counts of nanoseconds *)

Definition wrap64 (x : Z) : Z := (x + 2 ^ 63) mod 2 ^ 64 - 2 ^ 63.

Definition Nanosecond : Z := 1.
Definition Second : Z := 1000000000.

(** [a * b] on [time.Duration] *)
Definition mulDuration (a b : Z) : Z := wrap64 (a * b).

(** [t.Add(d)]: the whole seconds of [d], rounded toward zero as Go's
    integer division does. *)
Definition Add (t : Time) (d : Z) : Time :=
  mkTime (unix t + Z.quot d 1000000000) (loc t).

(** [t.In(loc)] *)
Definition In (t : Time) (l : Location) : Time := mkTime (unix t) l.

(** *** What a time shows in its location *)

Definition abs (t : Time) : Z := unix t + loc t (unix t).

Definition Year (t : Time) : Z := (civil (abs t / secondsPerDay)).1.1.
Definition Month (t : Time) : Z := (civil (abs t / secondsPerDay)).1.2.
Definition Day (t : Time) : Z := (civil (abs t / secondsPerDay)).2.
Definition Hour (t : Time) : Z := (abs t mod secondsPerDay) / 3600.
Definition Minute (t : Time) : Z := (abs t mod 3600) / 60.
Definition Sec (t : Time) : Z := abs t mod 60.

(** *** Printing numbers *)

Definition digit (d : Z) : ascii := ascii_of_N (48 + Z.to_N d).

Fixpoint decimal (fuel : nat) (u : Z) : list ascii :=
  match fuel with
  | O => []
  | S f => if u <? 10 then [digit u] else decimal f (u / 10) ++ [digit (u mod 10)]
  end.

(** The decimal digits of [u >= 0]; a number has no more decimal digits
    than binary ones. *)
Definition digits (u : Z) : list ascii := decimal (S (Z.to_nat (Z.log2 u))) u.

(** [appendInt(b, x, width)]: a minus sign for a negative [x], then the
    digits of its magnitude, zero-padded on the left to [width]. *)
Definition appendInt (x : Z) (width : nat) : string :=
  let ds := digits (Z.abs x) in
  (if x <? 0 then "-" else "")
    +:+ ofBytes (replicate (width - List.length ds) "0"%char ++ ds).

(** *** Layouts *)

(** The layout elements that occur in the layouts of this program; in
    them every other byte is literal text. *)
Inductive chunk :=
| stdLongYear      (* 2006 *)
| stdZeroMonth     (* 01 *)
| stdZeroDay       (* 02 *)
| stdHour          (* 15 *)
| stdZeroMinute    (* 04 *)
| stdZeroSecond    (* 05 *)
| literal (c : ascii).

Definition startsWith (p s : string) : bool :=
  bool_decide (bytesOf p `prefix_of` bytesOf s).

(** [nextStdChunk], applied until the layout ends.  [skip] counts the
    bytes of the element just recognised that are still to be passed. *)
Fixpoint chunks (skip : nat) (layout : string) : list chunk :=
  match layout with
  | EmptyString => []
  | String c rest =>
      match skip with
      | S k => chunks k rest
      | O =>
          if startsWith "2006" layout then stdLongYear :: chunks 3 rest
          else if startsWith "01" layout then stdZeroMonth :: chunks 1 rest
          else if startsWith "02" layout then stdZeroDay :: chunks 1 rest
          else if startsWith "15" layout then stdHour :: chunks 1 rest
          else if startsWith "04" layout then stdZeroMinute :: chunks 1 rest
          else if startsWith "05" layout then stdZeroSecond :: chunks 1 rest
          else literal c :: chunks 0 rest
      end
  end.

Definition formatChunk (t : Time) (c : chunk) : string :=
  match c with
  | stdLongYear => appendInt (Year t) 4
  | stdZeroMonth => appendInt (Month t) 2
  | stdZeroDay => appendInt (Day t) 2
  | stdHour => appendInt (Hour t) 2
  | stdZeroMinute => appendInt (Minute t) 2
  | stdZeroSecond => appendInt (Sec t) 2
  | literal c => String c ""
  end.

(** [t.Format(layout)] *)
Definition Format (t : Time) (layout : string) : string :=
  foldr (λ c out, formatChunk t c +:+ out) "" (chunks 0 layout).

(** *** Parsing *)

Definition isDigit (c : ascii) : bool :=
  let n := N_of_ascii c in ((48 <=? n) && (n <=? 57))%N.

Definition digitValue (c : ascii) : Z := Z.of_N (N_of_ascii c) - 48.

Definition errBad : error := ErrorString "parsing time: bad value for field".
Definition rangeError (field : string) : error :=
  ErrorString ("parsing time: " +:+ field +:+ " out of range").

(** [getnum(s, fixed)]: one or two digits, exactly two when [fixed]. *)
Definition getnum (s : list ascii) (fixed : bool) : Result (Z * list ascii) :=
  match s with
  | a :: more =>
      if isDigit a then
        match more with
        | b :: rest =>
            if isDigit b then Ok (digitValue a * 10 + digitValue b, rest)
            else if fixed then Err errBad else Ok (digitValue a, more)
        | [] => if fixed then Err errBad else Ok (digitValue a, more)
        end
      else Err errBad
  | [] => Err errBad
  end.

Fixpoint cutspace (s : list ascii) : list ascii :=
  match s with
  | c :: more => if bool_decide (c = " "%char) then cutspace more else s
  | [] => []
  end.

Fixpoint cutDigits (s : list ascii) : list ascii :=
  match s with
  | c :: more => if isDigit c then cutDigits more else s
  | [] => []
  end.

Definition commaOrPeriod (c : ascii) : bool :=
  bool_decide (c = "."%char) || bool_decide (c = ","%char).

(** After the seconds a value may carry a fraction that the layout does
    not name; it is read and, here, dropped. *)
Definition cutFraction (s : list ascii) : list ascii :=
  match s with
  | p :: d :: more => if commaOrPeriod p && isDigit d then cutDigits more else s
  | _ => s
  end.

(** The fields [Parse] collects, with the values it starts from. *)
Record fields := mkFields
  { year : Z; month : Z; day : Z; hour : Z; min : Z; sec : Z }.

Definition noFields : fields := mkFields 0 (-1) (-1) 0 0 0.

Definition inRange (lo x hi : Z) : bool := (lo <=? x) && (x <? hi).

Definition parseChunk (c : chunk) (f : fields) (value : list ascii)
  : Result (fields * list ascii) :=
  match c with
  | literal l =>
      if bool_decide (l = " "%char) then
        match value with
        | v :: _ => if bool_decide (v = " "%char) then Ok (f, cutspace value) else Err errBad
        | [] => Ok (f, [])
        end
      else
        match value with
        | v :: rest => if bool_decide (v = l) then Ok (f, rest) else Err errBad
        | [] => Err errBad
        end
  | stdLongYear =>
      match value with
      | a :: b :: c :: d :: rest =>
          if isDigit a && isDigit b && isDigit c && isDigit d then
            Ok (mkFields (((digitValue a * 10 + digitValue b) * 10 + digitValue c) * 10
                          + digitValue d)
                         (month f) (day f) (hour f) (min f) (sec f), rest)
          else Err errBad
      | _ => Err errBad
      end
  | stdZeroMonth =>
      match getnum value true with
      | Ok (n, rest) =>
          if inRange 1 n 13
          then Ok (mkFields (year f) n (day f) (hour f) (min f) (sec f), rest)
          else Err (rangeError "month")
      | Err e => Err e
      end
  | stdZeroDay =>
      match getnum value true with
      | Ok (n, rest) => Ok (mkFields (year f) (month f) n (hour f) (min f) (sec f), rest)
      | Err e => Err e
      end
  | stdHour =>
      match getnum value false with
      | Ok (n, rest) =>
          if inRange 0 n 24
          then Ok (mkFields (year f) (month f) (day f) n (min f) (sec f), rest)
          else Err (rangeError "hour")
      | Err e => Err e
      end
  | stdZeroMinute =>
      match getnum value true with
      | Ok (n, rest) =>
          if inRange 0 n 60
          then Ok (mkFields (year f) (month f) (day f) (hour f) n (sec f), rest)
          else Err (rangeError "minute")
      | Err e => Err e
      end
  | stdZeroSecond =>
      match getnum value true with
      | Ok (n, rest) =>
          if inRange 0 n 60
          then Ok (mkFields (year f) (month f) (day f) (hour f) (min f) n, cutFraction rest)
          else Err (rangeError "second")
      | Err e => Err e
      end
  end.

Fixpoint parseChunks (cs : list chunk) (f : fields) (value : list ascii)
  : Result (fields * list ascii) :=
  match cs with
  | [] => Ok (f, value)
  | c :: more =>
      match parseChunk c f value with
      | Ok (f', rest) => parseChunks more f' rest
      | Err e => Err e
      end
  end.

(** [time.Parse(layout, value)] for a layout that names year, month and
    day: text left over is an error, the day is checked against the
    month, and the result is a time in UTC. *)
Definition Parse (layout value : string) : Result Time :=
  match parseChunks (chunks 0 layout) noFields (bytesOf value) with
  | Ok (f, []) =>
      if (day f <? 1) || (daysIn (month f) (year f) <? day f)
      then Err (rangeError "day")
      else Ok (Date (year f) (month f) (day f) (hour f) (min f) (sec f))
  | Ok (_, _ :: _) => Err (ErrorString "parsing time: extra text")
  | Err e => Err e
  end.

End GoTime.

(** ** The operating system: a file system keyed by path *)

Module OS.
Import GoStrings GoErrors Filepath.

#[global] Instance byte_eq_dec : EqDecision Byte.byte := Byte.byte_eq_dec.

(** An entry is a regular file with its content or a directory.  Paths
    are compared as written: no links, no [.] or [..], no doubled
    separators. *)
Inductive Node :=
| File (content : list Byte.byte)
| Dir.

#[global] Instance Node_eq_dec : EqDecision Node.
Proof. solve_decision. Defined.

Abbreviation FileSystem := (gmap string Node).

(** [os.FileInfo], as far as the program looks at it. *)
Record FileInfo := mkFileInfo { IsDir : bool }.

(** [os.Stat]: the entry at the path; directly below a regular file
    the answer is [ENOTDIR], otherwise a missing entry is [ENOENT].
    When the entry above is missing as well the answer is [ENOENT]:
    that is the kernel's answer unless a regular file lies higher on
    the path. *)
Definition Stat (fs : FileSystem) (path : string) : Result FileInfo :=
  match fs !! path with
  | Some Dir => Ok (mkFileInfo true)
  | Some (File _) => Ok (mkFileInfo false)
  | None =>
      match fs !! parent path with
      | Some (File _) => Err (SyscallError ENOTDIR)
      | _ => Err (SyscallError ENOENT)
      end
  end.

(** Whether a new entry can be made at the path: nothing is there yet
    and the directory it goes into exists.  The entry above decides
    the error, as for [Stat]; permissions and space are not part of
    the model. *)
Definition mayCreate (fs : FileSystem) (path : string) : option error :=
  match fs !! path with
  | Some _ => Some (SyscallError EEXIST)
  | None =>
      match fs !! parent path with
      | Some Dir => None
      | Some (File _) => Some (SyscallError ENOTDIR)
      | None => Some (SyscallError ENOENT)
      end
  end.

(** [os.Mkdir]: one directory, not its ancestors. *)
Definition Mkdir (fs : FileSystem) (path : string) : option error * FileSystem :=
  match mayCreate fs path with
  | None => (None, <[path := Dir]> fs)
  | Some e => (Some e, fs)
  end.

(** [os.Open]: whether the path can be opened for reading. *)
Definition Open (fs : FileSystem) (path : string) : option error :=
  match fs !! path with
  | Some _ => None
  | None =>
      match fs !! parent path with
      | Some (File _) => Some (SyscallError ENOTDIR)
      | _ => Some (SyscallError ENOENT)
      end
  end.

(** Reading an opened path to its end: what the file holds at that
    moment. *)
Definition Read (fs : FileSystem) (path : string) : Result (list Byte.byte) :=
  match fs !! path with
  | Some (File c) => Ok c
  | Some Dir => Err (SyscallError EISDIR)
  | None => Err (SyscallError ENOENT)
  end.

(** [os.Create]: an empty regular file at the path, new or truncated. *)
Definition Create (fs : FileSystem) (path : string) : option error * FileSystem :=
  match fs !! path with
  | Some (File _) => (None, <[path := File []]> fs)
  | Some Dir => (Some (SyscallError EISDIR), fs)
  | None =>
      match mayCreate fs path with
      | None => (None, <[path := File []]> fs)
      | Some e => (Some e, fs)
      end
  end.

(** Writing through a handle opened on a regular file: the bytes go
    to the end of what the file holds. *)
Definition appendTo (fs : FileSystem) (path : string) (data : list Byte.byte)
  : FileSystem :=
  match fs !! path with
  | Some (File c) => <[path := File (c ++ data)]> fs
  | _ => fs
  end.

(** [os.OpenFile(path, O_WRONLY|O_CREATE|O_APPEND, perm)] *)
Definition OpenAppend (fs : FileSystem) (path : string) : option error * FileSystem :=
  match fs !! path with
  | Some (File _) => (None, fs)
  | Some Dir => (Some (SyscallError EISDIR), fs)
  | None =>
      match mayCreate fs path with
      | None => (None, <[path := File []]> fs)
      | Some e => (Some e, fs)
      end
  end.

End OS.

(** ** The libraries that decode the media files *)

Module Media.
Import GoStrings GoErrors GoTime.

(** go-exif: the value of a tag is a string or something else, shown
    here by its printed form. *)
Inductive TagValue :=
| StringValue (s : string)
| OtherValue (shown : string).

Record IfdTagEntry := mkTag
  { IfdPath : string; TagName : string; TagId : Z; Value : Result TagValue }.

(** An image file directory: its own tags and the directories below it. *)
#[warnings="-register-all"]
Inductive Ifd := mkIfd (entries : list IfdTagEntry) (children : list Ifd).

Definition entriesOf (i : Ifd) : list IfdTagEntry :=
  match i with mkIfd es _ => es end.

Record IfdIndex := mkIndex { RootIfd : Ifd; Lookup : gmap string Ifd }.

Definition ErrTagNotFound : error := ErrorString "tag not found".

(** [ifd.FindTagWithId(id)]: the tags with that id, an error when there
    is none.  Called on a nil directory the library recovers from the
    fault and returns it as an error. *)
Definition FindTagWithId (ifd : option Ifd) (tagId : Z) : Result (list IfdTagEntry) :=
  match ifd with
  | None => Err (ErrorString "invalid memory address or nil pointer dereference")
  | Some i =>
      match filter (λ e, TagId e = tagId) (entriesOf i) with
      | [] => Err ErrTagNotFound
      | found => Ok found
      end
  end.

(** The tags [EnumerateTagsRecursively] visits. *)
Fixpoint allTags (i : Ifd) : list IfdTagEntry :=
  match i with
  | mkIfd es cs => es ++ flat_map allTags cs
  end.

(** go-mp4: a box with its decoded payload; of [mvhd] the program reads
    the 32-bit field [CreationTimeV0]. *)
Inductive BoxPayload :=
| Mvhd (CreationTimeV0 : Z)
| OtherBox (shown : string).

Record BoxInfoWithPayload := mkBox { Payload : BoxPayload }.

(** What lies outside the program: the decoders of the two libraries,
    as functions of a file's bytes, and the time zone of the machine. *)
Class Environment := mkEnvironment
  { SearchAndExtractExif : list Byte.byte → Result (list Byte.byte);
    NewIfdMappingWithStandard : option error;
    Collect : list Byte.byte → Result IfdIndex;
    ExtractBoxWithPayload : list Byte.byte → Result (list BoxInfoWithPayload);
    localTimeZone : Location }.

End Media.

(** ** The program *)

Module Gardepro.
Import GoStrings GoErrors Filepath GoTime OS Media.

(** *** zerolog and the dialog box *)

Inductive Level := DebugLevel | InfoLevel | ErrorLevel | FatalLevel.

(** The fields of a log event, in the order they were added. *)
Definition Event : Type := list (string * string).

Definition Str (key val : string) (e : Event) : Event := (e ++ [(key, val)])%list.

Inductive Sink := Stderr | LogFile (path : string).

Record Logger := mkLogger { out : Sink; context : Event }.

(** What the process does to the world around it, in order. *)
Inductive Call :=
| StatCall (path : string)
| MkdirCall (path : string)
| OpenCall (path : string)
| ReadCall (path : string)
| CreateCall (path : string)
| WriteCall (path : string) (data : list Byte.byte)
| OpenAppendCall (path : string)
| Logged (level : Level) (message : string) (fields : Event)
| DialogError (title message : string).

Record World := mkWorld
  { files : gmap string Node; logger : Logger; trace : list Call }.

(** The process either goes on with a value or has left through
    [errorFatal], whose arguments are kept. *)
Inductive Outcome (A : Type) :=
| Done (a : A)
| Fatal (message : string) (err : option error).
Arguments Done {A} a.
Arguments Fatal {A} message err.

Definition M (A : Type) : Type := World → Outcome A * World.

Definition ret {A} (a : A) : M A := λ w, (Done a, w).

Definition bind {A B} (m : M A) (k : A → M B) : M B :=
  λ w, match m w with
       | (Done a, w') => k a w'
       | (Fatal message err, w') => (Fatal message err, w')
       end.

Notation "'let*' x ':=' m 'in' k" := (bind m (λ x, k))
  (at level 10, x pattern, m at level 100, k at level 200).
Notation "m ';;' k" := (bind m (λ _, k))
  (at level 100, k at level 200, right associativity).

Definition exit {A} (message : string) (err : option error) : M A :=
  λ w, (Fatal message err, w).

Definition record (c : Call) (w : World) : World :=
  mkWorld (files w) (logger w) (trace w ++ [c]).

Definition withFiles (fs : gmap string Node) (w : World) : World :=
  mkWorld fs (logger w) (trace w).

(** The calls to the operating system, each leaving its mark in the
    trace. *)
Definition stat (path : string) : M (Result FileInfo) :=
  λ w, (Done (Stat (files w) path), record (StatCall path) w).

Definition mkdir (path : string) : M (option error) :=
  λ w, let '(err, fs) := Mkdir (files w) path in
       (Done err, record (MkdirCall path) (withFiles fs w)).

Definition open (path : string) : M (option error) :=
  λ w, (Done (Open (files w) path), record (OpenCall path) w).

Definition read (path : string) : M (Result (list Byte.byte)) :=
  λ w, (Done (Read (files w) path), record (ReadCall path) w).

Definition create (path : string) : M (option error) :=
  λ w, let '(err, fs) := Create (files w) path in
       (Done err, record (CreateCall path) (withFiles fs w)).

Definition write (path : string) (data : list Byte.byte) : M unit :=
  λ w, (Done tt, record (WriteCall path data) (withFiles (appendTo (files w) path data) w)).

Definition openAppend (path : string) : M (option error) :=
  λ w, let '(err, fs) := OpenAppend (files w) path in
       (Done err, record (OpenAppendCall path) (withFiles fs w)).

(** [equalfile]'s [CompareFile]: both paths are opened, then their
    contents compared byte for byte. *)
Definition compareFile (path1 path2 : string) : M (Result bool) :=
  let* e1 := open path1 in
  match e1 with
  | Some err => ret (Err err)
  | None =>
      let* e2 := open path2 in
      match e2 with
      | Some err => ret (Err err)
      | None =>
          let* c1 := read path1 in
          let* c2 := read path2 in
          match c1, c2 with
          | Ok b1, Ok b2 => ret (Ok (bool_decide (b1 = b2)))
          | Err err, _ => ret (Err err)
          | _, Err err => ret (Err err)
          end
      end
  end.

Definition dialog (title message : string) : M unit :=
  λ w, (Done tt, record (DialogError title message) w).

Definition setLogger (l : Logger) : M unit :=
  λ w, (Done tt, mkWorld (files w) l (trace w)).

Definition getLogger : M Logger := λ w, (Done (logger w), w).

Definition levelText (l : Level) : string :=
  match l with
  | DebugLevel => "DBG" | InfoLevel => "INF" | ErrorLevel => "ERR" | FatalLevel => "FTL"
  end.

(** The line the console writer makes of an event, without the column
    of the clock. *)
Definition line (l : Level) (message : string) (fields : Event) : list Byte.byte :=
  list_byte_of_string
    (levelText l +:+ " " +:+ message
     +:+ foldr (λ kv rest, " " +:+ kv.1 +:+ "=" +:+ kv.2 +:+ rest) "" fields
     +:+ String "010"%char "").

(** [event.Msg(message)] on an event of the given level: the line goes
    to the writer of the logger, a file or the standard error stream. *)
Definition Msg (l : Level) (e : Event) (message : string) : M unit :=
  let* lg := getLogger in
  let fields := (context lg ++ e)%list in
  match out lg with
  | LogFile path =>
      write path (line l message fields);;
      λ w, (Done tt, record (Logged l message fields) w)
  | Stderr => λ w, (Done tt, record (Logged l message fields) w)
  end.

(** *** Numbers in log fields *)

Definition hexDigit (d : Z) : ascii :=
  if d <? 10 then digit d else ascii_of_N (87 + Z.to_N d).

Fixpoint hexadecimal (fuel : nat) (u : Z) : list ascii :=
  match fuel with
  | O => []
  | S f => if u <? 16 then [hexDigit u] else hexadecimal f (u / 16) ++ [hexDigit (u mod 16)]
  end.

(** [strconv.FormatUint(u, 16)] *)
Definition FormatUint16 (u : Z) : string :=
  ofBytes (hexadecimal (S (Z.to_nat (Z.log2 u))) u).

Definition Itoa (n : nat) : string := ofBytes (digits (Z.of_nat n)).

(** *** The functions of gardepro.go *)

Section Program.
Context {env : Environment}.

Definition fileDateStubFmt : string := "/2006/01-02-15:04:05-".
Definition targetDirFmt : string := "/2006".
Definition tagIDDateTime : Z := 0x132.
Definition tagNameDateTime : string := "Date Time".

(** The two strings the program makes of the target root, the time
    and the source path, in both branches of its switch. *)
Definition targetDir (target : string) (when : Time) : string :=
  target +:+ Format when targetDirFmt.

Definition targetPath (target : string) (when : Time) (source : string) : string :=
  target +:+ Format when fileDateStubFmt +:+ Base source.

Definition checkTargetDir (targetDir : string) : M (option error) :=
  let* r := stat targetDir in
  match r with
  | Ok info =>
      if negb (IsDir info)
      then ret (Some (ErrorString "target dir is not a directory"))
      else ret None
  | Err err =>
      if IsNotExist err then
        let* e := mkdir targetDir in
        match e with
        | Some err => ret (Some (Wrapped "make target dir" err))
        | None => ret None
        end
      else ret (Some (Wrapped "stat target dir" err))
  end.

Definition copyFile (source target : string) : M (option error) :=
  let* r := open source in
  match r with
  | Some err => ret (Some (Wrapped "open source file" err))
  | None =>
      let* e := create target in
      match e with
      | Some err => ret (Some (Wrapped "create target file" err))
      | None =>
          let* data := read source in
          match data with
          | Err err => ret (Some (Wrapped "copy file" err))
          | Ok bytes => write target bytes;; ret None
          end
      end
  end.

Definition copySourceToTarget (source target : string) (extra : Event → Event)
  : M (option error) :=
  let* r := stat target in
  match r with
  | Ok _ =>
      let* c := compareFile source target in
      match c with
      | Err err => ret (Some (Wrapped "compare files" err))
      | Ok true => Msg InfoLevel (extra []) "Skipping pre-existing identical file";; ret None
      | Ok false => ret (Some (ErrorString "pre-existing file not identical"))
      end
  | Err err =>
      if IsNotExist err then
        let* e := copyFile source target in
        match e with
        | Some err => ret (Some (Wrapped "copy file" err))
        | None => Msg InfoLevel (extra []) "Copied file";; ret None
        end
      else ret (Some (Wrapped "stat target file" err))
  end.

(** [errorFatal] shows the dialog, logs at the fatal level, and the
    process ends there. *)
Definition errorFatal {A} (message : string) (err : option error)
    (extra : option (Event → Event)) : M A :=
  let msg := match err with
             | Some e => message +:+ ":" +:+ String "010"%char "" +:+ Error e
             | None => message
             end in
  dialog "Fatal Error" msg;;
  let event : Event := match err with
                       | Some e => Str "error" (Error e) []
                       | None => []
                       end in
  let event := match extra with
               | Some f => f event
               | None => event
               end in
  Msg FatalLevel event message;;
  exit message err.

Fixpoint logTags (tags : list IfdTagEntry) : M unit :=
  match tags with
  | [] => ret tt
  | ite :: more =>
      Msg DebugLevel
          (Str "ID" ("0x" +:+ FormatUint16 (TagId ite))
             (Str "path" (IfdPath ite +:+ "/" +:+ TagName ite) [])) "tag";;
      logTags more
  end.

Definition EXIFenumerateIndex (index : IfdIndex) : M (option error) :=
  logTags (allTags (RootIfd index));; ret None.

(** Reading a whole file, as both decoders do before they look at
    the bytes. *)
Definition readFile (path : string) : M (Result (list Byte.byte)) :=
  let* r := open path in
  match r with
  | Some err => ret (Err err)
  | None => read path
  end.

Definition EXIFgetIndex (path : string) : M (Result IfdIndex) :=
  let* r := readFile path in
  match (match r with Ok bytes => SearchAndExtractExif bytes | Err e => Err e end) with
  | Err err => ret (Err (Wrapped "getting EXIF from file" err))
  | Ok rawExif =>
      match NewIfdMappingWithStandard with
      | Some err => ret (Err (Wrapped "getting EXIF mapping" err))
      | None =>
          match Collect rawExif with
          | Err err => ret (Err (Wrapped "getting EXIF index" err))
          | Ok index => ret (Ok index)
          end
      end
  end.

Definition EXIFgetValue (index : IfdIndex) (tagName : string) (tagID : Z)
  : M (Result TagValue) :=
  let tagResults :=
    match FindTagWithId (Some (RootIfd index)) tagID with
    | Err _ => FindTagWithId (Lookup index !! "IFD/Exif") tagID
    | found => found
    end in
  match tagResults with
  | Err err =>
      Msg ErrorLevel
          (Str "ID" (Itoa (Z.to_nat tagID)) (Str "tag" tagName (Str "error" (Error err) [])))
          "Find EXIF tag by ID";;
      let* err2 := EXIFenumerateIndex index in
      match err2 with
      | Some e2 => Msg ErrorLevel (Str "error" (Error e2) []) "Enumerating EXIF index"
      | None => ret tt
      end;;
      ret (Err (Wrapped "find EXIF tag" err))
  | Ok results =>
      match results with
      | [entry] =>
          match Value entry with
          | Err err => ret (Err (Wrapped "getting EXIF tag value" err))
          | Ok value => ret (Ok value)
          end
      | _ =>
          ret (Err (ErrorString ("wrong number of EXIF tag results: "
                                 +:+ Itoa (List.length results))))
      end
  end.

Definition MP4getMetadata (path : string) : M (Result (list BoxInfoWithPayload)) :=
  let* r := open path in
  match r with
  | Some err => ret (Err (Wrapped "open file" err))
  | None =>
      let* data := read path in
      match data with
      | Err err => ret (Err err)
      | Ok bytes => ret (ExtractBoxWithPayload bytes)
      end
  end.

(** The value of a 32-bit unsigned field. *)
Definition uint32 (v : Z) : Z := v mod 2 ^ 32.

(** The time of an [mvhd] box: seconds since the first of January
    1904 in UTC, shown in the local time zone. *)
Definition mvhdTime (creationTimeV0 : Z) : Time :=
  In (Add (Date 1904 1 1 0 0 0) (mulDuration Second (uint32 creationTimeV0)))
     localTimeZone.

(** The switch of [main] on the lower-cased extension: each case ends
    in [errorFatal] or gives [targetDir] and [targetPath]. *)
Definition jpgCase (source target : string) : M (string * string) :=
  let* r := EXIFgetIndex source in
  match r with
  | Err err => errorFatal "Get EXIF index" (Some err) None
  | Ok index =>
      let* v := EXIFgetValue index tagNameDateTime tagIDDateTime in
      match v with
      | Err err =>
          errorFatal "Get tag value" (Some err)
            (Some (λ event, Str "ID" ("0x" +:+ FormatUint16 tagIDDateTime)
                              (Str "tag" tagNameDateTime event)))
      | Ok (OtherValue shown) =>
          errorFatal "Date/Time not string" None (Some (Str "value" shown))
      | Ok (StringValue whenStr) =>
          match Parse "2006:01:02 15:04:05" whenStr with
          | Err err => errorFatal "Parse time" (Some err) (Some (Str "when" whenStr))
          | Ok when => ret (targetDir target when, targetPath target when source)
          end
      end
  end.

Definition mp4Case (source target : string) : M (string * string) :=
  let* r := MP4getMetadata source in
  match r with
  | Err err => errorFatal "Get MP4 metadata" (Some err) None
  | Ok metadata =>
      match metadata with
      | [box] =>
          match Payload box with
          | Mvhd creationTimeV0 =>
              let when := mvhdTime creationTimeV0 in
              ret (targetDir target when, targetPath target when source)
          | OtherBox shown =>
              errorFatal "Convert metadata payload to mvhd" None
                (Some (Str "payload" shown))
          end
      | _ =>
          errorFatal "Wrong number of metadata results" None
            (Some (Str "number" (Itoa (List.length metadata))))
      end
  end.

Definition switch (source target : string) : M (string * string) :=
  let ext := ToLower (Ext source) in
  if bool_decide (ext = ".jpg") || bool_decide (ext = ".jpeg") then jpgCase source target
  else if bool_decide (ext = ".mp4") then mp4Case source target
  else errorFatal ("Unrecognized extension: " +:+ ext) None None.

(** Where the log goes: the console, or the log file, opened for
    appending and given an empty line.  [false] when the file cannot
    be opened; [main] returns then. *)
Definition openLog (console : bool) (logFile : string) : M bool :=
  if console then
    setLogger (mkLogger Stderr []);; ret true
  else
    let* e := openAppend logFile in
    match e with
    | Some err => dialog "Log File Creation" (Error err);; ret false
    | None =>
        write logFile (list_byte_of_string (String "010"%char ""));;
        setLogger (mkLogger (LogFile logFile) []);; ret true
    end.

Definition addContext (key val : string) : M unit :=
  let* lg := getLogger in
  setLogger (mkLogger (out lg) (Str key val (context lg))).

(** [main], from the flags as parsed. *)
Definition main (console : bool) (logFile source target : string) : M unit :=
  if bool_decide (source = "") || bool_decide (target = "") then
    dialog "Error parsing command line flags"
           "Missing command line flag -source or -target"
  else
    let* logging := openLog console logFile in
    if negb logging then ret tt
    else
      let target := TrimSuffix target "/" in
      addContext "source" source;;
      addContext "target" target;;
      Msg InfoLevel [] "GardePro starting";;
      let* found := switch source target in
      let targetDir := found.1 in
      let targetPath := found.2 in
      (if bool_decide (targetDir = "") then errorFatal "No target dir" None None
       else if bool_decide (targetPath = "") then errorFatal "No target path" None None
       else ret tt);;
      let extraTargetFn : Event → Event :=
        λ event, Str "target-dir" targetDir (Str "target-path" targetPath event) in
      let* err := checkTargetDir targetDir in
      match err with
      | Some e => errorFatal "Check target dir" (Some e) (Some extraTargetFn)
      | None => ret tt
      end;;
      let* err := copySourceToTarget source targetPath extraTargetFn in
      match err with
      | Some e =>
          errorFatal "Copy source file to target directory" (Some e) (Some extraTargetFn)
      | None => ret tt
      end;;
      (* deferred at the start, run when main returns *)
      Msg InfoLevel [] "GardePro finished".

(** The flags of the command line, as [flags.Parse] leaves them. *)
Record Flags := mkFlags
  { flagConsole : bool; flagLog : string; flagSource : string; flagTarget : string }.

(** [main], from the result of [flags.Parse]: an error of the parser
    is shown in a dialog and [main] returns. *)
Definition mainFrom (parsed : Result Flags) : M unit :=
  match parsed with
  | Err err => dialog "Error parsing command line flags" (Error err)
  | Ok flags =>
      main (flagConsole flags) (flagLog flags) (flagSource flags) (flagTarget flags)
  end.

(** The world a process starts in: the files as they are, the
    default logger, nothing done yet. *)
Definition start (fs : gmap string Node) : World :=
  mkWorld fs (mkLogger Stderr []) [].

End Program.

End Gardepro.

(** ** The words of the specification *)

Module Spec.
Import GoStrings GoErrors Filepath GoTime OS Media Gardepro.

(** Two bytes are the same letter when they are equal or one is the
    upper-case form of the other. *)
Definition sameLetter (c d : ascii) : bool :=
  bool_decide (c = d)
  || (isUpper c && (N_of_ascii d =? N_of_ascii c + 32)%N)
  || (isUpper d && (N_of_ascii c =? N_of_ascii d + 32)%N).

(** Two strings are the same spelling up to the case of letters. *)
Fixpoint EqualFold (a b : string) : bool :=
  match a, b with
  | EmptyString, EmptyString => true
  | String c a', String d b' => sameLetter c d && EqualFold a' b'
  | _, _ => false
  end.

Fixpoint noUpper (s : string) : bool :=
  match s with
  | EmptyString => true
  | String c r => negb (isUpper c) && noUpper r
  end.

(** A number below 100 as two digits, below 10000 as four. *)
Definition twoDigits (n : Z) : string :=
  String (digit (n / 10)) (String (digit (n mod 10)) "").

Definition fourDigits (n : Z) : string :=
  String (digit (n / 1000))
    (String (digit (n / 100 mod 10))
       (String (digit (n / 10 mod 10)) (String (digit (n mod 10)) ""))).

(** A valid calendar time: a day that the month of that year has and
    a time of day. *)
Definition validCalendar (y mo d h mi s : Z) : Prop :=
  0 ≤ y ≤ 9999 ∧ 1 ≤ mo ≤ 12 ∧ 1 ≤ d ≤ daysIn mo y
  ∧ 0 ≤ h < 24 ∧ 0 ≤ mi < 60 ∧ 0 ≤ s < 60.

(** The path a call is made on, for the calls that go to the file
    system. *)
Definition pathOf (c : Call) : option string :=
  match c with
  | StatCall p | MkdirCall p | OpenCall p | ReadCall p | CreateCall p
  | WriteCall p _ | OpenAppendCall p => Some p
  | Logged _ _ _ | DialogError _ _ => None
  end.

(** Calls that make or change an entry at the path. *)
Definition changes (path : string) (c : Call) : bool :=
  match c with
  | MkdirCall p | CreateCall p | WriteCall p _ | OpenAppendCall p => bool_decide (p = path)
  | _ => false
  end.

Definition isWrite (path : string) (c : Call) : bool :=
  match c with
  | WriteCall p _ => bool_decide (p = path)
  | _ => false
  end.

(** How many times a run wrote to the path. *)
Definition writesTo (path : string) (calls : list Call) : nat :=
  List.length (List.filter (isWrite path) calls).

(** The calls a run added to the trace it started with. *)
Definition callsSince (before after : World) : list Call :=
  drop (List.length (trace before)) (trace after).

(** The decoders used to run the program on examples: the bytes of a
    picture are the text of its date tag (no tag when there are no
    bytes), a film has one [mvhd] box unless it is empty, and the
    machine is on UTC. *)
Definition exampleIndex (raw : list Byte.byte) : IfdIndex :=
  match raw with
  | [] => mkIndex (mkIfd [] []) ∅
  | _ => mkIndex (mkIfd [mkTag "IFD" "DateTime" 0x132
                           (Ok (StringValue (string_of_list_byte raw)))] []) ∅
  end.

Definition exampleEnvironment (zone : Location) : Environment :=
  mkEnvironment
    (λ bytes, Ok bytes) None (λ raw, Ok (exampleIndex raw))
    (λ bytes, match bytes with
              | [] => Ok []
              | _ => Ok [mkBox (Mvhd 3786912345)]
              end)
    zone.

(** A card with one picture, one film, one drawing, and an archive. *)
Definition exampleFiles : gmap string Node :=
  {[ "/" := Dir; "/tmp" := Dir; "/archive" := Dir; "/dcim" := Dir;
     "/dcim/IMG_001.JPG" := File (list_byte_of_string "2023:06:15 14:30:05");
     "/dcim/blank.jpg" := File [];
     "/dcim/clip.MP4" := File (list_byte_of_string "moov");
     "/dcim/empty.mp4" := File [];
     "/dcim/sketch.png" := File (list_byte_of_string "png") ]}.

(** A time shows a calendar date and a time of day. *)
Definition shows (when : Time) (y mo d h mi s : Z) : Prop :=
  Year when = y ∧ Month when = mo ∧ Day when = d
  ∧ Hour when = h ∧ Minute when = mi ∧ Sec when = s.

(** The dates of one cycle of 400 years, and the check that day and
    date of the cycle are inverse on each of them. *)
Definition inCycle (yoe m d : Z) : bool :=
  (1 <=? m) && (m <=? 12) && (1 <=? d)
  && (d <=? daysIn m (yoe + (if m <=? 2 then 1 else 0))).

Definition sameDate (a b : Z * Z * Z) : bool :=
  (a.1.1 =? b.1.1) && (a.1.2 =? b.1.2) && (a.2 =? b.2).

Definition cycleRoundTrip (yoe m d : Z) : bool :=
  if inCycle yoe m d then
    (0 <=? dayInCycle yoe m d) && (dayInCycle yoe m d <? 146097)
    && sameDate (dateInCycle (dayInCycle yoe m d)) (yoe, m, d)
  else true.

(** *** The worlds a run goes through *)

(** The world after [Msg]: one line more in the log file when the log
    goes to a file, and the event in the trace. *)
Definition logged (w : World) (l : Level) (e : Event) (message : string) : World :=
  let fields := (context (logger w) ++ e)%list in
  match out (logger w) with
  | LogFile path =>
      record (Logged l message fields)
        (record (WriteCall path (line l message fields))
           (withFiles (appendTo (files w) path (line l message fields)) w))
  | Stderr => record (Logged l message fields) w
  end.

(** The calls [Msg] adds to the trace. *)
Definition logCalls (w : World) (l : Level) (e : Event) (message : string) : list Call :=
  let fields := (context (logger w) ++ e)%list in
  match out (logger w) with
  | LogFile path => [WriteCall path (line l message fields); Logged l message fields]
  | Stderr => [Logged l message fields]
  end.

(** The text of the dialog and the fields of the event of
    [errorFatal]. *)
Definition fatalText (message : string) (err : option error) : string :=
  match err with
  | Some e => message +:+ ":" +:+ String "010"%char "" +:+ Error e
  | None => message
  end.

Definition fatalEvent (err : option error) (extra : option (Event → Event)) : Event :=
  let event := match err with Some e => Str "error" (Error e) [] | None => [] end in
  match extra with Some f => f event | None => event end.

Definition newline : list Byte.byte := list_byte_of_string (String "010"%char "").

(** The world once the log is set up. *)
Definition logOpened (console : bool) (logFile : string) (w : World) : World :=
  if console then mkWorld (files w) (mkLogger Stderr []) (trace w)
  else mkWorld (appendTo (OpenAppend (files w) logFile).2 logFile newline)
               (mkLogger (LogFile logFile) [])
               (trace w ++ [OpenAppendCall logFile; WriteCall logFile newline]).

Definition withContext (key val : string) (w : World) : World :=
  mkWorld (files w) (mkLogger (out (logger w)) (Str key val (context (logger w)))) (trace w).

(** The world in which [main] enters its switch. *)
Definition atSwitch (console : bool) (logFile source target : string)
    (fs : gmap string Node) : World :=
  logged (withContext "target" (TrimSuffix target "/")
            (withContext "source" source (logOpened console logFile (start fs))))
         InfoLevel [] "GardePro starting".

(** *** What a run is started with *)

(** The log can be set up: it goes to the console, or the log file can
    be opened. *)
Definition logOpens (console : bool) (logFile : string) (fs : gmap string Node) : Prop :=
  console = true ∨ (OpenAppend fs logFile).1 = None.

(** The same, and the log file is not the source file itself. *)
Definition logReady (console : bool) (logFile source : string)
    (fs : gmap string Node) : Prop :=
  console = true ∨ ((OpenAppend fs logFile).1 = None ∧ logFile ≠ source).

(** No tag with the id of the date and time, neither in the root
    directory of the index nor in its Exif directory. *)
Definition tagMissing (index : IfdIndex) : Prop :=
  (∀ e, e ∈ entriesOf (RootIfd index) → TagId e ≠ tagIDDateTime)
  ∧ (∀ i, Lookup index !! "IFD/Exif" = Some i →
          ∀ e, e ∈ entriesOf i → TagId e ≠ tagIDDateTime).

(** *** Before placement *)

(** The calls a run may make before it turns to the target: it opens
    and reads the source, writes to the log file when the log goes to
    one, logs and shows dialogs.  It does not look at, make or write
    any other path. *)
Definition beforePlacement (console : bool) (logFile source : string) (c : Call) : bool :=
  match c with
  | StatCall _ | MkdirCall _ | CreateCall _ => false
  | OpenCall p | ReadCall p => bool_decide (p = source)
  | WriteCall p _ | OpenAppendCall p => negb console && bool_decide (p = logFile)
  | Logged _ _ _ | DialogError _ _ => true
  end.

(** The log goes where the flags say. *)
Definition sinkOf (console : bool) (logFile : string) (w : World) : Prop :=
  out (logger w) = if console then Stderr else LogFile logFile.

(** A computation is quiet when, started with the log where the flags
    say, it makes only calls allowed before placement, leaves the log
    where it was, and changes no file but the log file. *)
Definition quiet {A} (console : bool) (logFile source : string) (m : M A) : Prop :=
  ∀ w, sinkOf console logFile w →
    ∃ calls,
      trace (m w).2 = (trace w ++ calls)%list
      ∧ Forall (λ c, beforePlacement console logFile source c = true) calls
      ∧ sinkOf console logFile (m w).2
      ∧ ∀ p, console = true ∨ p ≠ logFile → files (m w).2 !! p = files w !! p.

(** *** The parts of [main] *)

(** The fields [main] adds to the events about the target. *)
Definition extraTargetFn (targetDir targetPath : string) : Event → Event :=
  λ event, Str "target-dir" targetDir (Str "target-path" targetPath event).

(** What [main] does with the two paths its switch has found, to its
    return. *)
Definition afterSwitch (source : string) (found : string * string) : M unit :=
  let targetDir := found.1 in
  let targetPath := found.2 in
  (if bool_decide (targetDir = "") then errorFatal "No target dir" None None
   else if bool_decide (targetPath = "") then errorFatal "No target path" None None
   else ret tt);;
  let extraTargetFn := extraTargetFn targetDir targetPath in
  let* err := checkTargetDir targetDir in
  match err with
  | Some e => errorFatal "Check target dir" (Some e) (Some extraTargetFn)
  | None => ret tt
  end;;
  let* err := copySourceToTarget source targetPath extraTargetFn in
  match err with
  | Some e =>
      errorFatal "Copy source file to target directory" (Some e) (Some extraTargetFn)
  | None => ret tt
  end;;
  Msg InfoLevel [] "GardePro finished".

(** What [main] does once the log is set up, with the target root
    already trimmed. *)
Definition afterLog {env : Environment} (source target : string) : M unit :=
  addContext "source" source;;
  addContext "target" target;;
  Msg InfoLevel [] "GardePro starting";;
  let* found := switch source target in
  afterSwitch source found.

(** *** Files that are only added to *)

(** Between two states of the file system every entry is kept as it
    was, but for the file the log goes to, which may have grown at its
    end. *)
Definition extends (sink : Sink) (fs fs' : gmap string Node) : Prop :=
  ∀ p n, fs !! p = Some n →
    fs' !! p = Some n
    ∨ (sink = LogFile p ∧ ∃ c more, n = File c ∧ fs' !! p = Some (File (c ++ more)%list)).

(** A computation is orderly in a world when, run there, it leaves the
    log where it goes and only extends the file system; it is orderly
    when it is so in every world. *)
Definition orderlyAt {A} (w : World) (m : M A) : Prop :=
  out (logger (m w).2) = out (logger w)
  ∧ extends (out (logger w)) (files w) (files (m w).2).

Definition orderly {A} (m : M A) : Prop := ∀ w, orderlyAt w m.

(** *** Sources that carry their time *)

(** The tags [EXIFgetValue] finds for the date and time: those of the
    root directory, or, when it has none, those of the Exif
    directory. *)
Definition dateTimeEntries (index : IfdIndex) : Result (list IfdTagEntry) :=
  match FindTagWithId (Some (RootIfd index)) tagIDDateTime with
  | Err _ => FindTagWithId (Lookup index !! "IFD/Exif") tagIDDateTime
  | found => found
  end.

(** The source is a regular file that decodes to the given time: a
    picture with one date tag whose text parses, or a film with one
    [mvhd] box. *)
Definition readsTime {env : Environment} (source : string) (fs : gmap string Node)
    (when : Time) : Prop :=
  (∃ bytes raw index entry whenStr,
      (ToLower (Ext source) = ".jpg" ∨ ToLower (Ext source) = ".jpeg")
      ∧ fs !! source = Some (File bytes)
      ∧ SearchAndExtractExif bytes = Ok raw
      ∧ NewIfdMappingWithStandard = None
      ∧ Collect raw = Ok index
      ∧ dateTimeEntries index = Ok [entry]
      ∧ Value entry = Ok (StringValue whenStr)
      ∧ Parse "2006:01:02 15:04:05" whenStr = Ok when)
  ∨ (∃ bytes v,
        ToLower (Ext source) = ".mp4"
        ∧ fs !! source = Some (File bytes)
        ∧ ExtractBoxWithPayload bytes = Ok [mkBox (Mvhd v)]
        ∧ when = mvhdTime v).

(** The world in which [main] turns to the target, for a source that
    carries its time. *)
Definition atPlacement (console : bool) (logFile source target : string)
    (fs : gmap string Node) : World :=
  record (ReadCall source)
    (record (OpenCall source) (atSwitch console logFile source target fs)).

(** The log does not go to the path. *)
Definition logApart (w : World) (path : string) : Prop :=
  out (logger w) ≠ LogFile path.

(** *** More examples *)

Definition exampleBytes : list Byte.byte := list_byte_of_string "2023:06:15 14:30:05".

Definition exampleDestination : string := "/archive/2023/06-15-14:30:05-IMG_001.JPG".

(** The card and the archive after the picture was placed, and with
    another file in its place. *)
Definition archivedFiles : gmap string Node :=
  <[exampleDestination := File exampleBytes]> (<["/archive/2023" := Dir]> exampleFiles).

Definition conflictFiles : gmap string Node :=
  <[exampleDestination := File (list_byte_of_string "another picture")]>
    (<["/archive/2023" := Dir]> exampleFiles).

(** *** What the tag lookup logs *)

(** The fields of the debug event for a tag, and the calls that the
    listing of tags adds to the trace: one event for each tag, in
    order. *)
Definition tagFields (ite : IfdTagEntry) : Event :=
  Str "ID" ("0x" +:+ FormatUint16 (TagId ite))
    (Str "path" (IfdPath ite +:+ "/" +:+ TagName ite) []).

Definition tagCalls (w : World) (tags : list IfdTagEntry) : list Call :=
  flat_map (λ ite, logCalls w DebugLevel (tagFields ite) "tag") tags.

(** The fields of the error event of a failed lookup. *)
Definition lookupFields (tagName : string) (tagID : Z) (err : error) : Event :=
  Str "ID" (Itoa (Z.to_nat tagID)) (Str "tag" tagName (Str "error" (Error err) [])).

(** *** The text of a date tag *)

(** A calendar time written as cameras write it into the tag:
    [YYYY:MM:DD HH:MM:SS]. *)
Definition dateText (y mo d h mi s : Z) : string :=
  fourDigits y +:+ ":" +:+ twoDigits mo +:+ ":" +:+ twoDigits d +:+ " "
  +:+ twoDigits h +:+ ":" +:+ twoDigits mi +:+ ":" +:+ twoDigits s.

(** The name [main] gives a file in the directory of its year. *)
Definition datedName (mo d h mi s : Z) (base : string) : string :=
  twoDigits mo +:+ "-" +:+ twoDigits d +:+ "-" +:+ twoDigits h +:+ ":"
  +:+ twoDigits mi +:+ ":" +:+ twoDigits s +:+ "-" +:+ base.

(** *** How a run ends *)

(** When the computation leaves through [errorFatal], the last call of
    the process is the fatal event with the message it left with, and
    the dialog with the text of the error was shown. *)
Definition fatalLogged {A} (m : M A) : Prop :=
  ∀ w message err w', m w = (Fatal message err, w') →
    (∃ fields, last (trace w') = Some (Logged FatalLevel message fields))
    ∧ DialogError "Fatal Error" (fatalText message err) ∈ trace w'.

(** The computation always goes on with a value. *)
Definition returns {A} (m : M A) : Prop := ∀ w, ∃ a w', m w = (Done a, w').

(** *** The messages of a fatal end *)

(** The messages [main] can leave with for a source. *)
Definition fatalMessages (source : string) : list string :=
  ["Get EXIF index"; "Get tag value"; "Date/Time not string"; "Parse time";
   "Get MP4 metadata"; "Wrong number of metadata results";
   "Convert metadata payload to mvhd";
   "Unrecognized extension: " +:+ ToLower (Ext source);
   "Check target dir"; "Copy source file to target directory"].

(** When the computation leaves through [errorFatal], its message is
    one of the given ones. *)
Definition fatalWith {A} (messages : list string) (m : M A) : Prop :=
  ∀ w message err, (m w).1 = Fatal message err → message ∈ messages.

(** The errors of [os.Open] on a path where nothing is. *)
Definition notThere (e : error) : Prop :=
  e = SyscallError ENOENT ∨ e = SyscallError ENOTDIR.

(** *** Sources without a creation time *)

(** The source is of a kind the program knows. *)
Definition supported (source : string) : Prop :=
  ToLower (Ext source) = ".jpg" ∨ ToLower (Ext source) = ".jpeg"
  ∨ ToLower (Ext source) = ".mp4".

(** No creation time can be read from a source of a kind the program
    knows: it is not a regular file, it cannot be decoded, it has no
    metadata, the date tag or the [mvhd] box is missing or comes
    several times, or the tag is no text that parses. *)
Definition lacksCreationTime {env : Environment} (source : string)
    (fs : gmap string Node) : Prop :=
  supported source ∧ ∀ when, ¬ readsTime source fs when.

(** The messages with which reading the creation time fails. *)
Definition extractionMessages : list string :=
  ["Get EXIF index"; "Get tag value"; "Date/Time not string"; "Parse time";
   "Get MP4 metadata"; "Wrong number of metadata results";
   "Convert metadata payload to mvhd"].

(** *** The paths a run touches *)

(** The call names no path, one of the given paths, or the log file
    when the log goes to a file. *)
Definition onPaths (console : bool) (logFile : string) (paths : list string)
    (c : Call) : Prop :=
  match pathOf c with
  | None => True
  | Some p => p ∈ paths ∨ (console = false ∧ p = logFile)
  end.

(** Started with the log where the flags say, the computation adds to
    the trace only calls on the given paths and on the log file, and
    leaves the log where it was. *)
Definition confined {A} (console : bool) (logFile : string) (paths : list string)
    (m : M A) : Prop :=
  ∀ w, sinkOf console logFile w →
    ∃ calls,
      trace (m w).2 = (trace w ++ calls)%list
      ∧ Forall (onPaths console logFile paths) calls
      ∧ sinkOf console logFile (m w).2.

End Spec.

(** * Properties *)

(** ** Strings and paths *)

Module StringFacts.
Import GoStrings Filepath.

Lemma bytesOf_app (a b : string) : bytesOf (a +:+ b) = (bytesOf a ++ bytesOf b)%list.
Proof. induction a as [|c a IH]; simpl; [done | by rewrite <- IH]. Qed.

Lemma ofBytes_bytesOf (s : string) : ofBytes (bytesOf s) = s.
Proof. apply string_of_list_ascii_of_string. Qed.

Lemma bytesOf_ofBytes (l : list ascii) : bytesOf (ofBytes l) = l.
Proof. apply list_ascii_of_string_of_list_ascii. Qed.

Lemma append_cons (x : ascii) (a b : string) : String x a +:+ b = String x (a +:+ b).
Proof. reflexivity. Qed.

Lemma append_assoc (a b c : string) : (a +:+ b) +:+ c = a +:+ (b +:+ c).
Proof.
  induction a as [|x a IH]; [done |].
  by rewrite !append_cons, IH.
Qed.

Lemma HasSuffix_app (r suffix : string) : HasSuffix (r +:+ suffix) suffix = true.
Proof.
  unfold HasSuffix. apply bool_decide_eq_true.
  rewrite bytesOf_app, reverse_app. by apply prefix_app_r.
Qed.

(** Trimming a suffix that was just appended gives the string back. *)
Lemma TrimSuffix_app (r suffix : string) : TrimSuffix (r +:+ suffix) suffix = r.
Proof.
  unfold TrimSuffix. rewrite HasSuffix_app, bytesOf_app, length_app.
  replace (List.length (bytesOf r) + List.length (bytesOf suffix)
           - List.length (bytesOf suffix))%nat
    with (List.length (bytesOf r)) by lia.
  by rewrite take_app_length, ofBytes_bytesOf.
Qed.

Lemma TrimSuffix_none (r suffix : string) :
  HasSuffix r suffix = false → TrimSuffix r suffix = r.
Proof. unfold TrimSuffix. by intros ->. Qed.

(** Only one separator goes: a root written with two keeps one. *)
Example TrimSuffix_once : TrimSuffix "/archive//" "/" = "/archive/".
Proof. reflexivity. Qed.

Example Ext_examples :
  Ext "/dcim/100MEDIA/IMG_001.JPG" = ".JPG" ∧ Ext "/dcim/v1.2/clip" = ""
  ∧ Ext "movie.final.mp4" = ".mp4" ∧ Ext "/dcim/" = "".
Proof. repeat split; reflexivity. Qed.

Example Base_examples :
  Base "/dcim/100MEDIA/IMG_001.JPG" = "IMG_001.JPG" ∧ Base "IMG_001.JPG" = "IMG_001.JPG"
  ∧ Base "" = "." ∧ Base "//" = "/" ∧ Base "/dcim/clip.mp4/" = "clip.mp4".
Proof. repeat split; reflexivity. Qed.

Lemma append_empty (a : string) : a +:+ "" = a.
Proof. induction a as [|x a IH]; [done |]. by rewrite append_cons, IH. Qed.

(** *** Base names *)

Lemma existsb_reverse (f : ascii → bool) (l : list ascii) :
  existsb f (reverse l) = existsb f l.
Proof.
  induction l as [|c l IH]; [done |].
  rewrite reverse_cons, existsb_app. simpl. rewrite IH. destruct (f c), (existsb f l); done.
Qed.

Lemma lastElement_no_separator (back seen : list ascii) :
  existsb IsPathSeparator back = false →
  lastElement back seen = (reverse back ++ seen)%list.
Proof.
  revert seen. induction back as [|c back IH]; intros seen; simpl; [done |].
  rewrite orb_false_iff. intros [-> H]. rewrite IH by done.
  by rewrite reverse_cons, <- app_assoc.
Qed.

Lemma lastElement_until_separator (l rest seen : list ascii) :
  existsb IsPathSeparator l = false →
  lastElement (l ++ "/"%char :: rest) seen = (reverse l ++ seen)%list.
Proof.
  revert seen. induction l as [|x l IH]; intros seen; simpl; [done |].
  rewrite orb_false_iff. intros [-> Hl]. rewrite IH by done.
  by rewrite reverse_cons, <- app_assoc.
Qed.

Lemma stripSeparators_front (l rest : list ascii) :
  l ≠ [] → existsb IsPathSeparator l = false →
  stripSeparators (l ++ rest) = (l ++ rest)%list.
Proof.
  destruct l as [|c l]; simpl; [done |]. rewrite orb_false_iff. by intros _ [-> _].
Qed.

(** A name without a separator is its own base name, extension
    included. *)
Lemma Base_plain (b : string) : b ≠ "" → hasSeparator b = false → Base b = b.
Proof.
  intros Hne Hsep. unfold Base, hasSeparator in *.
  rewrite bool_decide_eq_false_2 by done. cbv zeta.
  assert (stripSeparators (reverse (bytesOf b)) = reverse (bytesOf b)) as ->.
  { rewrite <- existsb_reverse in Hsep.
    destruct (reverse (bytesOf b)) as [|c l]; [done |]. simpl in *.
    apply orb_false_iff in Hsep as [-> _]. done. }
  rewrite lastElement_no_separator by (by rewrite existsb_reverse).
  rewrite reverse_involutive, app_nil_r.
  rewrite bool_decide_eq_false_2; [apply ofBytes_bytesOf |].
  intros E. apply Hne. by rewrite <- (ofBytes_bytesOf b), E.
Qed.

(** The base name of a file in a directory is the name of the file. *)
Lemma Base_in_directory (dir b : string) :
  b ≠ "" → hasSeparator b = false → Base (dir +:+ "/" +:+ b) = b.
Proof.
  intros Hne Hsep. unfold Base, hasSeparator in *.
  rewrite bool_decide_eq_false_2 by (destruct dir; done). cbv zeta.
  rewrite !bytesOf_app, !reverse_app.
  assert (reverse (bytesOf b) ≠ []) as Hrev.
  { intros E. apply Hne. rewrite <- (ofBytes_bytesOf b).
    by rewrite <- (reverse_involutive (bytesOf b)), E. }
  rewrite <- existsb_reverse in Hsep.
  rewrite <- app_assoc.
  rewrite stripSeparators_front by done.
  change (reverse (bytesOf "/")) with ["/"%char]. cbn [app].
  rewrite lastElement_until_separator by done.
  rewrite reverse_involutive, app_nil_r.
  rewrite bool_decide_eq_false_2; [apply ofBytes_bytesOf |].
  intros E. apply Hne. by rewrite <- (ofBytes_bytesOf b), E.
Qed.

End StringFacts.

(** ** The calendar and the printing of times *)

Module TimeFacts.
Import GoStrings GoErrors Filepath GoTime OS Media Gardepro Spec StringFacts.

(** A property checked on every number below a bound holds below it. *)
Lemma all_below (P : Z → bool) (n : Z) :
  forallb P (seqZ 0 n) = true → ∀ x, 0 ≤ x < n → P x = true.
Proof.
  intros H x Hx. rewrite forallb_forall in H.
  apply H, list_elem_of_In, elem_of_seqZ. lia.
Qed.

(** *** Digits *)

Lemma twoDigits_checked :
  forallb (λ k, String.eqb (appendInt k 2) (twoDigits k)) (seqZ 0 100) = true.
Proof. vm_compute. reflexivity. Qed.

Lemma fourDigits_checked :
  forallb (λ k, String.eqb (appendInt k 4) (fourDigits k)) (seqZ 0 10000) = true.
Proof. vm_cast_no_check (eq_refl true). Qed.

Lemma appendInt_twoDigits (n : Z) : 0 ≤ n < 100 → appendInt n 2 = twoDigits n.
Proof.
  intros Hn. apply String.eqb_eq.
  apply (all_below (λ k, String.eqb (appendInt k 2) (twoDigits k)) 100
                   twoDigits_checked n Hn).
Qed.

Lemma appendInt_fourDigits (n : Z) : 0 ≤ n < 10000 → appendInt n 4 = fourDigits n.
Proof.
  intros Hn. apply String.eqb_eq.
  apply (all_below (λ k, String.eqb (appendInt k 4) (fourDigits k)) 10000
                   fourDigits_checked n Hn).
Qed.

(** *** One cycle of 400 years, checked day by day *)

Lemma sameDate_eq (a b : Z * Z * Z) : sameDate a b = true → a = b.
Proof.
  destruct a as [[? ?] ?], b as [[? ?] ?]. unfold sameDate. simpl.
  rewrite !andb_true_iff, !Z.eqb_eq. by intros [[-> ->] ->].
Qed.

Lemma cycle_checked :
  forallb (λ a, forallb (λ b, forallb (λ c, cycleRoundTrip a b c)
    (seqZ 0 32)) (seqZ 0 13)) (seqZ 0 400) = true.
Proof. vm_cast_no_check (eq_refl true). Qed.

Lemma daysIn_le_31 (m y : Z) : daysIn m y ≤ 31.
Proof.
  unfold daysIn. repeat (case_match; try lia).
Qed.

Lemma cycle_round_trip (yoe m d : Z) :
  0 ≤ yoe < 400 → inCycle yoe m d = true →
  0 ≤ dayInCycle yoe m d < 146097
  ∧ dateInCycle (dayInCycle yoe m d) = (yoe, m, d).
Proof.
  intros Hy Hin.
  assert (1 ≤ m ≤ 12 ∧ 1 ≤ d ≤ 31) as [Hm Hd].
  { unfold inCycle in Hin. rewrite !andb_true_iff, !Z.leb_le in Hin.
    pose proof (daysIn_le_31 m (yoe + (if m <=? 2 then 1 else 0))). lia. }
  pose proof (all_below
    (λ a, forallb (λ b, forallb (λ c, cycleRoundTrip a b c) (seqZ 0 32)) (seqZ 0 13))
    400 cycle_checked yoe ltac:(lia)) as H1. cbv beta in H1.
  pose proof (all_below (λ b, forallb (λ c, cycleRoundTrip yoe b c) (seqZ 0 32))
                13 H1 m ltac:(lia)) as H2. cbv beta in H2.
  pose proof (all_below (λ c, cycleRoundTrip yoe m c) 32 H2 d ltac:(lia)) as H3.
  cbv beta in H3. unfold cycleRoundTrip in H3. rewrite Hin in H3.
  rewrite !andb_true_iff, Z.leb_le, Z.ltb_lt in H3.
  destruct H3 as [[? ?] ?%sameDate_eq]. done.
Qed.

Lemma isLeap_period (a k : Z) : isLeap (a + k * 400) = isLeap a.
Proof.
  unfold isLeap.
  replace ((a + k * 400) mod 4) with (a mod 4)
    by (replace (a + k * 400) with (a + (k * 100) * 4) by lia; by rewrite Z.mod_add).
  replace ((a + k * 400) mod 100) with (a mod 100)
    by (replace (a + k * 400) with (a + (k * 4) * 100) by lia; by rewrite Z.mod_add).
  by rewrite Z.mod_add.
Qed.

Lemma daysIn_period (m a k : Z) : daysIn m (a + k * 400) = daysIn m a.
Proof. unfold daysIn. by rewrite isLeap_period. Qed.

(** The date of the day of a date is that date, in every year. *)
Lemma civil_daysSinceEpoch (y m d : Z) :
  1 ≤ m ≤ 12 → 1 ≤ d ≤ daysIn m y → civil (daysSinceEpoch y m d) = (y, m, d).
Proof.
  intros Hm Hd. unfold civil, daysSinceEpoch. cbv zeta.
  set (y' := if m <=? 2 then y - 1 else y).
  set (era := y' / 400). set (yoe := y' mod 400).
  assert (y' = era * 400 + yoe) as Hy'.
  { unfold era, yoe. pose proof (Z.div_mod y' 400). lia. }
  assert (0 ≤ yoe < 400) as Hyoe by (unfold yoe; apply Z.mod_pos_bound; lia).
  assert (y = yoe + (if m <=? 2 then 1 else 0) + era * 400) as Hy.
  { unfold y' in Hy'. destruct (m <=? 2); lia. }
  assert (inCycle yoe m d = true) as Hin.
  { unfold inCycle. rewrite !andb_true_iff, !Z.leb_le.
    rewrite Hy, daysIn_period in Hd. lia. }
  destruct (cycle_round_trip yoe m d Hyoe Hin) as [Hrange Hback].
  replace (era * 146097 + dayInCycle yoe m d - 719468 + 719468)
    with (dayInCycle yoe m d + era * 146097) by lia.
  rewrite Z.mod_add, Z.div_add by lia.
  rewrite (Z.mod_small _ _ Hrange), (Z.div_small _ _ Hrange), Hback.
  do 2 f_equal. destruct (m <=? 2); lia.
Qed.

(** *** Times built from a date *)

Lemma Date_shows (y mo d h mi s : Z) :
  1 ≤ mo ≤ 12 → 1 ≤ d ≤ daysIn mo y → 0 ≤ h < 24 → 0 ≤ mi < 60 → 0 ≤ s < 60 →
  shows (Date y mo d h mi s) y mo d h mi s.
Proof.
  intros Hmo Hd Hh Hmi Hs.
  unfold shows, Year, Month, Day, Hour, Minute, Sec, abs, Date, UTC, secondsPerDay.
  cbn [unix loc].
  set (D := daysSinceEpoch y mo d).
  assert ((D * 86400 + h * 3600 + mi * 60 + s + 0) `div` 86400 = D) as ->.
  { replace (D * 86400 + h * 3600 + mi * 60 + s + 0)
      with (h * 3600 + mi * 60 + s + D * 86400) by lia.
    rewrite Z.div_add by lia. rewrite Z.div_small; lia. }
  subst D. rewrite civil_daysSinceEpoch by done. cbn [fst snd].
  repeat split.
  - replace (daysSinceEpoch y mo d * 86400 + h * 3600 + mi * 60 + s + 0)
      with (h * 3600 + mi * 60 + s + daysSinceEpoch y mo d * 86400) by lia.
    rewrite Z.mod_add by lia. rewrite Z.mod_small by lia.
    replace (h * 3600 + mi * 60 + s) with (mi * 60 + s + h * 3600) by lia.
    rewrite Z.div_add by lia. rewrite Z.div_small; lia.
  - replace (daysSinceEpoch y mo d * 86400 + h * 3600 + mi * 60 + s + 0)
      with (mi * 60 + s + (daysSinceEpoch y mo d * 24 + h) * 3600) by lia.
    rewrite Z.mod_add by lia. rewrite Z.mod_small by lia.
    replace (mi * 60 + s) with (s + mi * 60) by lia.
    rewrite Z.div_add by lia. rewrite Z.div_small; lia.
  - replace (daysSinceEpoch y mo d * 86400 + h * 3600 + mi * 60 + s + 0)
      with (s + (daysSinceEpoch y mo d * 1440 + h * 60 + mi) * 60) by lia.
    rewrite Z.mod_add by lia. rewrite Z.mod_small; lia.
Qed.

(** *** The two layouts of the program *)

Lemma chunks_fileDateStubFmt :
  chunks 0 fileDateStubFmt
  = [literal "/"%char; stdLongYear; literal "/"%char; stdZeroMonth; literal "-"%char; stdZeroDay;
     literal "-"%char; stdHour; literal ":"%char; stdZeroMinute; literal ":"%char; stdZeroSecond;
     literal "-"%char].
Proof. vm_compute. reflexivity. Qed.

Lemma chunks_targetDirFmt : chunks 0 targetDirFmt = [literal "/"%char; stdLongYear].
Proof. vm_compute. reflexivity. Qed.

Lemma Format_fileDateStubFmt (t : Time) :
  Format t fileDateStubFmt
  = "/" +:+ appendInt (Year t) 4 +:+ "/" +:+ appendInt (Month t) 2 +:+ "-"
    +:+ appendInt (Day t) 2 +:+ "-" +:+ appendInt (Hour t) 2 +:+ ":"
    +:+ appendInt (Minute t) 2 +:+ ":" +:+ appendInt (Sec t) 2 +:+ "-".
Proof. unfold Format. rewrite chunks_fileDateStubFmt. reflexivity. Qed.

Lemma Format_targetDirFmt (t : Time) :
  Format t targetDirFmt = "/" +:+ appendInt (Year t) 4.
Proof.
  unfold Format. rewrite chunks_targetDirFmt. cbn [foldr formatChunk].
  by rewrite append_empty.
Qed.

(** *** Durations *)

Lemma wrap64_small (x : Z) : - 2 ^ 63 ≤ x < 2 ^ 63 → wrap64 x = x.
Proof. intros H. unfold wrap64. rewrite Z.mod_small; lia. Qed.

Section WithEnvironment.
Context {env : Environment}.

Lemma mvhdTime_unix (v : Z) :
  0 ≤ v < 2 ^ 32 → unix (mvhdTime v) = unix (Date 1904 1 1 0 0 0) + v.
Proof.
  intros Hv. unfold mvhdTime, In, Add, mulDuration, uint32, Second. cbn [unix].
  rewrite Z.mod_small by done.
  rewrite wrap64_small by lia.
  by rewrite Z.mul_comm, Z.quot_mul.
Qed.

End WithEnvironment.

End TimeFacts.

(** ** Running the program *)

Module Runs.
Import GoStrings GoErrors Filepath GoTime OS Media Gardepro Spec StringFacts.

Lemma bind_done {A B} (m : M A) (k : A → M B) (w w' : World) (a : A) :
  m w = (Done a, w') → bind m k w = k a w'.
Proof. unfold bind. by intros ->. Qed.

Lemma bind_fatal {A B} (m : M A) (k : A → M B) (w w' : World) message err :
  m w = (Fatal message err, w') → bind m k w = (Fatal message err, w').
Proof. unfold bind. by intros ->. Qed.

Lemma Msg_run (l : Level) (e : Event) (message : string) (w : World) :
  Msg l e message w = (Done tt, logged w l e message).
Proof.
  unfold Msg, logged, bind, getLogger. destruct (out (logger w)); reflexivity.
Qed.

Lemma errorFatal_run {A} (message : string) (err : option error)
    (extra : option (Event → Event)) (w : World) :
  @errorFatal A message err extra w
  = (Fatal message err,
     logged (record (DialogError "Fatal Error" (fatalText message err)) w)
            FatalLevel (fatalEvent err extra) message).
Proof.
  unfold errorFatal, bind, dialog. rewrite Msg_run. reflexivity.
Qed.

(** *** Files that a call leaves alone *)

Lemma lookup_appendTo_ne (fs : gmap string Node) (path p : string) data :
  p ≠ path → appendTo fs path data !! p = fs !! p.
Proof.
  intros Hp. unfold appendTo. repeat case_match; try done.
  by rewrite lookup_insert_ne.
Qed.

Lemma lookup_OpenAppend_ne (fs : gmap string Node) (path p : string) :
  p ≠ path → (OpenAppend fs path).2 !! p = fs !! p.
Proof.
  intros Hp. unfold OpenAppend. repeat case_match; simplify_eq; cbn; try done.
  by rewrite lookup_insert_ne.
Qed.

Lemma logged_trace w l e message :
  trace (logged w l e message) = (trace w ++ logCalls w l e message)%list.
Proof.
  unfold logged, logCalls. destruct (out (logger w)); cbn; [done |].
  by rewrite <- app_assoc.
Qed.

Lemma logged_files w l e message p :
  out (logger w) ≠ LogFile p → files (logged w l e message) !! p = files w !! p.
Proof.
  intros Hp. unfold logged. destruct (out (logger w)) as [| path]; cbn; [done |].
  apply lookup_appendTo_ne. congruence.
Qed.

Lemma logged_logger w l e message : logger (logged w l e message) = logger w.
Proof. unfold logged. by destruct (out (logger w)). Qed.

(** Closes a goal [Forall P calls] on a list of calls that is written
    out, given a tactic for one call. *)
Ltac each_call tac :=
  repeat match goal with
         | |- Forall _ (_ :: _) => constructor; [tac |]
         | |- Forall _ [] => constructor
         end.

(** *** The switch is quiet *)

Section Quiet.
Context {env : Environment}.
Variables (console : bool) (logFile source : string).

Local Abbreviation quiet' := (quiet console logFile source).

Lemma quiet_ret {A} (a : A) : quiet' (ret a).
Proof.
  intros w Hs. exists []. cbn. rewrite app_nil_r. auto.
Qed.

Lemma quiet_exit {A} message err : quiet' (@exit A message err).
Proof.
  intros w Hs. exists []. cbn. rewrite app_nil_r. auto.
Qed.

Lemma quiet_bind {A B} (m : M A) (k : A → M B) :
  quiet' m → (∀ a, quiet' (k a)) → quiet' (bind m k).
Proof.
  intros Hm Hk w Hs. destruct (Hm w Hs) as (c1 & Ht1 & Hok1 & Hs1 & Hf1).
  unfold bind. destruct (m w) as [[a | message err] w1] eqn:Hmw; cbn in *.
  - destruct (Hk a w1 Hs1) as (c2 & Ht2 & Hok2 & Hs2 & Hf2).
    exists (c1 ++ c2)%list. rewrite Ht2, Ht1, app_assoc.
    split_and!; [done | by apply Forall_app | done |].
    intros p Hp. by rewrite Hf2, Hf1.
  - exists c1. auto.
Qed.

Lemma quiet_open : quiet' (open source).
Proof.
  intros w Hs. exists [OpenCall source]. cbn.
  split_and!; [done | | done | done].
  constructor; [| done]. cbn. by apply bool_decide_eq_true.
Qed.

Lemma quiet_read : quiet' (read source).
Proof.
  intros w Hs. exists [ReadCall source]. cbn.
  split_and!; [done | | done | done].
  constructor; [| done]. cbn. by apply bool_decide_eq_true.
Qed.

Lemma quiet_dialog title message : quiet' (dialog title message).
Proof.
  intros w Hs. exists [DialogError title message]. cbn.
  split_and!; [done | | done | done]. by constructor.
Qed.

Lemma quiet_Msg l e message : quiet' (Msg l e message).
Proof.
  intros w Hs. rewrite Msg_run. unfold logged. red in Hs. rewrite Hs.
  destruct console; cbn.
  - eexists [_]. split_and!; [done | by constructor | done | done].
  - eexists [_; _]. split_and!.
    + rewrite <- app_assoc. done.
    + repeat constructor. cbn. by apply bool_decide_eq_true.
    + done.
    + intros p [? | Hp]; [done |]. by apply lookup_appendTo_ne.
Qed.

Lemma quiet_errorFatal {A} message err extra : quiet' (@errorFatal A message err extra).
Proof.
  unfold errorFatal.
  apply quiet_bind; [apply quiet_dialog | intros _].
  apply quiet_bind; [apply quiet_Msg | intros _]. apply quiet_exit.
Qed.

Lemma quiet_logTags tags : quiet' (logTags tags).
Proof.
  induction tags as [|t tags IH]; cbn [logTags]; [apply quiet_ret |].
  apply quiet_bind; [apply quiet_Msg | by intros _].
Qed.

Lemma quiet_EXIFenumerateIndex index : quiet' (EXIFenumerateIndex index).
Proof.
  unfold EXIFenumerateIndex.
  apply quiet_bind; [apply quiet_logTags | intros _; apply quiet_ret].
Qed.

Lemma quiet_readFile : quiet' (readFile source).
Proof.
  unfold readFile. apply quiet_bind; [apply quiet_open |].
  intros [e |]; [apply quiet_ret | apply quiet_read].
Qed.

Lemma quiet_EXIFgetIndex : quiet' (EXIFgetIndex source).
Proof.
  unfold EXIFgetIndex. apply quiet_bind; [apply quiet_readFile |].
  intros r. repeat case_match; apply quiet_ret.
Qed.

Lemma quiet_EXIFgetValue index tagName tagID :
  quiet' (EXIFgetValue index tagName tagID).
Proof.
  unfold EXIFgetValue. cbv zeta. case_match.
  - repeat case_match; apply quiet_ret.
  - apply quiet_bind; [apply quiet_Msg | intros _].
    apply quiet_bind; [apply quiet_EXIFenumerateIndex | intros r].
    apply quiet_bind; [| intros _; apply quiet_ret].
    destruct r; [apply quiet_Msg | apply quiet_ret].
Qed.

Lemma quiet_MP4getMetadata : quiet' (MP4getMetadata source).
Proof.
  unfold MP4getMetadata. apply quiet_bind; [apply quiet_open |].
  intros [e |]; [apply quiet_ret |].
  apply quiet_bind; [apply quiet_read |]. intros [b | e]; apply quiet_ret.
Qed.

Lemma quiet_jpgCase target : quiet' (jpgCase source target).
Proof.
  unfold jpgCase. apply quiet_bind; [apply quiet_EXIFgetIndex |].
  intros [index | e]; [| apply quiet_errorFatal].
  apply quiet_bind; [apply quiet_EXIFgetValue |].
  intros r. repeat case_match; try apply quiet_errorFatal. apply quiet_ret.
Qed.

Lemma quiet_mp4Case target : quiet' (mp4Case source target).
Proof.
  unfold mp4Case. apply quiet_bind; [apply quiet_MP4getMetadata |].
  intros r. repeat case_match; try apply quiet_errorFatal. apply quiet_ret.
Qed.

(** Whatever the switch does, it does before placement. *)
Lemma quiet_switch target : quiet' (switch source target).
Proof.
  unfold switch. cbv zeta. repeat case_match.
  - apply quiet_jpgCase.
  - apply quiet_mp4Case.
  - apply quiet_errorFatal.
Qed.

End Quiet.

(** *** From the start of [main] to its switch *)

Section MainPrefix.
Context {env : Environment}.

Lemma openLog_run console logFile (w : World) :
  logOpens console logFile (files w) →
  openLog console logFile w = (Done true, logOpened console logFile w).
Proof.
  intros Hlog. unfold openLog, logOpened. destruct console; [reflexivity |].
  destruct Hlog as [? | Hlog]; [done |].
  unfold bind, openAppend, write, setLogger, ret.
  destruct (OpenAppend (files w) logFile) as [e fs'] eqn:Ho. cbn in *. subst e.
  cbn. unfold record, withFiles. cbn. rewrite <- app_assoc. reflexivity.
Qed.

Lemma addContext_run key val (w : World) :
  addContext key val w = (Done tt, withContext key val w).
Proof. reflexivity. Qed.

(** A run that ends inside the switch ends [main] there. *)
Lemma main_ends_in_switch console logFile source target fs message err w' :
  source ≠ "" → target ≠ "" → logOpens console logFile fs →
  switch source (TrimSuffix target "/") (atSwitch console logFile source target fs)
  = (Fatal message err, w') →
  main console logFile source target (start fs) = (Fatal message err, w').
Proof.
  intros Hs Ht Hlog Hrun. unfold main.
  rewrite !bool_decide_eq_false_2 by done. cbn [orb].
  rewrite (bind_done _ _ _ _ _ (openLog_run console logFile (start fs) Hlog)).
  cbn [negb].
  rewrite (bind_done _ _ _ _ _ (addContext_run _ _ _)).
  rewrite (bind_done _ _ _ _ _ (addContext_run _ _ _)).
  rewrite (bind_done _ _ _ _ _ (Msg_run _ _ _ _)).
  by apply bind_fatal.
Qed.

Lemma atSwitch_sink console logFile source target fs :
  sinkOf console logFile (atSwitch console logFile source target fs).
Proof. unfold sinkOf, atSwitch, logged. destruct console; reflexivity. Qed.

Lemma atSwitch_files console logFile source target fs p :
  console = true ∨ p ≠ logFile →
  files (atSwitch console logFile source target fs) !! p = fs !! p.
Proof.
  intros Hp. unfold atSwitch, logged. destruct console; cbn; [done |].
  destruct Hp as [? | Hp]; [done |].
  rewrite !lookup_appendTo_ne by done. by apply lookup_OpenAppend_ne.
Qed.

Lemma atSwitch_trace console logFile source target fs :
  Forall (λ c, pathOf c = None ∨ (console = false ∧ pathOf c = Some logFile))
         (trace (atSwitch console logFile source target fs)).
Proof.
  unfold atSwitch, logged.
  destruct console; cbn; each_call ltac:(first [by left | by right]).
Qed.

Lemma atSwitch_before console logFile source target fs :
  Forall (λ c, beforePlacement console logFile source c = true)
         (trace (atSwitch console logFile source target fs)).
Proof.
  unfold atSwitch, logged.
  destruct console; cbn;
    each_call ltac:(cbn; try done; by apply bool_decide_eq_true).
Qed.

End MainPrefix.

(** *** The branches of the switch *)

Section Switch.
Context {env : Environment}.

Lemma switch_jpg source target :
  ToLower (Ext source) = ".jpg" ∨ ToLower (Ext source) = ".jpeg" →
  switch source target = jpgCase source target.
Proof. unfold switch. cbv zeta. by intros [-> | ->]. Qed.

Lemma switch_mp4 source target :
  ToLower (Ext source) = ".mp4" → switch source target = mp4Case source target.
Proof. unfold switch. cbv zeta. by intros ->. Qed.

Lemma switch_other source target :
  ToLower (Ext source) ≠ ".jpg" → ToLower (Ext source) ≠ ".jpeg" →
  ToLower (Ext source) ≠ ".mp4" →
  switch source target
  = errorFatal ("Unrecognized extension: " +:+ ToLower (Ext source)) None None.
Proof. intros. unfold switch. cbv zeta. by rewrite !bool_decide_eq_false_2. Qed.

Lemma logTags_done tags w : (logTags tags w).1 = Done tt.
Proof.
  revert w. induction tags as [|t tags IH]; intros w; cbn [logTags]; [done |].
  by rewrite (bind_done _ _ _ _ _ (Msg_run _ _ _ _)).
Qed.

Lemma readFile_file source bytes w :
  files w !! source = Some (File bytes) →
  readFile source w
  = (Done (Ok bytes), record (ReadCall source) (record (OpenCall source) w)).
Proof.
  intros Hf. unfold readFile, bind, open, read, Open, Read. cbn.
  rewrite Hf. cbn. by rewrite Hf.
Qed.

Lemma FindTagWithId_missing i tagId :
  (∀ e, e ∈ entriesOf i → TagId e ≠ tagId) →
  FindTagWithId (Some i) tagId = Err ErrTagNotFound.
Proof.
  intros H. unfold FindTagWithId.
  assert (filter (λ e, TagId e = tagId) (entriesOf i) = []) as ->; [| done].
  revert H. generalize (entriesOf i). intros l.
  induction l as [|e l IH]; intros H; [done |].
  rewrite filter_cons_False by (apply H; constructor).
  apply IH. intros e' He'. apply H. by constructor.
Qed.

Lemma EXIFgetValue_missing index tagName w :
  tagMissing index →
  ∃ err, (EXIFgetValue index tagName tagIDDateTime w).1
         = Done (Err (Wrapped "find EXIF tag" err)).
Proof.
  intros [Hroot Hexif]. unfold EXIFgetValue. cbv zeta.
  rewrite (FindTagWithId_missing _ _ Hroot).
  assert (∃ err, FindTagWithId (Lookup index !! "IFD/Exif") tagIDDateTime = Err err)
    as [err ->].
  { destruct (Lookup index !! "IFD/Exif") as [i |] eqn:Hi.
    - eexists. apply FindTagWithId_missing. by apply Hexif.
    - by eexists. }
  exists err.
  rewrite (bind_done _ _ _ _ _ (Msg_run _ _ _ _)).
  unfold EXIFenumerateIndex. unfold bind at 1. unfold bind at 1.
  pose proof (logTags_done (allTags (RootIfd index))
                (logged w ErrorLevel
                   (Str "ID" (Itoa (Z.to_nat tagIDDateTime))
                      (Str "tag" tagName (Str "error" (Error err) [])))
                   "Find EXIF tag by ID")) as Hd.
  destruct (logTags _ _) as [[[] | ? ?] w1]; [| done]. reflexivity.
Qed.

Lemma jpgCase_missing source target bytes raw index w :
  files w !! source = Some (File bytes) →
  SearchAndExtractExif bytes = Ok raw →
  NewIfdMappingWithStandard = None →
  Collect raw = Ok index →
  tagMissing index →
  ∃ err, (jpgCase source target w).1 = Fatal "Get tag value" (Some err).
Proof.
  intros Hf Hs Hm Hc Ht. unfold jpgCase, EXIFgetIndex.
  unfold bind at 1. unfold bind at 1.
  rewrite (readFile_file _ _ _ Hf), Hs, Hm, Hc. cbn [ret].
  destruct (EXIFgetValue_missing index tagNameDateTime
              (record (ReadCall source) (record (OpenCall source) w)) Ht) as [err He].
  exists (Wrapped "find EXIF tag" err).
  destruct (EXIFgetValue _ _ _ _) as [[r | ? ?] w1] eqn:Hv; cbn in He; [| done].
  injection He as ->. rewrite (bind_done _ _ _ _ _ Hv). by rewrite errorFatal_run.
Qed.

Lemma mp4Case_empty source target bytes w :
  files w !! source = Some (File bytes) →
  ExtractBoxWithPayload bytes = Ok [] →
  (mp4Case source target w).1 = Fatal "Wrong number of metadata results" None.
Proof.
  intros Hf Hx. unfold mp4Case, MP4getMetadata, bind, open, read, Open, Read, ret.
  cbn. rewrite Hf. cbn. rewrite Hf. cbn. rewrite Hx. by rewrite errorFatal_run.
Qed.

Lemma jpgCase_paths source target w d p w' :
  jpgCase source target w = (Done (d, p), w') →
  ∃ when, d = targetDir target when ∧ p = targetPath target when source.
Proof.
  unfold jpgCase. unfold bind at 1.
  destruct (EXIFgetIndex source w) as [[[index | e] | ? ?] w1]; [| | done].
  - unfold bind at 1.
    destruct (EXIFgetValue _ _ _ w1) as [[[[whenStr | shown] | e] | ? ?] w2];
      try (by rewrite errorFatal_run); try done.
    destruct (Parse _ _) as [when | e]; [| by rewrite errorFatal_run].
    unfold ret. intros [= <- <- <-]. by exists when.
  - by rewrite errorFatal_run.
Qed.

Lemma mp4Case_paths source target w d p w' :
  mp4Case source target w = (Done (d, p), w') →
  ∃ when, d = targetDir target when ∧ p = targetPath target when source.
Proof.
  unfold mp4Case. unfold bind at 1.
  destruct (MP4getMetadata source w) as [[[metadata | e] | ? ?] w1]; [| | done].
  - destruct metadata as [| [[v | shown]] [| ? ?]]; cbn [Payload];
      try (by rewrite errorFatal_run).
    unfold ret. intros [= <- <- <-]. by eexists.
  - by rewrite errorFatal_run.
Qed.

Lemma switch_paths source target w d p w' :
  switch source target w = (Done (d, p), w') →
  ∃ when, d = targetDir target when ∧ p = targetPath target when source.
Proof.
  unfold switch. cbv zeta. repeat case_match.
  - apply jpgCase_paths.
  - apply mp4Case_paths.
  - by rewrite errorFatal_run.
Qed.

End Switch.

End Runs.

(** ** The kind of a file is read from its extension, whatever its case *)

Module Extensions.
Import GoStrings GoErrors Filepath GoTime OS Media Gardepro Spec.

Lemma N_of_ascii_inj (c d : ascii) : N_of_ascii c = N_of_ascii d → c = d.
Proof.
  intros H. rewrite <- (ascii_N_embedding c), <- (ascii_N_embedding d). by rewrite H.
Qed.

Lemma isUpper_range (c : ascii) :
  isUpper c = true ↔ (65 ≤ N_of_ascii c ≤ 90)%N.
Proof.
  unfold isUpper. cbv zeta. rewrite andb_true_iff, !N.leb_le. done.
Qed.

Lemma lowerByte_upper (c : ascii) :
  isUpper c = true → N_of_ascii (lowerByte c) = (N_of_ascii c + 32)%N.
Proof.
  intros Hc. unfold lowerByte. rewrite Hc.
  apply isUpper_range in Hc. apply N_ascii_embedding. lia.
Qed.

Lemma lowerByte_other (c : ascii) : isUpper c = false → lowerByte c = c.
Proof. unfold lowerByte. by intros ->. Qed.

(** Lower-casing a byte gives a byte that is not upper case exactly when
    the two are the same letter. *)
Lemma lowerByte_sameLetter (c d : ascii) :
  isUpper d = false → lowerByte c = d ↔ sameLetter c d = true.
Proof.
  intros Hd. unfold sameLetter. rewrite Hd, andb_false_l, orb_false_r.
  destruct (isUpper c) eqn:Hc.
  - rewrite andb_true_l, orb_true_iff, bool_decide_eq_true, N.eqb_eq.
    pose proof (lowerByte_upper c Hc) as Hl. split.
    + intros <-. by right.
    + intros [-> | Hn]; [congruence |].
      apply N_of_ascii_inj. by rewrite Hl.
  - rewrite andb_false_l, orb_false_r, bool_decide_eq_true.
    by rewrite lowerByte_other.
Qed.

(** [ToLower] reaches a lower-case spelling from exactly its case
    variants. *)
Lemma ToLower_EqualFold (e l : string) :
  noUpper l = true → ToLower e = l ↔ EqualFold e l = true.
Proof.
  revert l. induction e as [|c e IH]; intros [|d l]; simpl; try done.
  rewrite !andb_true_iff, negb_true_iff. intros [Hd Hl]. split.
  - intros [= Hc He]. split; [by apply lowerByte_sameLetter | by apply IH].
  - intros [Hc He]. f_equal; [by apply lowerByte_sameLetter | by apply IH].
Qed.

Section WithEnvironment.
Context {env : Environment}.

(** C9.  The switch of [main] looks at the lower-cased extension of
    the source path: every case variant of [.jpg] or [.jpeg] takes the
    picture branch, every case variant of [.mp4] the film branch, and
    any other extension ends the run with "Unrecognized extension". *)
Theorem extension_decides_kind (source target : string) :
  (EqualFold (Ext source) ".jpg" = true ∨ EqualFold (Ext source) ".jpeg" = true →
     switch source target = jpgCase source target)
  ∧ (EqualFold (Ext source) ".mp4" = true →
       switch source target = mp4Case source target)
  ∧ (EqualFold (Ext source) ".jpg" = false → EqualFold (Ext source) ".jpeg" = false →
     EqualFold (Ext source) ".mp4" = false →
       switch source target
       = errorFatal ("Unrecognized extension: " +:+ ToLower (Ext source)) None None).
Proof.
  unfold switch. cbv zeta. repeat split.
  - intros [H | H]; apply ToLower_EqualFold in H; try done; rewrite H; done.
  - intros H. apply ToLower_EqualFold in H; [| done]. by rewrite H.
  - intros H1 H2 H3.
    assert (ToLower (Ext source) ≠ ".jpg") as N1.
    { intros E. apply ToLower_EqualFold in E; [congruence | done]. }
    assert (ToLower (Ext source) ≠ ".jpeg") as N2.
    { intros E. apply ToLower_EqualFold in E; [congruence | done]. }
    assert (ToLower (Ext source) ≠ ".mp4") as N3.
    { intros E. apply ToLower_EqualFold in E; [congruence | done]. }
    by rewrite !bool_decide_eq_false_2.
Qed.

End WithEnvironment.

Lemma extension_decides_kind_witness :
  (EqualFold (Ext "/dcim/IMG_001.JpG") ".jpg" = true
   ∧ @switch (exampleEnvironment UTC) "/dcim/IMG_001.JpG" "/archive"
     = @jpgCase (exampleEnvironment UTC) "/dcim/IMG_001.JpG" "/archive")
  ∧ (EqualFold (Ext "/dcim/clip.MP4") ".mp4" = true
     ∧ @switch (exampleEnvironment UTC) "/dcim/clip.MP4" "/archive"
       = @mp4Case (exampleEnvironment UTC) "/dcim/clip.MP4" "/archive")
  ∧ @switch (exampleEnvironment UTC) "/dcim/sketch.png" "/archive"
    = errorFatal "Unrecognized extension: .png" None None.
Proof.
  split; [| split].
  - split; [reflexivity |].
    apply (@extension_decides_kind (exampleEnvironment UTC)). left. reflexivity.
  - split; [reflexivity |].
    apply (@extension_decides_kind (exampleEnvironment UTC)). reflexivity.
  - apply (@extension_decides_kind (exampleEnvironment UTC) "/dcim/sketch.png" "/archive");
      reflexivity.
Defined.

End Extensions.


(** ** The destination path *)

Module Destination.
Import GoStrings GoErrors Filepath GoTime OS Media Gardepro Spec.
Import StringFacts TimeFacts Runs.

(** C1.  For every valid calendar time there is a time that shows it,
    and for every time that shows it, every root and every source path,
    the directory is [<root>/<year>] with the year in four digits and
    the destination is
    [<root>/<year>/<month>-<day>-<hour>:<minute>:<second>-<basename>]
    with two digits for each of the other fields.  The base name is the
    name of the source file, extension included, wherever the file
    lies. *)
Theorem destination_layout (y mo d h mi s : Z) :
  validCalendar y mo d h mi s →
  shows (Date y mo d h mi s) y mo d h mi s
  ∧ ∀ (when : Time) (root source : string),
      shows when y mo d h mi s →
      targetDir root when = root +:+ "/" +:+ fourDigits y
      ∧ targetPath root when source
        = root +:+ "/" +:+ fourDigits y +:+ "/" +:+ twoDigits mo +:+ "-"
          +:+ twoDigits d +:+ "-" +:+ twoDigits h +:+ ":" +:+ twoDigits mi +:+ ":"
          +:+ twoDigits s +:+ "-" +:+ Base source
      ∧ String.length (fourDigits y) = 4%nat
      ∧ ∀ dir base, base ≠ "" → hasSeparator base = false →
          Base base = base ∧ Base (dir +:+ "/" +:+ base) = base.
Proof.
  intros (Hy & Hmo & Hd & Hh & Hmi & Hs). split; [by apply Date_shows |].
  intros when root source (Ey & Emo & Ed & Eh & Emi & Es).
  unfold targetDir, targetPath.
  rewrite Format_targetDirFmt, Format_fileDateStubFmt.
  rewrite Ey, Emo, Ed, Eh, Emi, Es.
  pose proof (daysIn_le_31 mo y).
  rewrite appendInt_fourDigits by lia.
  rewrite !appendInt_twoDigits by lia.
  split_and!; [done | by rewrite !append_assoc | done |].
  intros dir base Hne Hsep. split; [by apply Base_plain | by apply Base_in_directory].
Qed.

Lemma destination_layout_witness :
  validCalendar 2023 6 15 14 30 5
  ∧ Parse "2006:01:02 15:04:05" "2023:06:15 14:30:05" = Ok (Date 2023 6 15 14 30 5)
  ∧ targetDir "/archive" (Date 2023 6 15 14 30 5) = "/archive/2023"
  ∧ targetPath "/archive" (Date 2023 6 15 14 30 5) "IMG_001.JPG"
    = "/archive/2023/06-15-14:30:05-IMG_001.JPG"
  ∧ targetPath "/archive" (Date 2023 6 15 14 30 5) "/dcim/100MEDIA/IMG_001.JPG"
    = "/archive/2023/06-15-14:30:05-IMG_001.JPG".
Proof.
  assert (validCalendar 2023 6 15 14 30 5) as Hvalid.
  { unfold validCalendar. change (daysIn 6 2023) with 30. lia. }
  destruct (destination_layout 2023 6 15 14 30 5 Hvalid) as [Hshows Hpath].
  destruct (Hpath (Date 2023 6 15 14 30 5) "/archive" "IMG_001.JPG" Hshows)
    as (Hdir & Hplain & _).
  destruct (Hpath (Date 2023 6 15 14 30 5) "/archive" "/dcim/100MEDIA/IMG_001.JPG" Hshows)
    as (_ & Hdeep & _).
  split_and!; [exact Hvalid | reflexivity | | |].
  - rewrite Hdir. reflexivity.
  - rewrite Hplain. reflexivity.
  - rewrite Hdeep. reflexivity.
Defined.

(** C4.  The directory and the destination path depend on nothing but
    the root, what the time shows, and the base name of the source: two
    times that show the same calendar time, in whatever zone, and two
    sources with the same base name give the same paths.  And whenever
    the switch of [main] comes through, in any world and with any
    decoders, the two paths it hands on are [targetDir] and [targetPath]
    of the root, a time, and the source. *)
Theorem destination_determined :
  (∀ root when1 when2 source1 source2,
      shows when2 (Year when1) (Month when1) (Day when1)
            (Hour when1) (Minute when1) (Sec when1) →
      Base source1 = Base source2 →
      targetDir root when1 = targetDir root when2
      ∧ targetPath root when1 source1 = targetPath root when2 source2)
  ∧ (∀ (env : Environment) source target w d p w',
        @switch env source target w = (Done (d, p), w') →
        ∃ when, d = targetDir target when ∧ p = targetPath target when source).
Proof.
  split.
  - intros root when1 when2 source1 source2 (Ey & Emo & Ed & Eh & Emi & Es) Hb.
    unfold targetDir, targetPath.
    rewrite !Format_targetDirFmt, !Format_fileDateStubFmt.
    by rewrite Ey, Emo, Ed, Eh, Emi, Es, Hb.
  - intros env. apply @switch_paths.
Qed.

Lemma destination_determined_witness :
  targetPath "/archive" (Date 2023 6 15 14 30 5) "/dcim/IMG_001.JPG"
  = targetPath "/archive" (mkTime (unix (Date 2023 6 15 14 30 5) + 18000) (λ _, -18000))
      "/card2/IMG_001.JPG"
  ∧ ∃ when,
      "/archive/2023" = targetDir "/archive" when
      ∧ "/archive/2023/06-15-14:30:05-IMG_001.JPG"
        = targetPath "/archive" when "/dcim/IMG_001.JPG".
Proof.
  destruct destination_determined as [Hsame Hswitch]. split.
  - apply Hsame; [| reflexivity]. repeat split; vm_compute; reflexivity.
  - apply (Hswitch (exampleEnvironment UTC) "/dcim/IMG_001.JPG" "/archive"
             (start exampleFiles) _ _
             ((@switch (exampleEnvironment UTC) "/dcim/IMG_001.JPG" "/archive"
                 (start exampleFiles)).2)).
    vm_compute. reflexivity.
Defined.

Section WithEnvironment.
Context {env : Environment}.

(** C5.  The time of a film is the first of January 1904, 00:00:00
    UTC, that is 2082844800 seconds before the Unix epoch, plus the
    seconds in the 32-bit field [CreationTimeV0] of its [mvhd] box,
    shown in the local time zone; the year it shows there names the
    directory.  The film branch of the switch hands on the paths made
    from that time. *)
Theorem mvhd_creation_time (v : Z) :
  0 ≤ v < 2 ^ 32 →
  unix (Date 1904 1 1 0 0 0) = -2082844800
  ∧ unix (mvhdTime v) = unix (Date 1904 1 1 0 0 0) + v
  ∧ loc (mvhdTime v) = localTimeZone
  ∧ abs (mvhdTime v) = -2082844800 + v + localTimeZone (-2082844800 + v)
  ∧ (∀ target, targetDir target (mvhdTime v)
               = target +:+ "/" +:+ appendInt (Year (mvhdTime v)) 4)
  ∧ (∀ source target bytes w,
       files w !! source = Some (File bytes) →
       ExtractBoxWithPayload bytes = Ok [mkBox (Mvhd v)] →
       mp4Case source target w
       = (Done (targetDir target (mvhdTime v), targetPath target (mvhdTime v) source),
          record (ReadCall source) (record (OpenCall source) w))).
Proof.
  intros Hv. pose proof (mvhdTime_unix v Hv) as Hu.
  assert (unix (Date 1904 1 1 0 0 0) = -2082844800) as He by reflexivity.
  repeat split; try done.
  - unfold abs. rewrite Hu, He. done.
  - intros target. unfold targetDir. by rewrite Format_targetDirFmt.
  - intros source target bytes w Hf Hx.
    unfold mp4Case, MP4getMetadata, bind, open, read, Open, Read, ret. cbn.
    rewrite Hf. cbn. rewrite Hf. cbn. rewrite Hx. done.
Qed.

End WithEnvironment.

Lemma mvhd_creation_time_witness :
  0 ≤ 3786912345 < 2 ^ 32
  ∧ abs (@mvhdTime (exampleEnvironment UTC) 3786912345) = 1704067545
  ∧ targetDir "/archive" (@mvhdTime (exampleEnvironment UTC) 3786912345) = "/archive/2024"
  ∧ targetPath "/archive" (@mvhdTime (exampleEnvironment UTC) 3786912345) "/dcim/clip.MP4"
    = "/archive/2024/01-01-00:05:45-clip.MP4"
  ∧ targetDir "/archive" (@mvhdTime (exampleEnvironment (λ _, -18000)) 3786912345)
    = "/archive/2023"
  ∧ targetPath "/archive" (@mvhdTime (exampleEnvironment (λ _, -18000)) 3786912345)
      "/dcim/clip.MP4"
    = "/archive/2023/12-31-19:05:45-clip.MP4".
Proof.
  assert (0 ≤ 3786912345 < 2 ^ 32) as Hv by (split; vm_compute; congruence).
  split; [exact Hv |].
  destruct (@mvhd_creation_time (exampleEnvironment UTC) 3786912345 Hv)
    as (_ & _ & _ & Habs & Hdir & _).
  destruct (@mvhd_creation_time (exampleEnvironment (λ _, -18000)) 3786912345 Hv)
    as (_ & _ & _ & _ & Hdir' & _).
  split; [rewrite Habs; reflexivity |].
  split; [rewrite Hdir; vm_compute; reflexivity |].
  split; [vm_compute; reflexivity |].
  split; [rewrite Hdir'; vm_compute; reflexivity |].
  vm_compute; reflexivity.
Defined.

End Destination.

(** ** The directory of the year *)

Module Directory.
Import GoStrings GoErrors Filepath GoTime OS Media Gardepro Spec.

(** C8, as the code has it.  [checkTargetDir] makes the directory when
    nothing is at the path and the directory above it exists, and
    succeeds.  When nothing is at the path and the directory above is
    missing too, [os.Mkdir] fails and the error "make target dir" comes
    back; below a regular file the error is "stat target dir".  When
    a regular file is at the path the error is "target dir is not a
    directory".  When a directory is there already it succeeds after
    the one call to [os.Stat].  No failing case changes a file. *)
Theorem checkTargetDir_cases (path : string) (w : World) :
  (files w !! path = None → files w !! parent path = Some Dir →
     checkTargetDir path w
     = (Done None,
        record (MkdirCall path)
          (withFiles (<[path := Dir]> (files w)) (record (StatCall path) w))))
  ∧ (files w !! path = None → files w !! parent path = None →
       checkTargetDir path w
       = (Done (Some (Wrapped "make target dir" (SyscallError ENOENT))),
          record (MkdirCall path) (record (StatCall path) w)))
  ∧ (∀ content, files w !! path = None → files w !! parent path = Some (File content) →
       checkTargetDir path w
       = (Done (Some (Wrapped "stat target dir" (SyscallError ENOTDIR))),
          record (StatCall path) w))
  ∧ (∀ content, files w !! path = Some (File content) →
       checkTargetDir path w
       = (Done (Some (ErrorString "target dir is not a directory")),
          record (StatCall path) w))
  ∧ (files w !! path = Some Dir →
       checkTargetDir path w = (Done None, record (StatCall path) w)).
Proof.
  unfold checkTargetDir, bind, stat, mkdir, Stat, Mkdir, mayCreate, ret.
  split_and!.
  - intros Hp Hd. cbn. rewrite Hp, Hd. cbn. rewrite Hp, Hd. reflexivity.
  - intros Hp Hd. cbn. rewrite Hp, Hd. cbn. rewrite Hp, Hd. reflexivity.
  - intros c Hp Hd. cbn. rewrite Hp, Hd. reflexivity.
  - intros c Hp. cbn. rewrite Hp. reflexivity.
  - intros Hp. cbn. rewrite Hp. reflexivity.
Qed.

Lemma checkTargetDir_cases_witness :
  checkTargetDir "/archive/2023" (start exampleFiles)
  = (Done None,
     record (MkdirCall "/archive/2023")
       (withFiles (<["/archive/2023" := Dir]> exampleFiles)
          (record (StatCall "/archive/2023") (start exampleFiles))))
  ∧ checkTargetDir "/nowhere/2023" (start exampleFiles)
    = (Done (Some (Wrapped "make target dir" (SyscallError ENOENT))),
       record (MkdirCall "/nowhere/2023")
         (record (StatCall "/nowhere/2023") (start exampleFiles)))
  ∧ checkTargetDir "/dcim/sketch.png/2023" (start exampleFiles)
    = (Done (Some (Wrapped "stat target dir" (SyscallError ENOTDIR))),
       record (StatCall "/dcim/sketch.png/2023") (start exampleFiles))
  ∧ checkTargetDir "/dcim/sketch.png" (start exampleFiles)
    = (Done (Some (ErrorString "target dir is not a directory")),
       record (StatCall "/dcim/sketch.png") (start exampleFiles))
  ∧ checkTargetDir "/archive" (start exampleFiles)
    = (Done None, record (StatCall "/archive") (start exampleFiles)).
Proof.
  split_and!.
  - apply (checkTargetDir_cases "/archive/2023" (start exampleFiles));
      vm_compute; reflexivity.
  - apply (checkTargetDir_cases "/nowhere/2023" (start exampleFiles));
      vm_compute; reflexivity.
  - apply (checkTargetDir_cases "/dcim/sketch.png/2023" (start exampleFiles))
      with (content := list_byte_of_string "png"); vm_compute; reflexivity.
  - apply (checkTargetDir_cases "/dcim/sketch.png" (start exampleFiles))
      with (content := list_byte_of_string "png"); vm_compute; reflexivity.
  - apply (checkTargetDir_cases "/archive" (start exampleFiles)); vm_compute; reflexivity.
Defined.

(** C8 as stated fails: nothing is at [/nowhere/2023], yet the
    directory is not made and an error comes back, because [/nowhere]
    does not exist. *)
Lemma checkTargetDir_missing_parent :
  let run := checkTargetDir "/nowhere/2023" (start exampleFiles) in
  exampleFiles !! "/nowhere/2023" = None
  ∧ run.1 = Done (Some (Wrapped "make target dir" (SyscallError ENOENT)))
  ∧ files run.2 !! "/nowhere/2023" = None.
Proof. cbv zeta. split_and!; vm_compute; reflexivity. Qed.

End Directory.

(** ** Placing the file *)

Module Placement.
Import GoStrings GoErrors Filepath GoTime OS Media Gardepro Spec Runs.

(** C2.  When source and target are regular files with different
    contents, [copySourceToTarget] returns the error "pre-existing file
    not identical"; it has looked at the target, opened and read both
    files, and nothing else: every file is as it was.  [main] hands that
    error to [errorFatal], which ends the process. *)
Theorem conflict_rejected (source target : string) (extra : Event → Event)
    (s d : list Byte.byte) (w : World) :
  files w !! source = Some (File s) →
  files w !! target = Some (File d) →
  s ≠ d →
  ∃ w',
    copySourceToTarget source target extra w
    = (Done (Some (ErrorString "pre-existing file not identical")), w')
    ∧ files w' = files w
    ∧ trace w' = (trace w ++ [StatCall target; OpenCall source; OpenCall target;
                              ReadCall source; ReadCall target])%list
    ∧ ∀ A extraFn (w2 : World),
        (@errorFatal A "Copy source file to target directory"
           (Some (ErrorString "pre-existing file not identical")) extraFn w2).1
        = Fatal "Copy source file to target directory"
                (Some (ErrorString "pre-existing file not identical")).
Proof.
  intros Hs Hd Hne. eexists. split_and!.
  - unfold copySourceToTarget, compareFile, bind, stat, open, read, Stat, Open, Read, ret.
    cbn. rewrite Hd. cbn. rewrite Hs. cbn. rewrite Hd. cbn. rewrite Hs, Hd. cbn.
    rewrite bool_decide_eq_false_2 by done. reflexivity.
  - reflexivity.
  - cbn. rewrite <- !app_assoc. reflexivity.
  - intros A extraFn w2. by rewrite errorFatal_run.
Qed.

Lemma conflict_rejected_witness :
  ∃ w',
    copySourceToTarget "/dcim/IMG_001.JPG" "/dcim/sketch.png" id (start exampleFiles)
    = (Done (Some (ErrorString "pre-existing file not identical")), w')
    ∧ files w' = exampleFiles
    ∧ trace w' = [StatCall "/dcim/sketch.png"; OpenCall "/dcim/IMG_001.JPG";
                  OpenCall "/dcim/sketch.png"; ReadCall "/dcim/IMG_001.JPG";
                  ReadCall "/dcim/sketch.png"].
Proof.
  destruct (conflict_rejected "/dcim/IMG_001.JPG" "/dcim/sketch.png" id
              (list_byte_of_string "2023:06:15 14:30:05") (list_byte_of_string "png")
              (start exampleFiles))
    as (w' & Hrun & Hfiles & Htrace & _).
  - vm_compute. reflexivity.
  - vm_compute. reflexivity.
  - vm_compute. discriminate.
  - exists w'. split_and!; done.
Defined.

(** C3.  Placing twice.  The source is a regular file, nothing is at
    the target, the directory of the target exists (as after
    [checkTargetDir]), and the log does not go to the source or the
    target.  Then the first [copySourceToTarget] creates the target,
    writes the content of the source to it once and logs "Copied file";
    the second finds the files identical, logs "Skipping pre-existing
    identical file" and writes nothing to the target.  Both return no
    error, and over the two runs the target is written exactly once. *)
Theorem placing_twice (source target : string) (extra : Event → Event)
    (s : list Byte.byte) (w : World) :
  files w !! source = Some (File s) →
  files w !! target = None →
  files w !! parent target = Some Dir →
  out (logger w) ≠ LogFile source →
  out (logger w) ≠ LogFile target →
  ∃ w1 w2,
    copySourceToTarget source target extra w = (Done None, w1)
    ∧ copySourceToTarget source target extra w1 = (Done None, w2)
    ∧ trace w1
      = (trace w ++ [StatCall target; OpenCall source; CreateCall target;
                     ReadCall source; WriteCall target s]
           ++ logCalls w InfoLevel (extra []) "Copied file")%list
    ∧ trace w2
      = (trace w1 ++ [StatCall target; OpenCall source; OpenCall target;
                      ReadCall source; ReadCall target]
           ++ logCalls w InfoLevel (extra []) "Skipping pre-existing identical file")%list
    ∧ files w1 !! target = Some (File s)
    ∧ files w2 !! target = Some (File s)
    ∧ files w2 !! source = Some (File s)
    ∧ writesTo target (callsSince w w1) = 1%nat
    ∧ writesTo target (callsSince w1 w2) = 0%nat
    ∧ writesTo target (callsSince w w2) = 1%nat.
Proof.
  intros Hs Ht Hp Hls Hlt.
  assert (source ≠ target) as Hst by congruence.
  set (fs1 := <[target := File s]> (files w)).
  set (wa := mkWorld fs1 (logger w)
               (trace w ++ [StatCall target; OpenCall source; CreateCall target;
                            ReadCall source; WriteCall target s])).
  assert (copySourceToTarget source target extra w
          = (Done None, logged wa InfoLevel (extra []) "Copied file")) as Hrun1.
  { unfold copySourceToTarget, copyFile, bind, stat, open, create, read, write,
      Stat, Open, Create, mayCreate, Read, appendTo, ret.
    cbn -[Msg]. rewrite Ht, Hp. cbn -[Msg]. rewrite Hs. cbn -[Msg].
    rewrite Ht, Hp. cbn -[Msg].
    rewrite lookup_insert_ne by done. rewrite Hs. cbn -[Msg].
    rewrite lookup_insert_eq. rewrite insert_insert_eq.
    rewrite Msg_run. unfold wa, fs1, record, withFiles. cbn.
    rewrite <- !app_assoc. reflexivity. }
  set (w1 := logged wa InfoLevel (extra []) "Copied file") in *.
  assert (files w1 !! target = Some (File s)) as Ht1.
  { unfold w1. rewrite logged_files by done. cbn. unfold fs1. apply lookup_insert_eq. }
  assert (files w1 !! source = Some (File s)) as Hs1.
  { unfold w1. rewrite logged_files by done. cbn. unfold fs1.
    by rewrite lookup_insert_ne. }
  assert (logger w1 = logger w) as Hl1 by (unfold w1; by rewrite logged_logger).
  set (wb := mkWorld (files w1) (logger w1)
               (trace w1 ++ [StatCall target; OpenCall source; OpenCall target;
                             ReadCall source; ReadCall target])).
  assert (copySourceToTarget source target extra w1
          = (Done None, logged wb InfoLevel (extra []) "Skipping pre-existing identical file"))
    as Hrun2.
  { unfold copySourceToTarget, compareFile, bind, stat, open, read, Stat, Open, Read, ret.
    cbn -[Msg]. rewrite Ht1. cbn -[Msg]. rewrite Hs1. cbn -[Msg]. rewrite Ht1.
    cbn -[Msg]. rewrite Hs1, Ht1. cbn -[Msg].
    rewrite bool_decide_eq_true_2 by done.
    rewrite Msg_run. unfold wb, record. cbn. rewrite <- !app_assoc. reflexivity. }
  set (w2 := logged wb InfoLevel (extra []) "Skipping pre-existing identical file") in *.
  assert (trace w1
          = (trace w ++ [StatCall target; OpenCall source; CreateCall target;
                         ReadCall source; WriteCall target s]
               ++ logCalls w InfoLevel (extra []) "Copied file")%list) as Htr1.
  { unfold w1. rewrite logged_trace. cbn. by rewrite <- app_assoc. }
  assert (trace w2
          = (trace w1 ++ [StatCall target; OpenCall source; OpenCall target;
                          ReadCall source; ReadCall target]
               ++ logCalls w InfoLevel (extra []) "Skipping pre-existing identical file")%list)
    as Htr2.
  { unfold w2. rewrite logged_trace. cbn.
    unfold logCalls. cbn. rewrite Hl1. by rewrite <- app_assoc. }
  assert (∀ l e m, writesTo target (logCalls w l e m) = 0%nat) as Hlog.
  { intros l e m. unfold logCalls, writesTo.
    destruct (out (logger w)) as [| path] eqn:Ho; cbn; [done |].
    rewrite bool_decide_eq_false_2 by congruence. done. }
  assert (∀ a b, writesTo target (a ++ b) = (writesTo target a + writesTo target b)%nat)
    as Happ.
  { intros a b. unfold writesTo. by rewrite List.filter_app, length_app. }
  exists w1, w2. split_and!; try done.
  - unfold w2. rewrite logged_files by (cbn; by rewrite Hl1). exact Ht1.
  - unfold w2. rewrite logged_files by (cbn; by rewrite Hl1). exact Hs1.
  - unfold callsSince. rewrite Htr1, drop_app_length, Happ, Hlog.
    unfold writesTo. cbn. by rewrite bool_decide_eq_true_2.
  - unfold callsSince. rewrite Htr2, drop_app_length, Happ, Hlog. reflexivity.
  - unfold callsSince. rewrite Htr2, Htr1, <- app_assoc, drop_app_length.
    rewrite !Happ, !Hlog. unfold writesTo. cbn. by rewrite bool_decide_eq_true_2.
Qed.

Lemma placing_twice_witness :
  ∃ w1 w2,
    copySourceToTarget "/dcim/IMG_001.JPG" "/archive/IMG_001.JPG" id (start exampleFiles)
    = (Done None, w1)
    ∧ copySourceToTarget "/dcim/IMG_001.JPG" "/archive/IMG_001.JPG" id w1 = (Done None, w2)
    ∧ files w2 !! "/archive/IMG_001.JPG"
      = Some (File (list_byte_of_string "2023:06:15 14:30:05"))
    ∧ writesTo "/archive/IMG_001.JPG" (callsSince (start exampleFiles) w2) = 1%nat.
Proof.
  destruct (placing_twice "/dcim/IMG_001.JPG" "/archive/IMG_001.JPG" id
              (list_byte_of_string "2023:06:15 14:30:05") (start exampleFiles))
    as (w1 & w2 & H1 & H2 & _ & _ & _ & H6 & _ & _ & _ & H10).
  - vm_compute. reflexivity.
  - vm_compute. reflexivity.
  - vm_compute. reflexivity.
  - discriminate.
  - discriminate.
  - exists w1, w2. split_and!; done.
Defined.

End Placement.


(** ** Computations that only extend the file system *)

Module RunFacts.
Import GoStrings GoErrors Filepath GoTime OS Media Gardepro Spec.
Import StringFacts TimeFacts Runs.

(** [main] is its three parts one after the other. *)
Lemma main_parts {env : Environment} console logFile source target :
  main console logFile source target
  = if bool_decide (source = "") || bool_decide (target = "") then
      dialog "Error parsing command line flags"
             "Missing command line flag -source or -target"
    else
      let* logging := openLog console logFile in
      if negb logging then ret tt else afterLog source (TrimSuffix target "/").
Proof. reflexivity. Qed.

(** *** Extending the file system *)

Lemma extends_refl sink fs : extends sink fs fs.
Proof. intros p n Hp. by left. Qed.

Lemma extends_trans sink a b c :
  extends sink a b → extends sink b c → extends sink a c.
Proof.
  intros Hab Hbc p n Hp.
  destruct (Hab p n Hp) as [Hb | (Hs & x & more & -> & Hb)].
  - apply (Hbc p n Hb).
  - destruct (Hbc p _ Hb) as [Hc | (_ & y & more' & [= <-] & Hc)].
    + right. split; [done |]. by exists x, more.
    + right. split; [done |]. exists x, (more ++ more')%list.
      split; [done |]. by rewrite app_assoc.
Qed.

Lemma extends_insert_new sink fs p n :
  fs !! p = None → extends sink fs (<[p := n]> fs).
Proof.
  intros Hp q m Hq. left. rewrite lookup_insert_ne; [done |]. congruence.
Qed.

Lemma extends_appendTo sink fs path data :
  sink = LogFile path → extends sink fs (appendTo fs path data).
Proof.
  intros -> p n Hp. unfold appendTo.
  destruct (decide (p = path)) as [-> | Hne].
  - rewrite Hp. destruct n as [c |]; [| by left].
    right. split; [done |]. exists c, data. by rewrite lookup_insert_eq.
  - left. destruct (fs !! path) as [[c |] |]; try done.
    by rewrite lookup_insert_ne.
Qed.

(** *** Orderly computations *)

Lemma orderly_ret {A} (a : A) : orderly (ret a).
Proof. intros w. split; [done | apply extends_refl]. Qed.

Lemma orderly_exit {A} message err : orderly (@exit A message err).
Proof. intros w. split; [done | apply extends_refl]. Qed.

Lemma orderlyAt_bind {A B} (m : M A) (k : A → M B) (w : World) :
  orderlyAt w m → (∀ a, orderly (k a)) → orderlyAt w (bind m k).
Proof.
  intros [Hs1 He1] Hk. unfold orderlyAt, bind in *.
  destruct (m w) as [[a | message err] w1]; cbn in *; [| done].
  destruct (Hk a w1) as [Hs2 He2]. split; [congruence |].
  eapply extends_trans; [done |]. by rewrite <- Hs1.
Qed.

Lemma orderlyAt_after {A B} (m : M A) (k : A → M B) (w w1 : World) (a : A) :
  m w = (Done a, w1) → files w1 = files w → logger w1 = logger w →
  orderlyAt w1 (k a) → orderlyAt w (bind m k).
Proof.
  intros Hm Hf Hl [Hs He]. unfold orderlyAt, bind. rewrite Hm.
  rewrite Hf, Hl in *. done.
Qed.

Lemma orderly_bind {A B} (m : M A) (k : A → M B) :
  orderly m → (∀ a, orderly (k a)) → orderly (bind m k).
Proof. intros Hm Hk w. by apply orderlyAt_bind. Qed.

Lemma orderly_stat path : orderly (stat path).
Proof. intros w. split; [done | apply extends_refl]. Qed.

Lemma orderly_open path : orderly (open path).
Proof. intros w. split; [done | apply extends_refl]. Qed.

Lemma orderly_read path : orderly (read path).
Proof. intros w. split; [done | apply extends_refl]. Qed.

Lemma orderly_dialog title message : orderly (dialog title message).
Proof. intros w. split; [done | apply extends_refl]. Qed.

Lemma orderly_addContext key val : orderly (addContext key val).
Proof. intros w. split; [done | apply extends_refl]. Qed.

Lemma orderly_mkdir path : orderly (mkdir path).
Proof.
  intros w. unfold orderlyAt, mkdir, Mkdir, mayCreate.
  destruct (files w !! path) as [n |] eqn:Hp; cbn; [split; [done | apply extends_refl] |].
  destruct (files w !! parent path) as [[c |] |]; cbn;
    (split; [done |]); try apply extends_refl.
  by apply extends_insert_new.
Qed.

Lemma orderly_Msg l e message : orderly (Msg l e message).
Proof.
  intros w. unfold orderlyAt. rewrite Msg_run. unfold logged.
  destruct (out (logger w)) as [| path] eqn:Ho; cbn; (split; [done |]).
  - apply extends_refl.
  - by apply extends_appendTo.
Qed.

Lemma orderly_errorFatal {A} message err extra : orderly (@errorFatal A message err extra).
Proof.
  unfold errorFatal.
  apply orderly_bind; [apply orderly_dialog | intros _].
  apply orderly_bind; [apply orderly_Msg | intros _]. apply orderly_exit.
Qed.

Lemma orderly_checkTargetDir path : orderly (checkTargetDir path).
Proof.
  unfold checkTargetDir. apply orderly_bind; [apply orderly_stat |].
  intros [info | err].
  - destruct (negb (IsDir info)); apply orderly_ret.
  - destruct (IsNotExist err); [| apply orderly_ret].
    apply orderly_bind; [apply orderly_mkdir |]. intros [e |]; apply orderly_ret.
Qed.

Lemma orderly_compareFile a b : orderly (compareFile a b).
Proof.
  unfold compareFile. apply orderly_bind; [apply orderly_open |].
  intros [e |]; [apply orderly_ret |].
  apply orderly_bind; [apply orderly_open |].
  intros [e |]; [apply orderly_ret |].
  apply orderly_bind; [apply orderly_read | intros c1].
  apply orderly_bind; [apply orderly_read | intros c2].
  destruct c1, c2; apply orderly_ret.
Qed.

(** Copying to a path where nothing is adds an entry and changes no
    other. *)
Lemma orderlyAt_copyFile source target w :
  files w !! target = None → orderlyAt w (copyFile source target).
Proof.
  intros Ht. unfold orderlyAt, copyFile, bind, open, create, read, write,
    Open, Create, mayCreate, Read, appendTo, ret.
  cbn. destruct (files w !! source) as [ns |] eqn:Hs; cbn.
  - rewrite Ht. destruct (files w !! parent target) as [[c |] |]; cbn;
      try (split; [done | apply extends_refl]).
    assert (source ≠ target) as Hne by congruence.
    rewrite lookup_insert_ne by done. rewrite Hs.
    destruct ns as [c |]; cbn.
    + rewrite lookup_insert_eq, insert_insert_eq. split; [done |].
      by apply extends_insert_new.
    + split; [done |]. by apply extends_insert_new.
  - destruct (files w !! parent source) as [[c |] |]; cbn;
      (split; [done | apply extends_refl]).
Qed.

Lemma Stat_error fs path err : Stat fs path = Err err → fs !! path = None.
Proof. unfold Stat. by destruct (fs !! path) as [[c |] |]. Qed.

(** [copySourceToTarget] is orderly: it never changes what is there. *)
Lemma orderly_copySourceToTarget source target extra :
  orderly (copySourceToTarget source target extra).
Proof.
  intros w. unfold copySourceToTarget.
  assert (∀ r, orderly (match r with
                        | Ok true =>
                            Msg InfoLevel (extra []) "Skipping pre-existing identical file";;
                            ret None
                        | Ok false => ret (Some (ErrorString "pre-existing file not identical"))
                        | Err err => ret (Some (Wrapped "compare files" err))
                        end)) as Hcmp.
  { intros [[|] | e]; try apply orderly_ret.
    apply orderly_bind; [apply orderly_Msg | intros _; apply orderly_ret]. }
  assert (∀ e, orderly (match e with
                        | Some err => ret (Some (Wrapped "copy file" err))
                        | None => Msg InfoLevel (extra []) "Copied file";; ret None
                        end)) as Hcopied.
  { intros [e |]; [apply orderly_ret |].
    apply orderly_bind; [apply orderly_Msg | intros _; apply orderly_ret]. }
  apply (orderlyAt_after _ _ w (record (StatCall target) w) (Stat (files w) target));
    [done | done | done |].
  destruct (Stat (files w) target) as [info | err] eqn:Hstat.
  - by apply orderly_bind; [apply orderly_compareFile |].
  - destruct (IsNotExist err); [| apply orderly_ret].
    apply Stat_error in Hstat.
    apply orderlyAt_bind; [| exact Hcopied]. by apply orderlyAt_copyFile.
Qed.

Section Orderly.
Context {env : Environment}.

Lemma orderly_logTags tags : orderly (logTags tags).
Proof.
  induction tags as [|t tags IH]; cbn [logTags]; [apply orderly_ret |].
  apply orderly_bind; [apply orderly_Msg | by intros _].
Qed.

Lemma orderly_EXIFenumerateIndex index : orderly (EXIFenumerateIndex index).
Proof.
  unfold EXIFenumerateIndex.
  apply orderly_bind; [apply orderly_logTags | intros _; apply orderly_ret].
Qed.

Lemma orderly_readFile path : orderly (readFile path).
Proof.
  unfold readFile. apply orderly_bind; [apply orderly_open |].
  intros [e |]; [apply orderly_ret | apply orderly_read].
Qed.

Lemma orderly_EXIFgetIndex path : orderly (EXIFgetIndex path).
Proof.
  unfold EXIFgetIndex. apply orderly_bind; [apply orderly_readFile |].
  intros r. repeat case_match; apply orderly_ret.
Qed.

Lemma orderly_EXIFgetValue index tagName tagID :
  orderly (EXIFgetValue index tagName tagID).
Proof.
  unfold EXIFgetValue. cbv zeta. case_match.
  - repeat case_match; apply orderly_ret.
  - apply orderly_bind; [apply orderly_Msg | intros _].
    apply orderly_bind; [apply orderly_EXIFenumerateIndex | intros r].
    apply orderly_bind; [| intros _; apply orderly_ret].
    destruct r; [apply orderly_Msg | apply orderly_ret].
Qed.

Lemma orderly_MP4getMetadata path : orderly (MP4getMetadata path).
Proof.
  unfold MP4getMetadata. apply orderly_bind; [apply orderly_open |].
  intros [e |]; [apply orderly_ret |].
  apply orderly_bind; [apply orderly_read |]. intros [b | e]; apply orderly_ret.
Qed.

Lemma orderly_switch source target : orderly (switch source target).
Proof.
  unfold switch. cbv zeta. repeat case_match.
  - unfold jpgCase. apply orderly_bind; [apply orderly_EXIFgetIndex |].
    intros [index | e]; [| apply orderly_errorFatal].
    apply orderly_bind; [apply orderly_EXIFgetValue |].
    intros r. repeat case_match; try apply orderly_errorFatal. apply orderly_ret.
  - unfold mp4Case. apply orderly_bind; [apply orderly_MP4getMetadata |].
    intros r. repeat case_match; try apply orderly_errorFatal. apply orderly_ret.
  - apply orderly_errorFatal.
Qed.

Lemma orderly_afterSwitch source found : orderly (afterSwitch source found).
Proof.
  unfold afterSwitch. cbv zeta.
  apply orderly_bind.
  { repeat case_match; first [apply orderly_errorFatal | apply orderly_ret]. }
  intros _. apply orderly_bind; [apply orderly_checkTargetDir |].
  intros e1. apply orderly_bind.
  { destruct e1; [apply orderly_errorFatal | apply orderly_ret]. }
  intros _. apply orderly_bind; [apply orderly_copySourceToTarget |].
  intros e2. apply orderly_bind; [| intros _; apply orderly_Msg].
  destruct e2; [apply orderly_errorFatal | apply orderly_ret].
Qed.

Lemma orderly_afterLog source target : orderly (afterLog source target).
Proof.
  unfold afterLog.
  apply orderly_bind; [apply orderly_addContext | intros _].
  apply orderly_bind; [apply orderly_addContext | intros _].
  apply orderly_bind; [apply orderly_Msg | intros _].
  apply orderly_bind; [apply orderly_switch | intros found].
  apply orderly_afterSwitch.
Qed.

End Orderly.

(** The log is set up, or the log file cannot be opened and a dialog
    says so; then no file has changed. *)
Lemma openLog_cases {env : Environment} console logFile (w : World) :
  (logOpens console logFile (files w)
   ∧ openLog console logFile w = (Done true, logOpened console logFile w))
  ∨ ∃ err,
      openLog console logFile w
      = (Done false,
         record (DialogError "Log File Creation" (Error err))
           (record (OpenAppendCall logFile) w)).
Proof.
  destruct console.
  - left. split; [by left | by apply openLog_run; left].
  - destruct (OpenAppend (files w) logFile) as [[err |] fs1] eqn:Ho.
    + right. exists err. unfold openLog, bind, openAppend, dialog, ret. rewrite Ho.
      assert (fs1 = files w) as ->.
      { unfold OpenAppend, mayCreate in Ho. repeat case_match; simplify_eq; done. }
      by destruct w.
    + left. assert (logOpens false logFile (files w)) as Hl by (right; by rewrite Ho).
      split; [done | by apply openLog_run].
Qed.

Lemma extends_OpenAppend sink fs path : extends sink fs (OpenAppend fs path).2.
Proof.
  unfold OpenAppend, mayCreate.
  destruct (fs !! path) as [[c |] |] eqn:Hp; cbn; try apply extends_refl.
  destruct (fs !! parent path) as [[c |] |]; cbn; try apply extends_refl.
  by apply extends_insert_new.
Qed.

End RunFacts.

(** ** A run only adds to the file system *)

Module Invariants.
Import GoStrings GoErrors Filepath GoTime OS Media Gardepro Spec.
Import StringFacts TimeFacts Runs RunFacts.

Section WithEnvironment.
Context {env : Environment}.

(** X1.  Whatever the flags, the files and the decoders, a run of [main]
    only adds to the file system: every entry that was there before the
    run is there after it, with the same content.  The one exception is
    the log file when the log does not go to the console: it keeps what
    it held and may have grown at its end.  So [main] never overwrites,
    truncates or removes a file, the log included. *)
Theorem main_only_appends console logFile source target (fs : gmap string Node) p n :
  fs !! p = Some n →
  files (main console logFile source target (start fs)).2 !! p = Some n
  ∨ (console = false ∧ p = logFile
     ∧ ∃ c more, n = File c
         ∧ files (main console logFile source target (start fs)).2 !! p
           = Some (File (c ++ more)%list)).
Proof.
  intros Hp. rewrite main_parts.
  destruct (bool_decide (source = "") || bool_decide (target = "")); [by left |].
  destruct (openLog_cases console logFile (start fs)) as [[Hopen Hrun] | (err & Hrun)].
  - rewrite (bind_done _ _ _ _ _ Hrun). cbn [negb].
    destruct (orderly_afterLog source (TrimSuffix target "/")
                (logOpened console logFile (start fs))) as [_ Hafter].
    assert (extends (out (logger (logOpened console logFile (start fs)))) fs
              (files (logOpened console logFile (start fs)))) as Hlog.
    { unfold logOpened. destruct console; cbn; [apply extends_refl |].
      eapply extends_trans; [apply extends_OpenAppend | by apply extends_appendTo]. }
    destruct (extends_trans _ _ _ _ Hlog Hafter p n Hp) as [H | (Hsink & H)]; [by left |].
    right. unfold logOpened in Hsink. destruct console; cbn in Hsink; [done |].
    injection Hsink as <-. done.
  - rewrite (bind_done _ _ _ _ _ Hrun). by left.
Qed.

End WithEnvironment.

End Invariants.

(** ** Names without separators *)

Module PathFacts.
Import GoStrings GoErrors Filepath GoTime OS Media Gardepro Spec.
Import StringFacts TimeFacts Runs RunFacts.

Lemma hasSeparator_app (a b : string) :
  hasSeparator (a +:+ b) = hasSeparator a || hasSeparator b.
Proof. unfold hasSeparator. by rewrite bytesOf_app, existsb_app. Qed.

Lemma hasSeparator_ofBytes (l : list ascii) :
  hasSeparator (ofBytes l) = existsb IsPathSeparator l.
Proof. unfold hasSeparator. by rewrite bytesOf_ofBytes. Qed.

Lemma digit_no_separator (d : Z) : 0 ≤ d < 10 → IsPathSeparator (digit d) = false.
Proof.
  intros Hd.
  pose proof (all_below (λ k, negb (IsPathSeparator (digit k))) 10 eq_refl d Hd) as H.
  by apply negb_true_iff in H.
Qed.

Lemma decimal_no_separator (fuel : nat) (u : Z) :
  0 ≤ u → existsb IsPathSeparator (decimal fuel u) = false.
Proof.
  revert u. induction fuel as [|f IH]; intros u Hu; cbn [decimal]; [done |].
  destruct (u <? 10) eqn:Hlt.
  - cbn. rewrite digit_no_separator; [done | lia].
  - rewrite existsb_app, IH by (apply Z.div_pos; lia). cbn.
    rewrite digit_no_separator; [done |]. apply Z.mod_pos_bound. lia.
Qed.

Lemma existsb_replicate_zero (n : nat) :
  existsb IsPathSeparator (replicate n "0"%char) = false.
Proof. induction n as [|n IH]; [done |]. cbn. by rewrite IH. Qed.

(** A printed number holds no separator. *)
Lemma appendInt_no_separator (x : Z) (width : nat) :
  hasSeparator (appendInt x width) = false.
Proof.
  unfold appendInt. cbv zeta. rewrite hasSeparator_app, hasSeparator_ofBytes.
  rewrite existsb_app, existsb_replicate_zero.
  unfold digits. rewrite decimal_no_separator by lia.
  by destruct (x <? 0).
Qed.

Lemma lastElement_no_separator_in (back seen : list ascii) :
  existsb IsPathSeparator seen = false →
  existsb IsPathSeparator (lastElement back seen) = false.
Proof.
  revert seen. induction back as [|c back IH]; intros seen Hseen; cbn; [done |].
  destruct (IsPathSeparator c) eqn:Hc; [done |].
  apply IH. cbn. by rewrite Hc.
Qed.

Lemma lastElement_keeps (back seen : list ascii) :
  seen ≠ [] → lastElement back seen ≠ [].
Proof.
  revert seen. induction back as [|c back IH]; intros seen Hseen; cbn; [done |].
  destruct (IsPathSeparator c); [done |]. by apply IH.
Qed.

(** A base name holds no separator, unless the path is made of
    separators only. *)
Lemma Base_no_separator (path : string) :
  Base path = "/" ∨ hasSeparator (Base path) = false.
Proof.
  unfold Base. case_bool_decide; [by right |]. cbv zeta.
  case_bool_decide; [by left |]. right.
  rewrite hasSeparator_ofBytes. by apply lastElement_no_separator_in.
Qed.

(** A path with an extension has a base name that is not the bare
    separator. *)
Lemma Ext_Base (path : string) : Ext path ≠ "" → hasSeparator (Base path) = false.
Proof.
  intros Hext. unfold Ext, Base in *.
  destruct (reverse (bytesOf path)) as [|c more] eqn:Hrev; [done |].
  cbn [extLoop] in Hext.
  destruct (IsPathSeparator c) eqn:Hc; [done |].
  rewrite bool_decide_eq_false_2.
  2:{ intros ->. done. }
  cbv zeta. cbn [stripSeparators]. rewrite Hc. cbn [lastElement]. rewrite Hc.
  rewrite bool_decide_eq_false_2 by (by apply lastElement_keeps).
  rewrite hasSeparator_ofBytes. apply lastElement_no_separator_in. cbn. by rewrite Hc.
Qed.

Lemma afterLastSeparator_until (l rest : list ascii) :
  existsb IsPathSeparator l = false →
  afterLastSeparator (l ++ "/"%char :: rest) = rest.
Proof.
  induction l as [|x l IH]; cbn; [done |].
  rewrite orb_false_iff. intros [-> Hl]. by apply IH.
Qed.

(** The directory of [a/r], for a name [r] without separator, is [a]. *)
Lemma parent_join (a r : string) :
  a ≠ "" → hasSeparator r = false → parent (a +:+ "/" +:+ r) = a.
Proof.
  intros Ha Hr. unfold parent.
  rewrite !hasSeparator_app. replace (hasSeparator "/") with true by done.
  rewrite orb_true_l, orb_true_r.
  rewrite !bytesOf_app, !reverse_app, <- app_assoc.
  change (reverse (bytesOf "/")) with ["/"%char]. cbn [app].
  unfold hasSeparator in Hr. rewrite <- existsb_reverse in Hr.
  rewrite afterLastSeparator_until by done.
  rewrite reverse_involutive.
  destruct (bytesOf a) as [|c l] eqn:Hb.
  - exfalso. apply Ha. by rewrite <- (ofBytes_bytesOf a), Hb.
  - by rewrite <- Hb, ofBytes_bytesOf.
Qed.

Lemma append_not_empty (a b : string) : b ≠ "" → a +:+ b ≠ "".
Proof. intros Hb. destruct a; [done |]. by rewrite append_cons. Qed.

(** The directory [main] checks is the directory of the path it copies
    to, whenever the base name of the source holds no separator. *)
Lemma parent_targetPath (target : string) (when : Time) (source : string) :
  hasSeparator (Base source) = false →
  parent (targetPath target when source) = targetDir target when.
Proof.
  intros Hb. unfold targetPath, targetDir.
  rewrite Format_fileDateStubFmt, Format_targetDirFmt.
  replace (target +:+ ("/" +:+ appendInt (Year when) 4 +:+ "/" +:+ appendInt (Month when) 2
             +:+ "-" +:+ appendInt (Day when) 2 +:+ "-" +:+ appendInt (Hour when) 2
             +:+ ":" +:+ appendInt (Minute when) 2 +:+ ":" +:+ appendInt (Sec when) 2
             +:+ "-") +:+ Base source)
    with ((target +:+ "/" +:+ appendInt (Year when) 4) +:+ "/"
          +:+ (appendInt (Month when) 2 +:+ "-" +:+ appendInt (Day when) 2 +:+ "-"
               +:+ appendInt (Hour when) 2 +:+ ":" +:+ appendInt (Minute when) 2 +:+ ":"
               +:+ appendInt (Sec when) 2 +:+ "-" +:+ Base source))
    by (by rewrite !append_assoc).
  apply parent_join.
  - apply append_not_empty. done.
  - rewrite !hasSeparator_app, !appendInt_no_separator, Hb. done.
Qed.

Lemma targetDir_not_empty target when : targetDir target when ≠ "".
Proof.
  unfold targetDir. rewrite Format_targetDirFmt. by apply append_not_empty.
Qed.

Lemma targetPath_not_empty target when source : targetPath target when source ≠ "".
Proof.
  unfold targetPath. rewrite Format_fileDateStubFmt.
  apply append_not_empty. done.
Qed.

End PathFacts.

(** ** From the switch to the copy *)

Module PlacementFacts.
Import GoStrings GoErrors Filepath GoTime OS Media Gardepro Spec.
Import StringFacts TimeFacts Runs RunFacts PathFacts.

Section WithEnvironment.
Context {env : Environment}.

Lemma EXIFgetValue_found index tagName entry v w :
  dateTimeEntries index = Ok [entry] → Value entry = Ok v →
  EXIFgetValue index tagName tagIDDateTime w = (Done (Ok v), w).
Proof.
  unfold dateTimeEntries, EXIFgetValue. cbv zeta. intros -> ->. reflexivity.
Qed.

Lemma EXIFgetIndex_ok source bytes raw index w :
  files w !! source = Some (File bytes) →
  SearchAndExtractExif bytes = Ok raw →
  NewIfdMappingWithStandard = None →
  Collect raw = Ok index →
  EXIFgetIndex source w
  = (Done (Ok index), record (ReadCall source) (record (OpenCall source) w)).
Proof.
  intros Hf Hs Hm Hc. unfold EXIFgetIndex.
  rewrite (bind_done _ _ _ _ _ (readFile_file _ _ _ Hf)). by rewrite Hs, Hm, Hc.
Qed.

(** The switch on a source that carries its time. *)
Lemma switch_reads source target fs when w :
  readsTime source fs when →
  files w !! source = fs !! source →
  switch source target w
  = (Done (targetDir target when, targetPath target when source),
     record (ReadCall source) (record (OpenCall source) w)).
Proof.
  intros [(bytes & raw & index & entry & whenStr & Hext & Hf & Hs & Hm & Hc & Ht & Hv & Hp)
         | (bytes & v & Hext & Hf & Hx & ->)] Hw; rewrite Hf in Hw.
  - rewrite (switch_jpg _ _ Hext). unfold jpgCase.
    rewrite (bind_done _ _ _ _ _ (EXIFgetIndex_ok _ _ _ _ _ Hw Hs Hm Hc)).
    rewrite (bind_done _ _ _ _ _ (EXIFgetValue_found _ _ _ _ _ Ht Hv)).
    by rewrite Hp.
  - rewrite (switch_mp4 _ _ Hext).
    unfold mp4Case, MP4getMetadata, bind, open, read, Open, Read, ret. cbn.
    rewrite Hw. cbn. rewrite Hw. cbn. rewrite Hx. done.
Qed.

Lemma readsTime_extension source fs when :
  readsTime source fs when → Ext source ≠ "".
Proof.
  intros [(? & ? & ? & ? & ? & Hext & _) | (? & ? & Hext & _)] E; rewrite E in Hext.
  - by destruct Hext.
  - done.
Qed.

Lemma readsTime_file source fs when :
  readsTime source fs when → ∃ bytes, fs !! source = Some (File bytes).
Proof.
  intros [(bytes & ? & ? & ? & ? & _ & Hf & _) | (bytes & ? & _ & Hf & _)]; by exists bytes.
Qed.

(** With the flags given and the log set up, a run on a source that
    carries its time goes on with the two paths made from it. *)
Lemma main_reaches_placement console logFile source target fs when :
  target ≠ "" → logReady console logFile source fs → readsTime source fs when →
  main console logFile source target (start fs)
  = afterSwitch source
      (targetDir (TrimSuffix target "/") when,
       targetPath (TrimSuffix target "/") when source)
      (atPlacement console logFile source target fs).
Proof.
  intros Ht Hlog Hreads.
  assert (source ≠ "") as Hs.
  { intros ->. by apply (readsTime_extension _ _ _ Hreads). }
  assert (logOpens console logFile fs) as Hopen.
  { destruct Hlog as [? | [? _]]; [by left | by right]. }
  rewrite main_parts. rewrite !bool_decide_eq_false_2 by done. cbn [orb].
  rewrite (bind_done _ _ _ _ _ (openLog_run console logFile (start fs) Hopen)).
  cbn [negb]. unfold afterLog.
  rewrite (bind_done _ _ _ _ _ (addContext_run _ _ _)).
  rewrite (bind_done _ _ _ _ _ (addContext_run _ _ _)).
  rewrite (bind_done _ _ _ _ _ (Msg_run _ _ _ _)).
  fold (atSwitch console logFile source target fs).
  assert (files (atSwitch console logFile source target fs) !! source = fs !! source)
    as Hsrc.
  { apply atSwitch_files. destruct Hlog as [? | [_ ?]]; [by left | right; congruence]. }
  by rewrite (bind_done _ _ _ _ _
                (switch_reads source (TrimSuffix target "/") fs when _ Hreads Hsrc)).
Qed.

Lemma atPlacement_files console logFile source target fs p :
  console = true ∨ p ≠ logFile →
  files (atPlacement console logFile source target fs) !! p = fs !! p.
Proof. apply atSwitch_files. Qed.

Lemma atPlacement_sink console logFile source target fs :
  out (logger (atPlacement console logFile source target fs))
  = if console then Stderr else LogFile logFile.
Proof. apply atSwitch_sink. Qed.

End WithEnvironment.

(** *** The three ends of a run that has reached the target *)

Lemma checkTargetDir_ready d (w : World) :
  files w !! d = Some Dir ∨ (files w !! d = None ∧ files w !! parent d = Some Dir) →
  ∃ w', checkTargetDir d w = (Done None, w')
        ∧ logger w' = logger w
        ∧ files w' !! d = Some Dir
        ∧ ∀ q, q ≠ d → files w' !! q = files w !! q.
Proof.
  unfold checkTargetDir, bind, stat, mkdir, Stat, Mkdir, mayCreate, ret.
  intros [Hd | [Hd Hp]]; cbn; rewrite Hd; cbn.
  - eexists. split_and!; done.
  - rewrite Hp. cbn. rewrite Hd, Hp. cbn. eexists. split_and!; try done.
    + cbn. by rewrite lookup_insert_eq.
    + intros q Hq. cbn. by rewrite lookup_insert_ne.
Qed.

Lemma copy_fresh source p extra bytes (w : World) :
  files w !! source = Some (File bytes) →
  files w !! p = None →
  files w !! parent p = Some Dir →
  logApart w source → logApart w p →
  ∃ w', copySourceToTarget source p extra w = (Done None, w')
        ∧ logger w' = logger w
        ∧ files w' !! p = Some (File bytes)
        ∧ (∀ q, q ≠ p → logApart w q → files w' !! q = files w !! q)
        ∧ Logged InfoLevel "Copied file" (context (logger w) ++ extra [])%list ∈ trace w'.
Proof.
  intros Hs Hp Hd Hls Hlp.
  assert (source ≠ p) as Hne by congruence.
  eexists. split.
  { unfold copySourceToTarget, copyFile, bind, stat, open, create, read, write,
      Stat, Open, Create, mayCreate, Read, appendTo, ret.
    cbn -[Msg]. rewrite Hp, Hd. cbn -[Msg]. rewrite Hs. cbn -[Msg].
    rewrite Hp, Hd. cbn -[Msg].
    rewrite lookup_insert_ne by done. rewrite Hs. cbn -[Msg].
    rewrite lookup_insert_eq, insert_insert_eq.
    rewrite Msg_run. reflexivity. }
  split_and!.
  - by rewrite logged_logger.
  - rewrite logged_files by done. cbn. by rewrite lookup_insert_eq.
  - intros q Hq Hlq. rewrite logged_files by done. cbn. by rewrite lookup_insert_ne.
  - rewrite logged_trace. apply elem_of_app. right.
    unfold logCalls. cbn. destruct (out (logger w)); set_solver.
Qed.

Lemma copy_identical source p extra bytes (w : World) :
  files w !! source = Some (File bytes) →
  files w !! p = Some (File bytes) →
  ∃ w', copySourceToTarget source p extra w = (Done None, w')
        ∧ logger w' = logger w
        ∧ (∀ q, logApart w q → files w' !! q = files w !! q)
        ∧ Logged InfoLevel "Skipping pre-existing identical file"
            (context (logger w) ++ extra [])%list ∈ trace w'.
Proof.
  intros Hs Hp. eexists. split.
  { unfold copySourceToTarget, compareFile, bind, stat, open, read, Stat, Open, Read, ret.
    cbn -[Msg]. rewrite Hp. cbn -[Msg]. rewrite Hs. cbn -[Msg]. rewrite Hp.
    cbn -[Msg]. rewrite Hs, Hp. cbn -[Msg].
    rewrite bool_decide_eq_true_2 by done.
    rewrite Msg_run. reflexivity. }
  split_and!.
  - by rewrite logged_logger.
  - intros q Hq. by rewrite logged_files.
  - rewrite logged_trace. apply elem_of_app. right.
    unfold logCalls. cbn. destruct (out (logger w)); set_solver.
Qed.

Lemma copy_conflict source p extra bytes other (w : World) :
  files w !! source = Some (File bytes) →
  files w !! p = Some (File other) →
  bytes ≠ other →
  copySourceToTarget source p extra w
  = (Done (Some (ErrorString "pre-existing file not identical")),
     record (ReadCall p) (record (ReadCall source) (record (OpenCall p)
       (record (OpenCall source) (record (StatCall p) w))))).
Proof.
  intros Hs Hp Hne.
  unfold copySourceToTarget, compareFile, bind, stat, open, read, Stat, Open, Read, ret.
  cbn. rewrite Hp. cbn. rewrite Hs. cbn. rewrite Hp. cbn. rewrite Hs, Hp. cbn.
  by rewrite bool_decide_eq_false_2.
Qed.

Lemma afterSwitch_checked source d p (w w1 : World) :
  d ≠ "" → p ≠ "" → checkTargetDir d w = (Done None, w1) →
  afterSwitch source (d, p) w
  = (let* err := copySourceToTarget source p (extraTargetFn d p) in
     match err with
     | Some e =>
         errorFatal "Copy source file to target directory" (Some e)
           (Some (extraTargetFn d p))
     | None => ret tt
     end;;
     Msg InfoLevel [] "GardePro finished") w1.
Proof.
  intros Hd Hp Hc. unfold afterSwitch. cbn [fst snd].
  rewrite !bool_decide_eq_false_2 by done.
  unfold bind at 1. cbn [ret].
  by rewrite (bind_done _ _ _ _ _ Hc).
Qed.

Lemma afterSwitch_unchecked source d p e (w w1 : World) :
  d ≠ "" → p ≠ "" → checkTargetDir d w = (Done (Some e), w1) →
  afterSwitch source (d, p) w
  = errorFatal "Check target dir" (Some e) (Some (extraTargetFn d p)) w1.
Proof.
  intros Hd Hp Hc. unfold afterSwitch. cbn [fst snd].
  rewrite !bool_decide_eq_false_2 by done.
  unfold bind at 1. cbn [ret].
  rewrite (bind_done _ _ _ _ _ Hc).
  unfold bind at 1. by rewrite errorFatal_run.
Qed.

(** A log file that can be opened is not a directory. *)
Lemma OpenAppend_not_Dir (fs : gmap string Node) path :
  (OpenAppend fs path).1 = None → fs !! path ≠ Some Dir.
Proof. unfold OpenAppend. intros H E. by rewrite E in H. Qed.

End PlacementFacts.

(** ** Whole runs *)

Module EndToEnd.
Import GoStrings GoErrors Filepath GoTime OS Media Gardepro Spec.
Import StringFacts TimeFacts Runs RunFacts PathFacts PlacementFacts.

Section WithEnvironment.
Context {env : Environment}.

(** X2.  A whole run that places a new file.  The source carries its
    time, the target root is given, the log is set up and is neither
    the source nor one of the two paths, the directory of the year is
    there or can be made, and nothing is at the destination.  Then
    [main] returns normally; afterwards the directory of the year exists,
    the destination holds the bytes of the source, and every other
    path, the log file apart, holds what it held. *)
Theorem main_copies_new console logFile source target fs when bytes :
  target ≠ "" →
  logReady console logFile source fs →
  readsTime source fs when →
  fs !! source = Some (File bytes) →
  (console = true
   ∨ (logFile ≠ targetDir (TrimSuffix target "/") when
      ∧ logFile ≠ targetPath (TrimSuffix target "/") when source)) →
  (fs !! targetDir (TrimSuffix target "/") when = Some Dir
   ∨ (fs !! targetDir (TrimSuffix target "/") when = None
      ∧ fs !! parent (targetDir (TrimSuffix target "/") when) = Some Dir)) →
  fs !! targetPath (TrimSuffix target "/") when source = None →
  ∃ w',
    main console logFile source target (start fs) = (Done tt, w')
    ∧ files w' !! targetDir (TrimSuffix target "/") when = Some Dir
    ∧ files w' !! targetPath (TrimSuffix target "/") when source = Some (File bytes)
    ∧ ∀ q, q ≠ targetDir (TrimSuffix target "/") when →
           q ≠ targetPath (TrimSuffix target "/") when source →
           console = true ∨ q ≠ logFile →
           files w' !! q = fs !! q.
Proof.
  intros Ht Hlog Hreads Hsrc Hsep Hdir Hnew.
  set (d := targetDir (TrimSuffix target "/") when) in *.
  set (p := targetPath (TrimSuffix target "/") when source) in *.
  set (w1 := atPlacement console logFile source target fs).
  assert (parent p = d) as Hparent.
  { apply parent_targetPath, Ext_Base. by eapply readsTime_extension. }
  assert (∀ q, console = true ∨ q ≠ logFile → files w1 !! q = fs !! q) as Hw1
    by (intros q Hq; by apply atPlacement_files).
  assert (∀ q, console = true ∨ q ≠ logFile → logApart w1 q) as Hsink.
  { intros q Hq. unfold logApart, w1. rewrite atPlacement_sink.
    destruct console; [done |]. destruct Hq as [? | Hq]; [done | congruence]. }
  assert (console = true ∨ source ≠ logFile) as Hls.
  { destruct Hlog as [? | [_ ?]]; [by left | right; congruence]. }
  assert (console = true ∨ d ≠ logFile) as Hld.
  { destruct Hsep as [? | [? _]]; [by left | right; congruence]. }
  assert (console = true ∨ p ≠ logFile) as Hlp.
  { destruct Hsep as [? | [_ ?]]; [by left | right; congruence]. }
  assert (console = true ∨ parent d ≠ logFile ∨ fs !! d = Some Dir) as Hlpd.
  { destruct Hdir as [? | [_ Hpd]]; [by right; right |].
    destruct Hlog as [? | [Hopen _]]; [by left |]. right. left.
    intros E. apply (OpenAppend_not_Dir _ _ Hopen). by rewrite <- E. }
  destruct (checkTargetDir_ready d w1) as (w2 & Hcheck & Hl2 & Hd2 & Hf2).
  { rewrite (Hw1 d Hld).
    destruct Hdir as [? | [Hd Hpd]]; [by left | right]. split; [done |].
    destruct Hlpd as [? | [? | ?]]; [| | congruence].
    - by rewrite Hw1 by (by left).
    - by rewrite Hw1 by (by right). }
  assert (source ≠ d) as Hsd by (destruct Hdir as [? | [? _]]; congruence).
  assert (p ≠ d) as Hpd.
  { intros E. destruct Hdir as [? | [Hd Hpar]]; [congruence |].
    rewrite E in Hparent. rewrite Hparent in Hpar. congruence. }
  destruct (copy_fresh source p (extraTargetFn d p) bytes w2) as (w3 & Hcopy & Hl3 & Hp3 & Hf3 & _).
  { by rewrite Hf2, Hw1. }
  { by rewrite Hf2, Hw1. }
  { by rewrite Hparent. }
  { unfold logApart. rewrite Hl2. by apply Hsink. }
  { unfold logApart. rewrite Hl2. by apply Hsink. }
  exists (logged w3 InfoLevel [] "GardePro finished").
  assert (∀ q, logApart w1 q → logApart w3 q) as Hsink3.
  { intros q. unfold logApart. by rewrite Hl3, Hl2. }
  assert (∀ q, logApart w1 q → logApart w2 q) as Hsink2.
  { intros q. unfold logApart. by rewrite Hl2. }
  split_and!.
  - unfold w1, d, p. rewrite (main_reaches_placement _ _ _ _ _ when Ht Hlog Hreads).
    fold d p w1.
    rewrite (afterSwitch_checked source d p w1 w2
               (targetDir_not_empty _ _) (targetPath_not_empty _ _ _) Hcheck).
    rewrite (bind_done _ _ _ _ _ Hcopy).
    unfold bind at 1. cbn [ret]. apply Msg_run.
  - rewrite logged_files by (apply Hsink3, Hsink, Hld).
    rewrite Hf3; [done | congruence | apply Hsink2, Hsink, Hld].
  - by rewrite logged_files by (apply Hsink3, Hsink, Hlp).
  - intros q Hqd Hqp Hq.
    rewrite logged_files by (apply Hsink3, Hsink, Hq).
    rewrite Hf3 by (done || apply Hsink2, Hsink, Hq).
    rewrite Hf2 by done. by apply Hw1.
Qed.

(** X3.  A whole run on a file that is in place already.  As before,
    but the directory of the year exists and the destination is a
    regular file with the very bytes of the source.  Then [main]
    returns normally, logs that it skips the file, and changes no path
    but the log file. *)
Theorem main_skips_identical console logFile source target fs when bytes :
  target ≠ "" →
  logReady console logFile source fs →
  readsTime source fs when →
  fs !! source = Some (File bytes) →
  (console = true ∨ logFile ≠ targetPath (TrimSuffix target "/") when source) →
  fs !! targetDir (TrimSuffix target "/") when = Some Dir →
  fs !! targetPath (TrimSuffix target "/") when source = Some (File bytes) →
  ∃ w',
    main console logFile source target (start fs) = (Done tt, w')
    ∧ (∃ fields, Logged InfoLevel "Skipping pre-existing identical file" fields ∈ trace w')
    ∧ ∀ q, console = true ∨ q ≠ logFile → files w' !! q = fs !! q.
Proof.
  intros Ht Hlog Hreads Hsrc Hsep Hdir Hsame.
  set (d := targetDir (TrimSuffix target "/") when) in *.
  set (p := targetPath (TrimSuffix target "/") when source) in *.
  set (w1 := atPlacement console logFile source target fs).
  assert (∀ q, console = true ∨ q ≠ logFile → files w1 !! q = fs !! q) as Hw1
    by (intros q Hq; by apply atPlacement_files).
  assert (∀ q, console = true ∨ q ≠ logFile → logApart w1 q) as Hsink.
  { intros q Hq. unfold logApart, w1. rewrite atPlacement_sink.
    destruct console; [done |]. destruct Hq as [? | Hq]; [done | congruence]. }
  assert (console = true ∨ source ≠ logFile) as Hls.
  { destruct Hlog as [? | [_ ?]]; [by left | right; congruence]. }
  assert (console = true ∨ d ≠ logFile) as Hld.
  { destruct Hlog as [? | [Hopen _]]; [by left | right].
    intros E. apply (OpenAppend_not_Dir _ _ Hopen). by rewrite <- E. }
  assert (console = true ∨ p ≠ logFile) as Hlp.
  { destruct Hsep as [? | ?]; [by left | right; congruence]. }
  destruct (checkTargetDir_ready d w1) as (w2 & Hcheck & Hl2 & Hd2 & Hf2).
  { left. by rewrite (Hw1 d Hld). }
  assert (files w2 = files w1) as Hfiles2.
  { apply map_eq. intros q. destruct (decide (q = d)) as [-> | Hq]; [| by apply Hf2].
    by rewrite Hd2, (Hw1 d Hld). }
  destruct (copy_identical source p (extraTargetFn d p) bytes w2)
    as (w3 & Hcopy & Hl3 & Hf3 & Hskip).
  { by rewrite Hfiles2, Hw1. }
  { by rewrite Hfiles2, Hw1. }
  exists (logged w3 InfoLevel [] "GardePro finished"). split_and!.
  - unfold w1, d, p. rewrite (main_reaches_placement _ _ _ _ _ when Ht Hlog Hreads).
    fold d p w1.
    rewrite (afterSwitch_checked source d p w1 w2
               (targetDir_not_empty _ _) (targetPath_not_empty _ _ _) Hcheck).
    rewrite (bind_done _ _ _ _ _ Hcopy).
    unfold bind at 1. cbn [ret]. apply Msg_run.
  - eexists. rewrite logged_trace. apply elem_of_app. left. exact Hskip.
  - intros q Hq.
    assert (logApart w2 q) as Hq2 by (unfold logApart; rewrite Hl2; by apply Hsink).
    rewrite logged_files by (unfold logApart; rewrite Hl3; exact Hq2).
    rewrite Hf3 by done. rewrite Hfiles2. by apply Hw1.
Qed.

(** X4.  A whole run against a different file of the same name.  As
    before, but the destination is a regular file whose bytes differ
    from those of the source.  Then [main] ends in [errorFatal] with
    "Copy source file to target directory" and the error "pre-existing
    file not identical", and no path but the log file has changed: the
    file in the archive is kept. *)
Theorem main_rejects_conflict console logFile source target fs when bytes other :
  target ≠ "" →
  logReady console logFile source fs →
  readsTime source fs when →
  fs !! source = Some (File bytes) →
  (console = true ∨ logFile ≠ targetPath (TrimSuffix target "/") when source) →
  fs !! targetDir (TrimSuffix target "/") when = Some Dir →
  fs !! targetPath (TrimSuffix target "/") when source = Some (File other) →
  bytes ≠ other →
  ∃ w',
    main console logFile source target (start fs)
    = (Fatal "Copy source file to target directory"
         (Some (ErrorString "pre-existing file not identical")), w')
    ∧ ∀ q, console = true ∨ q ≠ logFile → files w' !! q = fs !! q.
Proof.
  intros Ht Hlog Hreads Hsrc Hsep Hdir Hthere Hne.
  set (d := targetDir (TrimSuffix target "/") when) in *.
  set (p := targetPath (TrimSuffix target "/") when source) in *.
  set (w1 := atPlacement console logFile source target fs).
  assert (∀ q, console = true ∨ q ≠ logFile → files w1 !! q = fs !! q) as Hw1
    by (intros q Hq; by apply atPlacement_files).
  assert (∀ q, console = true ∨ q ≠ logFile → logApart w1 q) as Hsink.
  { intros q Hq. unfold logApart, w1. rewrite atPlacement_sink.
    destruct console; [done |]. destruct Hq as [? | Hq]; [done | congruence]. }
  assert (console = true ∨ source ≠ logFile) as Hls.
  { destruct Hlog as [? | [_ ?]]; [by left | right; congruence]. }
  assert (console = true ∨ d ≠ logFile) as Hld.
  { destruct Hlog as [? | [Hopen _]]; [by left | right].
    intros E. apply (OpenAppend_not_Dir _ _ Hopen). by rewrite <- E. }
  assert (console = true ∨ p ≠ logFile) as Hlp.
  { destruct Hsep as [? | ?]; [by left | right; congruence]. }
  destruct (checkTargetDir_ready d w1) as (w2 & Hcheck & Hl2 & Hd2 & Hf2).
  { left. by rewrite (Hw1 d Hld). }
  assert (files w2 = files w1) as Hfiles2.
  { apply map_eq. intros q. destruct (decide (q = d)) as [-> | Hq]; [| by apply Hf2].
    by rewrite Hd2, (Hw1 d Hld). }
  pose proof (copy_conflict source p (extraTargetFn d p) bytes other w2) as Hcopy.
  rewrite Hfiles2, !Hw1 in Hcopy by done. specialize (Hcopy Hsrc Hthere Hne).
  eexists. split.
  - unfold w1, d, p. rewrite (main_reaches_placement _ _ _ _ _ when Ht Hlog Hreads).
    fold d p w1.
    rewrite (afterSwitch_checked source d p w1 w2
               (targetDir_not_empty _ _) (targetPath_not_empty _ _ _) Hcheck).
    rewrite (bind_done _ _ _ _ _ Hcopy).
    unfold bind at 1. by rewrite errorFatal_run.
  - intros q Hq. rewrite logged_files.
    + cbn. rewrite Hfiles2. by apply Hw1.
    + unfold logApart. cbn. rewrite Hl2. by apply Hsink.
Qed.

(** A run whose directory of the year cannot be made: nothing is at
    its path and nothing at the path above it. *)
Lemma main_stops_at_directory console logFile source target fs when :
  target ≠ "" →
  logReady console logFile source fs →
  readsTime source fs when →
  (console = true
   ∨ (logFile ≠ targetDir (TrimSuffix target "/") when
      ∧ logFile ≠ parent (targetDir (TrimSuffix target "/") when))) →
  fs !! targetDir (TrimSuffix target "/") when = None →
  fs !! parent (targetDir (TrimSuffix target "/") when) = None →
  ∃ w',
    main console logFile source target (start fs)
    = (Fatal "Check target dir"
         (Some (Wrapped "make target dir" (SyscallError ENOENT))), w')
    ∧ ∀ q, console = true ∨ q ≠ logFile → files w' !! q = fs !! q.
Proof.
  intros Ht Hlog Hreads Hsep Hdir Hroot.
  set (d := targetDir (TrimSuffix target "/") when) in *.
  set (p := targetPath (TrimSuffix target "/") when source) in *.
  set (w1 := atPlacement console logFile source target fs).
  assert (∀ q, console = true ∨ q ≠ logFile → files w1 !! q = fs !! q) as Hw1
    by (intros q Hq; by apply atPlacement_files).
  assert (∀ q, console = true ∨ q ≠ logFile → logApart w1 q) as Hsink.
  { intros q Hq. unfold logApart, w1. rewrite atPlacement_sink.
    destruct console; [done |]. destruct Hq as [? | Hq]; [done | congruence]. }
  assert (console = true ∨ d ≠ logFile) as Hld.
  { destruct Hsep as [? | [? _]]; [by left | right; congruence]. }
  assert (console = true ∨ parent d ≠ logFile) as Hlpd.
  { destruct Hsep as [? | [_ ?]]; [by left | right; congruence]. }
  assert (checkTargetDir d w1
          = (Done (Some (Wrapped "make target dir" (SyscallError ENOENT))),
             record (MkdirCall d) (record (StatCall d) w1))) as Hcheck.
  { unfold checkTargetDir, bind, stat, mkdir, Stat, Mkdir, mayCreate, ret. cbn.
    rewrite !Hw1 by done. rewrite Hdir, Hroot. cbn.
    rewrite !Hw1 by done. by rewrite Hdir, Hroot. }
  eexists. split.
  - unfold w1, d. rewrite (main_reaches_placement _ _ _ _ _ when Ht Hlog Hreads).
    fold d p w1.
    rewrite (afterSwitch_unchecked source d p _ w1 _
               (targetDir_not_empty _ _) (targetPath_not_empty _ _ _) Hcheck).
    by rewrite errorFatal_run.
  - intros q Hq. rewrite logged_files.
    + cbn. by apply Hw1.
    + unfold logApart. cbn. by apply Hsink.
Qed.

(** X5.  A whole run toward a target root that is not there.  The
    target root, written with or without one trailing separator, is a
    proper name in a directory that exists, and nothing is at the
    root nor below it.  The source carries its time and the log is set
    up elsewhere.  Then [main] ends in [errorFatal] with "Check target
    dir" and the error of [os.Mkdir], which makes one level only; it
    makes no directory and no file, so that no path but the log file
    has changed. *)
Theorem main_fails_without_root console logFile source target root fs when :
  target = root ∨ target = root +:+ "/" →
  HasSuffix root "/" = false →
  Base root ≠ "." →
  Base root ≠ ".." →
  logReady console logFile source fs →
  readsTime source fs when →
  (console = true ∨ (logFile ≠ root ∧ logFile ≠ targetDir root when)) →
  fs !! root = None →
  fs !! parent root = Some Dir →
  fs !! targetDir root when = None →
  ∃ w',
    main console logFile source target (start fs)
    = (Fatal "Check target dir"
         (Some (Wrapped "make target dir" (SyscallError ENOENT))), w')
    ∧ ∀ q, console = true ∨ q ≠ logFile → files w' !! q = fs !! q.
Proof.
  intros Htarget Hsuffix Hdot _ Hlog Hreads Hsep Hroot _ Hdir.
  assert (root ≠ "") as Hne by (by intros ->).
  assert (TrimSuffix target "/" = root) as Htrim.
  { destruct Htarget as [-> | ->]; [by apply TrimSuffix_none | apply TrimSuffix_app]. }
  assert (target ≠ "") as Ht.
  { destruct Htarget as [-> | ->]; [done | by apply append_not_empty]. }
  assert (parent (targetDir root when) = root) as Hparent.
  { unfold targetDir. rewrite Format_targetDirFmt.
    apply parent_join; [done | apply appendInt_no_separator]. }
  clear Htarget Hsuffix Hdot Hne. subst root.
  apply (main_stops_at_directory console logFile source target fs when);
    rewrite ?Hparent; try done.
  destruct Hsep as [? | [? ?]]; [by left | by right].
Qed.

End WithEnvironment.

End EndToEnd.

(** ** Runs on the example card *)

Module EndToEndExamples.
Import GoStrings GoErrors Filepath GoTime OS Media Gardepro Spec.
Import StringFacts TimeFacts Runs RunFacts PathFacts PlacementFacts.

(** The example picture carries its time whatever else the file system
    holds. *)
Lemma example_readsTime (fs : gmap string Node) :
  fs !! "/dcim/IMG_001.JPG" = Some (File exampleBytes) →
  @readsTime (exampleEnvironment UTC) "/dcim/IMG_001.JPG" fs (Date 2023 6 15 14 30 5).
Proof.
  intros Hf. left.
  exists exampleBytes, exampleBytes, (exampleIndex exampleBytes),
    (mkTag "IFD" "DateTime" 0x132 (Ok (StringValue "2023:06:15 14:30:05"))),
    "2023:06:15 14:30:05".
  split_and!; try reflexivity; [by left | exact Hf].
Defined.

Lemma main_only_appends_witness :
  files (@main (exampleEnvironment UTC) false "/tmp/gardepro.log" "/dcim/IMG_001.JPG"
           "/archive" (start archivedFiles)).2 !! exampleDestination
  = Some (File exampleBytes)
  ∨ (false = false ∧ exampleDestination = "/tmp/gardepro.log"
     ∧ ∃ c more, File exampleBytes = File c
         ∧ files (@main (exampleEnvironment UTC) false "/tmp/gardepro.log"
                    "/dcim/IMG_001.JPG" "/archive" (start archivedFiles)).2
             !! exampleDestination
           = Some (File (c ++ more)%list)).
Proof.
  apply (@Invariants.main_only_appends (exampleEnvironment UTC)). reflexivity.
Defined.

Lemma main_copies_new_witness :
  ∃ w',
    @main (exampleEnvironment UTC) false "/tmp/gardepro.log" "/dcim/IMG_001.JPG" "/archive/"
      (start exampleFiles) = (Done tt, w')
    ∧ files w' !! "/archive/2023" = Some Dir
    ∧ files w' !! exampleDestination = Some (File exampleBytes).
Proof.
  destruct (@EndToEnd.main_copies_new (exampleEnvironment UTC) false "/tmp/gardepro.log"
              "/dcim/IMG_001.JPG" "/archive/" exampleFiles (Date 2023 6 15 14 30 5)
              exampleBytes) as (w' & Hrun & Hdir & Hfile & _).
  - discriminate.
  - right. split; [vm_compute; reflexivity | discriminate].
  - apply example_readsTime. reflexivity.
  - reflexivity.
  - right. split; vm_compute; discriminate.
  - right. split; vm_compute; reflexivity.
  - vm_compute. reflexivity.
  - exists w'. split_and!; [exact Hrun | exact Hdir | exact Hfile].
Defined.

Lemma main_skips_identical_witness :
  ∃ w',
    @main (exampleEnvironment UTC) false "/tmp/gardepro.log" "/dcim/IMG_001.JPG" "/archive"
      (start archivedFiles) = (Done tt, w')
    ∧ files w' !! exampleDestination = Some (File exampleBytes).
Proof.
  destruct (@EndToEnd.main_skips_identical (exampleEnvironment UTC) false
              "/tmp/gardepro.log" "/dcim/IMG_001.JPG" "/archive" archivedFiles
              (Date 2023 6 15 14 30 5) exampleBytes) as (w' & Hrun & _ & Hfiles).
  - discriminate.
  - right. split; [vm_compute; reflexivity | discriminate].
  - apply example_readsTime. reflexivity.
  - reflexivity.
  - right. vm_compute. discriminate.
  - vm_compute. reflexivity.
  - vm_compute. reflexivity.
  - exists w'. split; [exact Hrun |]. rewrite Hfiles; [reflexivity | right; discriminate].
Defined.

Lemma main_rejects_conflict_witness :
  ∃ w',
    @main (exampleEnvironment UTC) false "/tmp/gardepro.log" "/dcim/IMG_001.JPG" "/archive"
      (start conflictFiles)
    = (Fatal "Copy source file to target directory"
         (Some (ErrorString "pre-existing file not identical")), w')
    ∧ files w' !! exampleDestination
      = Some (File (list_byte_of_string "another picture")).
Proof.
  destruct (@EndToEnd.main_rejects_conflict (exampleEnvironment UTC) false
              "/tmp/gardepro.log" "/dcim/IMG_001.JPG" "/archive" conflictFiles
              (Date 2023 6 15 14 30 5) exampleBytes (list_byte_of_string "another picture"))
    as (w' & Hrun & Hfiles).
  - discriminate.
  - right. split; [vm_compute; reflexivity | discriminate].
  - apply example_readsTime. reflexivity.
  - reflexivity.
  - right. vm_compute. discriminate.
  - vm_compute. reflexivity.
  - vm_compute. reflexivity.
  - vm_compute. discriminate.
  - exists w'. split; [exact Hrun |]. rewrite Hfiles; [reflexivity | right; discriminate].
Defined.

Lemma main_fails_without_root_witness :
  ∃ w',
    @main (exampleEnvironment UTC) false "/tmp/gardepro.log" "/dcim/IMG_001.JPG" "/nowhere/"
      (start exampleFiles)
    = (Fatal "Check target dir"
         (Some (Wrapped "make target dir" (SyscallError ENOENT))), w')
    ∧ files w' !! "/nowhere" = None
    ∧ files w' !! "/nowhere/2023" = None.
Proof.
  destruct (@EndToEnd.main_fails_without_root (exampleEnvironment UTC) false
              "/tmp/gardepro.log" "/dcim/IMG_001.JPG" "/nowhere/" "/nowhere" exampleFiles
              (Date 2023 6 15 14 30 5)) as (w' & Hrun & Hfiles).
  - by right.
  - reflexivity.
  - discriminate.
  - discriminate.
  - right. split; [vm_compute; reflexivity | discriminate].
  - apply example_readsTime. reflexivity.
  - right. split; vm_compute; discriminate.
  - vm_compute. reflexivity.
  - vm_compute. reflexivity.
  - vm_compute. reflexivity.
  - exists w'. split; [exact Hrun |].
    rewrite !Hfiles by (right; discriminate). split; reflexivity.
Defined.

End EndToEndExamples.

(** ** The functions that place the file *)

Module Copying.
Import GoStrings GoErrors Filepath GoTime OS Media Gardepro Spec.
Import StringFacts TimeFacts Runs RunFacts PathFacts PlacementFacts.

(** X6.  [copyFile] does not look at what is at the target.  When the
    source is a regular file and the target is another regular file,
    or nothing in a directory that exists, it returns no error and the
    target holds the bytes of the source afterwards, whatever it held
    before; no other path changes.  Copying a regular file onto
    itself returns no error and leaves the file empty. *)
Theorem copyFile_replaces (source target : string) (bytes : list Byte.byte) (w : World) :
  files w !! source = Some (File bytes) →
  (source ≠ target →
   (∃ old, files w !! target = Some (File old))
   ∨ (files w !! target = None ∧ files w !! parent target = Some Dir) →
   ∃ w', copyFile source target w = (Done None, w')
         ∧ files w' = <[target := File bytes]> (files w)
         ∧ logger w' = logger w
         ∧ trace w' = (trace w ++ [OpenCall source; CreateCall target;
                                   ReadCall source; WriteCall target bytes])%list)
  ∧ ∃ w', copyFile source source w = (Done None, w')
          ∧ files w' = <[source := File []]> (files w).
Proof.
  intros Hs. split.
  - intros Hne Ht. eexists. split.
    { unfold copyFile, bind, open, create, read, write, Open, Create, mayCreate, Read,
        appendTo, ret.
      cbn. rewrite Hs. cbn.
      destruct Ht as [[old Ht] | [Ht Hp]]; rewrite Ht; [| rewrite Hp]; cbn;
        rewrite lookup_insert_ne by done; rewrite Hs; cbn;
        rewrite lookup_insert_eq, insert_insert_eq; reflexivity. }
    split_and!; [done | done |]. cbn. by rewrite <- !app_assoc.
  - eexists. split.
    { unfold copyFile, bind, open, create, read, write, Open, Create, mayCreate, Read,
        appendTo, ret.
      cbn. rewrite Hs. cbn. rewrite Hs. cbn. rewrite lookup_insert_eq. cbn.
      rewrite lookup_insert_eq, insert_insert_eq. reflexivity. }
    done.
Qed.

Lemma copyFile_replaces_witness :
  ∃ w', copyFile "/dcim/IMG_001.JPG" "/dcim/sketch.png" (start exampleFiles) = (Done None, w')
        ∧ files w' !! "/dcim/sketch.png" = Some (File exampleBytes).
Proof.
  destruct (copyFile_replaces "/dcim/IMG_001.JPG" "/dcim/sketch.png" exampleBytes
              (start exampleFiles) eq_refl) as [Hcopy _].
  destruct Hcopy as (w' & Hrun & Hfiles & _).
  - discriminate.
  - left. eexists. vm_compute. reflexivity.
  - exists w'. split; [exact Hrun |]. rewrite Hfiles. reflexivity.
Defined.

(** X7.  How [copyFile] fails.  A source that is not there is reported
    as "open source file" before the target is touched.  A target that
    cannot be made, because its directory is missing or because it is
    a directory itself, is reported as "create target file" and
    nothing changes.  A source that is a directory is opened, the
    target is created, and only then does reading fail with "copy
    file": the target is left behind as an empty file. *)
Theorem copyFile_failures (source target : string) (w : World) :
  (files w !! source = None →
     ∃ err, copyFile source target w
            = (Done (Some (Wrapped "open source file" err)), record (OpenCall source) w))
  ∧ (∀ n, files w !! source = Some n →
       files w !! target = None → files w !! parent target = None →
       copyFile source target w
       = (Done (Some (Wrapped "create target file" (SyscallError ENOENT))),
          record (CreateCall target) (record (OpenCall source) w)))
  ∧ (∀ n, files w !! source = Some n → files w !! target = Some Dir →
       copyFile source target w
       = (Done (Some (Wrapped "create target file" (SyscallError EISDIR))),
          record (CreateCall target) (record (OpenCall source) w)))
  ∧ (files w !! source = Some Dir →
     files w !! target = None → files w !! parent target = Some Dir →
     ∃ w', copyFile source target w
           = (Done (Some (Wrapped "copy file" (SyscallError EISDIR))), w')
           ∧ files w' = <[target := File []]> (files w)).
Proof.
  unfold copyFile, bind, open, create, read, write, Open, Create, mayCreate, Read,
    appendTo, ret.
  split_and!.
  - intros Hs. cbn. rewrite Hs.
    destruct (files w !! parent source) as [[c |] |]; cbn; by eexists.
  - intros n Hs Ht Hp. cbn. rewrite Hs. cbn. by rewrite Ht, Hp.
  - intros n Hs Ht. cbn. rewrite Hs. cbn. by rewrite Ht.
  - intros Hs Ht Hp. assert (source ≠ target) as Hne by congruence.
    cbn. rewrite Hs. cbn. rewrite Ht, Hp. cbn.
    rewrite lookup_insert_ne by done. rewrite Hs. cbn. by eexists.
Qed.

Lemma copyFile_failures_witness :
  (∃ err, copyFile "/dcim/lost.jpg" "/archive/lost.jpg" (start exampleFiles)
          = (Done (Some (Wrapped "open source file" err)),
             record (OpenCall "/dcim/lost.jpg") (start exampleFiles)))
  ∧ copyFile "/dcim/IMG_001.JPG" "/nowhere/IMG_001.JPG" (start exampleFiles)
    = (Done (Some (Wrapped "create target file" (SyscallError ENOENT))),
       record (CreateCall "/nowhere/IMG_001.JPG")
         (record (OpenCall "/dcim/IMG_001.JPG") (start exampleFiles)))
  ∧ ∃ w', copyFile "/dcim" "/archive/dcim" (start exampleFiles)
          = (Done (Some (Wrapped "copy file" (SyscallError EISDIR))), w')
          ∧ files w' !! "/archive/dcim" = Some (File []).
Proof.
  destruct (copyFile_failures "/dcim/lost.jpg" "/archive/lost.jpg" (start exampleFiles))
    as (H1 & _).
  destruct (copyFile_failures "/dcim/IMG_001.JPG" "/nowhere/IMG_001.JPG"
              (start exampleFiles)) as (_ & H2 & _).
  destruct (copyFile_failures "/dcim" "/archive/dcim" (start exampleFiles))
    as (_ & _ & _ & H4).
  split_and!.
  - apply H1. vm_compute. reflexivity.
  - apply (H2 (File exampleBytes)); vm_compute; reflexivity.
  - destruct H4 as (w' & Hrun & Hfiles); [vm_compute; reflexivity ..|].
    exists w'. split; [exact Hrun |]. rewrite Hfiles. reflexivity.
Defined.

(** X8.  [copySourceToTarget] keeps what is there: whatever the source
    and the target and in whatever state the file system is, every
    entry that the log does not go to is, after the call, what it was
    before.  It stands between [main] and [copyFile], which would
    replace the target. *)
Theorem copySourceToTarget_keeps (source target : string) (extra : Event → Event)
    (w : World) (p : string) (n : Node) :
  files w !! p = Some n → logApart w p →
  files (copySourceToTarget source target extra w).2 !! p = Some n.
Proof.
  intros Hp Hlog.
  destruct (orderly_copySourceToTarget source target extra w) as [_ Hext].
  destruct (Hext p n Hp) as [H | [H _]]; done.
Qed.

Lemma copySourceToTarget_keeps_witness :
  files (copySourceToTarget "/dcim/IMG_001.JPG" exampleDestination id
           (start conflictFiles)).2 !! exampleDestination
  = Some (File (list_byte_of_string "another picture")).
Proof.
  apply copySourceToTarget_keeps; [reflexivity | discriminate].
Defined.

(** X9.  What [checkTargetDir] promises its caller, in every state of
    the file system: it always returns; when it returns no error a
    directory is at the path and no other path has changed; when it
    returns an error no path has changed at all; and after a call
    without error a second call only looks at the path and succeeds. *)
Theorem checkTargetDir_contract (path : string) (w : World) :
  ∃ r w',
    checkTargetDir path w = (Done r, w')
    ∧ logger w' = logger w
    ∧ (r = None →
       files w' !! path = Some Dir
       ∧ (∀ q, q ≠ path → files w' !! q = files w !! q)
       ∧ checkTargetDir path w' = (Done None, record (StatCall path) w'))
    ∧ (r ≠ None → files w' = files w).
Proof.
  unfold checkTargetDir, bind, stat, mkdir, Stat, Mkdir, mayCreate, ret. cbn.
  destruct (files w !! path) as [[c |] |] eqn:Hp; cbn.
  - eexists _, _. split_and!; done.
  - eexists _, _. split_and!; [done | done | | done].
    intros _. cbn. by rewrite Hp.
  - destruct (files w !! parent path) as [[c |] |] eqn:Hd; cbn; rewrite ?Hp, ?Hd; cbn.
    + eexists _, _. split_and!; done.
    + eexists _, _. split_and!; [done | done | | done].
      intros _. cbn. rewrite lookup_insert_eq. split_and!; [done | | done].
      intros q Hq. by rewrite lookup_insert_ne.
    + eexists _, _. split_and!; done.
Qed.

Lemma checkTargetDir_contract_witness :
  ∃ w', checkTargetDir "/archive/2023" (start exampleFiles) = (Done None, w')
        ∧ files w' !! "/archive/2023" = Some Dir
        ∧ checkTargetDir "/archive/2023" w'
          = (Done None, record (StatCall "/archive/2023") w').
Proof.
  destruct (checkTargetDir_contract "/archive/2023" (start exampleFiles))
    as (r & w' & Hrun & _ & Hok & _).
  assert (r = None) as ->.
  { vm_compute in Hrun. by injection Hrun as <- _. }
  destruct (Hok eq_refl) as (Hdir & _ & Hagain).
  exists w'. split_and!; done.
Defined.

End Copying.

(** ** Returning before the log is set up *)

Module EarlyReturns.
Import GoStrings GoErrors Filepath GoTime OS Media Gardepro Spec.
Import StringFacts TimeFacts Runs RunFacts.

Section WithEnvironment.
Context {env : Environment}.

(** X10.  The two ways [main] returns before it has a log.  Without a
    source or without a target it shows the dialog about the flags and
    returns: it has called nothing else.  When the log file cannot be
    opened it shows the dialog "Log File Creation" with the error and
    returns, having only tried to open that file.  In both cases the
    process leaves by returning from [main], not through
    [errorFatal], no file has changed and the source was not read. *)
Theorem main_returns_without_log console logFile source target (w : World) :
  (source = "" ∨ target = "" →
     main console logFile source target w
     = (Done tt,
        record (DialogError "Error parsing command line flags"
                  "Missing command line flag -source or -target") w))
  ∧ (∀ err, source ≠ "" → target ≠ "" → console = false →
       (OpenAppend (files w) logFile).1 = Some err →
       main console logFile source target w
       = (Done tt,
          record (DialogError "Log File Creation" (Error err))
            (record (OpenAppendCall logFile) w))).
Proof.
  split.
  - intros H. rewrite main_parts.
    assert (bool_decide (source = "") || bool_decide (target = "") = true) as ->; [| done].
    destruct H as [-> | ->]; [done |]. by rewrite orb_true_r.
  - intros err Hs Ht -> Hopen. rewrite main_parts.
    rewrite !bool_decide_eq_false_2 by done. cbn [orb].
    unfold openLog. unfold bind at 1 2. unfold openAppend.
    destruct (OpenAppend (files w) logFile) as [e fs1] eqn:Ho. cbn in Hopen. subst e.
    assert (fs1 = files w) as ->.
    { unfold OpenAppend, mayCreate in Ho. repeat case_match; simplify_eq; done. }
    cbn. by destruct w.
Qed.

End WithEnvironment.

Lemma main_returns_without_log_witness :
  @main (exampleEnvironment UTC) false "/tmp/gardepro.log" "" "/archive" (start exampleFiles)
  = (Done tt,
     record (DialogError "Error parsing command line flags"
               "Missing command line flag -source or -target") (start exampleFiles))
  ∧ @main (exampleEnvironment UTC) false "/var/log/gardepro.log" "/dcim/IMG_001.JPG"
      "/archive" (start exampleFiles)
    = (Done tt,
       record (DialogError "Log File Creation" (Error (SyscallError ENOENT)))
         (record (OpenAppendCall "/var/log/gardepro.log") (start exampleFiles))).
Proof.
  destruct (@main_returns_without_log (exampleEnvironment UTC) false "/tmp/gardepro.log"
              "" "/archive" (start exampleFiles)) as [H1 _].
  destruct (@main_returns_without_log (exampleEnvironment UTC) false
              "/var/log/gardepro.log" "/dcim/IMG_001.JPG" "/archive" (start exampleFiles))
    as [_ H2].
  split; [apply H1; by left |].
  apply (H2 (SyscallError ENOENT)); [discriminate | discriminate | reflexivity |].
  vm_compute. reflexivity.
Defined.

End EarlyReturns.

(** ** Reading the time of a source *)

Module Decoding.
Import GoStrings GoErrors Filepath GoTime OS Media Gardepro Spec.
Import StringFacts TimeFacts Runs RunFacts PathFacts PlacementFacts.

Lemma logCalls_same (w w' : World) l e message :
  logger w' = logger w → logCalls w' l e message = logCalls w l e message.
Proof. unfold logCalls. by intros ->. Qed.

Section WithEnvironment.
Context {env : Environment}.

Lemma logTags_run tags (w : World) :
  ∃ w', logTags tags w = (Done tt, w')
        ∧ logger w' = logger w
        ∧ trace w' = (trace w ++ tagCalls w tags)%list.
Proof.
  revert w. induction tags as [|t tags IH]; intros w; cbn [logTags].
  - exists w. split_and!; [done | done |]. unfold tagCalls. cbn. by rewrite app_nil_r.
  - rewrite (bind_done _ _ _ _ _ (Msg_run _ _ _ _)).
    destruct (IH (logged w DebugLevel (tagFields t) "tag")) as (w' & Hrun & Hl & Ht).
    exists w'. split_and!.
    + exact Hrun.
    + by rewrite Hl, logged_logger.
    + rewrite Ht, logged_trace, <- app_assoc. f_equal. unfold tagCalls. cbn [flat_map].
      f_equal. apply flat_map_ext. intros ite. apply logCalls_same, logged_logger.
Qed.

Lemma EXIFgetValue_error index tagName err (w : World) :
  dateTimeEntries index = Err err →
  ∃ w', EXIFgetValue index tagName tagIDDateTime w
        = (Done (Err (Wrapped "find EXIF tag" err)), w')
        ∧ logger w' = logger w
        ∧ trace w'
          = (trace w
               ++ logCalls w ErrorLevel (lookupFields tagName tagIDDateTime err)
                    "Find EXIF tag by ID"
               ++ tagCalls w (allTags (RootIfd index)))%list.
Proof.
  intros Hd. unfold EXIFgetValue. cbv zeta. fold (dateTimeEntries index). rewrite Hd.
  rewrite (bind_done _ _ _ _ _ (Msg_run _ _ _ _)).
  unfold EXIFenumerateIndex.
  destruct (logTags_run (allTags (RootIfd index))
              (logged w ErrorLevel (lookupFields tagName tagIDDateTime err)
                 "Find EXIF tag by ID")) as (w' & Hrun & Hl & Ht).
  exists w'. split_and!.
  - unfold bind at 1. unfold bind at 1. unfold lookupFields in Hrun. rewrite Hrun. done.
  - by rewrite Hl, logged_logger.
  - rewrite Ht, logged_trace, <- app_assoc. do 2 f_equal.
    unfold tagCalls. apply flat_map_ext. intros ite. apply logCalls_same, logged_logger.
Qed.

(** X11.  How [EXIFgetValue] looks for the date tag.  A single tag in the
    root directory is taken, whatever the Exif directory holds.  When the
    root directory has none, a single tag of the Exif directory is
    taken.  In both cases nothing is logged.  Several tags in the root
    directory are an error, and the Exif directory is not asked.  When
    neither directory has the tag, the error of the second lookup comes
    back wrapped in "find EXIF tag", after one error event and one debug
    event for each tag of the index. *)
Theorem EXIFgetValue_lookup index tagName (w : World) :
  (∀ entry v,
      FindTagWithId (Some (RootIfd index)) tagIDDateTime = Ok [entry] →
      Value entry = Ok v →
      EXIFgetValue index tagName tagIDDateTime w = (Done (Ok v), w))
  ∧ (∀ e entry v,
        FindTagWithId (Some (RootIfd index)) tagIDDateTime = Err e →
        FindTagWithId (Lookup index !! "IFD/Exif") tagIDDateTime = Ok [entry] →
        Value entry = Ok v →
        EXIFgetValue index tagName tagIDDateTime w = (Done (Ok v), w))
  ∧ (∀ first second more,
        FindTagWithId (Some (RootIfd index)) tagIDDateTime
        = Ok (first :: second :: more) →
        EXIFgetValue index tagName tagIDDateTime w
        = (Done (Err (ErrorString
                        ("wrong number of EXIF tag results: "
                         +:+ Itoa (2 + List.length more)))), w))
  ∧ (∀ e err,
        FindTagWithId (Some (RootIfd index)) tagIDDateTime = Err e →
        FindTagWithId (Lookup index !! "IFD/Exif") tagIDDateTime = Err err →
        ∃ w', EXIFgetValue index tagName tagIDDateTime w
              = (Done (Err (Wrapped "find EXIF tag" err)), w')
              ∧ trace w'
                = (trace w
                     ++ logCalls w ErrorLevel (lookupFields tagName tagIDDateTime err)
                          "Find EXIF tag by ID"
                     ++ tagCalls w (allTags (RootIfd index)))%list).
Proof.
  split_and!.
  - intros entry v Hroot Hv. apply (EXIFgetValue_found _ _ entry); [| done].
    unfold dateTimeEntries. by rewrite Hroot.
  - intros e entry v Hroot Hexif Hv. apply (EXIFgetValue_found _ _ entry); [| done].
    unfold dateTimeEntries. by rewrite Hroot.
  - intros first second more Hroot. unfold EXIFgetValue. cbv zeta. by rewrite Hroot.
  - intros e err Hroot Hexif.
    destruct (EXIFgetValue_error index tagName err w) as (w' & Hrun & _ & Ht).
    { unfold dateTimeEntries. by rewrite Hroot. }
    by exists w'.
Qed.

(** *** When the switch comes through *)

Lemma readFile_inv path bytes (w w1 : World) :
  readFile path w = (Done (Ok bytes), w1) → files w !! path = Some (File bytes).
Proof.
  unfold readFile, bind, open, read, Open, Read, ret. cbn.
  destruct (files w !! path) as [[c |] |] eqn:Hp; cbn; rewrite ?Hp; cbn.
  - by intros [= ->].
  - done.
  - destruct (files w !! parent path) as [[c |] |]; done.
Qed.

Lemma readFile_returns path (w : World) : ∃ r w1, readFile path w = (Done r, w1).
Proof.
  unfold readFile, bind, open, read, ret. cbn.
  destruct (Open (files w) path); by eexists _, _.
Qed.

Lemma EXIFgetIndex_returns path (w : World) :
  ∃ r w1, EXIFgetIndex path w = (Done r, w1)
          ∧ ∀ index, r = Ok index →
              ∃ bytes raw,
                files w !! path = Some (File bytes)
                ∧ SearchAndExtractExif bytes = Ok raw
                ∧ NewIfdMappingWithStandard = None
                ∧ Collect raw = Ok index.
Proof.
  unfold EXIFgetIndex.
  destruct (readFile_returns path w) as (r & w1 & Hread).
  rewrite (bind_done _ _ _ _ _ Hread).
  destruct r as [bytes | e]; [| by eexists _, _].
  apply readFile_inv in Hread.
  destruct (SearchAndExtractExif bytes) as [raw | e] eqn:Hs; [| by eexists _, _].
  destruct NewIfdMappingWithStandard as [e |] eqn:Hm; [by eexists _, _ |].
  destruct (Collect raw) as [index | e] eqn:Hc; [| by eexists _, _].
  eexists _, _. split; [done |]. intros index' [= <-]. by exists bytes, raw.
Qed.

Lemma EXIFgetValue_returns index tagName (w : World) :
  ∃ r w1, EXIFgetValue index tagName tagIDDateTime w = (Done r, w1)
          ∧ ∀ v, r = Ok v →
                 ∃ entry, dateTimeEntries index = Ok [entry] ∧ Value entry = Ok v.
Proof.
  destruct (dateTimeEntries index) as [entries | err] eqn:Hd.
  - unfold EXIFgetValue. cbv zeta. fold (dateTimeEntries index). rewrite Hd.
    destruct entries as [| entry [| second more]].
    + eexists _, _. split; [done | done].
    + destruct (Value entry) as [v |] eqn:Hv.
      * eexists _, _. split; [done |]. intros v' [= ->]. by exists entry.
      * eexists _, _. split; [done | done].
    + eexists _, _. split; [done | done].
  - destruct (EXIFgetValue_error index tagName err w Hd) as (w' & Hrun & _).
    eexists _, _. split; [exact Hrun | done].
Qed.

(** When the switch hands on its two paths, the source carried its
    time. *)
Lemma switch_done_reads source target (w w' : World) found :
  switch source target w = (Done found, w') →
  ∃ when, readsTime source (files w) when.
Proof.
  intros Hrun. unfold switch in Hrun. cbv zeta in Hrun.
  destruct (bool_decide (ToLower (Ext source) = ".jpg")
            || bool_decide (ToLower (Ext source) = ".jpeg")) eqn:Hjpg.
  + assert (ToLower (Ext source) = ".jpg" ∨ ToLower (Ext source) = ".jpeg") as Hext.
    { apply orb_true_iff in Hjpg as [H | H]; apply bool_decide_eq_true in H; auto. }
    unfold jpgCase in Hrun.
    destruct (EXIFgetIndex_returns source w) as (r & w1 & Hindex & Hinv1).
    rewrite (bind_done _ _ _ _ _ Hindex) in Hrun.
    destruct r as [index | e]; [| by rewrite errorFatal_run in Hrun].
    destruct (Hinv1 _ eq_refl) as (bytes & raw & Hf & Hs & Hm & Hc).
    destruct (EXIFgetValue_returns index tagNameDateTime w1) as (v & w2 & Hv & Hinv).
    rewrite (bind_done _ _ _ _ _ Hv) in Hrun.
    destruct v as [[whenStr | shown] | e]; try (by rewrite errorFatal_run in Hrun).
    destruct (Hinv _ eq_refl) as (entry & Hentries & Hvalue).
    destruct (Parse "2006:01:02 15:04:05" whenStr) as [when | e] eqn:Hp;
      [| by rewrite errorFatal_run in Hrun].
    exists when. left. by exists bytes, raw, index, entry, whenStr.
  + destruct (bool_decide (ToLower (Ext source) = ".mp4")) eqn:Hmp4;
      [| by rewrite errorFatal_run in Hrun].
    apply bool_decide_eq_true in Hmp4.
    unfold mp4Case, MP4getMetadata, bind, open, read, Open, Read, ret in Hrun.
    cbn -[errorFatal] in Hrun.
    destruct (files w !! source) as [[bytes |] |] eqn:Hf; cbn -[errorFatal] in Hrun;
      rewrite ?Hf in Hrun; cbn -[errorFatal] in Hrun.
    * destruct (ExtractBoxWithPayload bytes) as [metadata | e] eqn:Hx;
        [| by rewrite errorFatal_run in Hrun].
      destruct metadata as [| [payload] rest]; [by rewrite errorFatal_run in Hrun |].
      destruct rest as [| ? ?]; [| by rewrite errorFatal_run in Hrun].
      cbn [Payload] in Hrun.
      destruct payload as [v | shown]; [| by rewrite errorFatal_run in Hrun].
      exists (mvhdTime v). right. by exists bytes, v.
    * by rewrite errorFatal_run in Hrun.
    * destruct (files w !! parent source) as [[c |] |]; cbn -[errorFatal] in Hrun;
        by rewrite errorFatal_run in Hrun.
Qed.

(** X12.  The switch of [main] hands on two paths exactly for the sources
    that carry their time: a picture that can be read and decoded,
    with one date tag that is a string and parses, or a film that can
    be read and decoded with one [mvhd] box.  For every other source the
    process ends in the switch. *)
Theorem switch_succeeds_iff source target (w : World) :
  (∃ found w', switch source target w = (Done found, w'))
  ↔ ∃ when, readsTime source (files w) when.
Proof.
  split.
  - intros (found & w' & Hrun). by apply (switch_done_reads source target w w' found).
  - intros (when & Hreads). eexists _, _.
    by apply (switch_reads source target (files w) when w).
Qed.

End WithEnvironment.

Lemma EXIFgetValue_lookup_witness :
  EXIFgetValue (exampleIndex exampleBytes) "Date Time" tagIDDateTime (start exampleFiles)
  = (Done (Ok (StringValue "2023:06:15 14:30:05")), start exampleFiles)
  ∧ ∃ w', EXIFgetValue (exampleIndex []) "Date Time" tagIDDateTime (start exampleFiles)
          = (Done (Err (Wrapped "find EXIF tag"
                          (ErrorString "invalid memory address or nil pointer dereference"))),
             w').
Proof.
  destruct (EXIFgetValue_lookup (exampleIndex exampleBytes) "Date Time"
              (start exampleFiles)) as (Hroot & _).
  destruct (EXIFgetValue_lookup (exampleIndex []) "Date Time" (start exampleFiles))
    as (_ & _ & _ & Hnone).
  split.
  - apply (Hroot (mkTag "IFD" "DateTime" 0x132 (Ok (StringValue "2023:06:15 14:30:05"))));
      reflexivity.
  - destruct (Hnone ErrTagNotFound
                (ErrorString "invalid memory address or nil pointer dereference"))
      as (w' & Hrun & _); [reflexivity | reflexivity |].
    by exists w'.
Defined.

Lemma switch_succeeds_iff_witness :
  ∃ found w',
    @switch (exampleEnvironment UTC) "/dcim/IMG_001.JPG" "/archive" (start exampleFiles)
    = (Done found, w').
Proof.
  apply (@switch_succeeds_iff (exampleEnvironment UTC)).
  exists (Date 2023 6 15 14 30 5).
  apply EndToEndExamples.example_readsTime. reflexivity.
Defined.

End Decoding.

(** ** Parsing the text of a date *)

Module Dates.
Import GoStrings GoErrors Filepath GoTime OS Media Gardepro Spec.
Import StringFacts TimeFacts Runs RunFacts PathFacts PlacementFacts Decoding.

(** *** Digits read back *)

Lemma digits_checked :
  forallb (λ k, isDigit (digit k) && (digitValue (digit k) =? k)
                && negb (bool_decide (digit k = " "%char)))
          (seqZ 0 10) = true.
Proof. vm_compute. reflexivity. Qed.

Lemma digit_facts (k : Z) :
  0 ≤ k < 10 →
  isDigit (digit k) = true ∧ digitValue (digit k) = k ∧ digit k ≠ " "%char.
Proof.
  intros Hk. pose proof (all_below _ 10 digits_checked k Hk) as H. cbv beta in H.
  rewrite !andb_true_iff, Z.eqb_eq, negb_true_iff, bool_decide_eq_false in H.
  by destruct H as [[? ?] ?].
Qed.

Lemma tens_range (n : Z) : 0 ≤ n < 100 → 0 ≤ n / 10 < 10 ∧ 0 ≤ n mod 10 < 10.
Proof. intros Hn. split; Z.div_mod_to_equations; lia. Qed.

Lemma two_digits_value (n : Z) : n / 10 * 10 + n mod 10 = n.
Proof. Z.div_mod_to_equations. lia. Qed.

Lemma four_digits_value (n : Z) :
  ((n / 1000 * 10 + n / 100 mod 10) * 10 + n / 10 mod 10) * 10 + n mod 10 = n.
Proof. Z.div_mod_to_equations. lia. Qed.

Lemma four_digits_range (n : Z) :
  0 ≤ n < 10000 →
  0 ≤ n / 1000 < 10 ∧ 0 ≤ n / 100 mod 10 < 10 ∧ 0 ≤ n / 10 mod 10 < 10 ∧ 0 ≤ n mod 10 < 10.
Proof.
  intros Hn. split_and!; try (apply Z.mod_pos_bound; lia);
    Z.div_mod_to_equations; lia.
Qed.

(** Two digits that print a number below 100 are read back as it. *)
Lemma getnum_twoDigits (n : Z) (rest : list ascii) (fixed : bool) :
  0 ≤ n < 100 →
  getnum (digit (n / 10) :: digit (n mod 10) :: rest) fixed = Ok (n, rest).
Proof.
  intros Hn. destruct (tens_range n Hn) as [Ht Hu].
  destruct (digit_facts _ Ht) as (Ha & Hav & _).
  destruct (digit_facts _ Hu) as (Hb & Hbv & _).
  unfold getnum. rewrite Ha, Hb, Hav, Hbv. by rewrite two_digits_value.
Qed.

Lemma chunks_parseLayout :
  chunks 0 "2006:01:02 15:04:05"
  = [stdLongYear; literal ":"%char; stdZeroMonth; literal ":"%char; stdZeroDay;
     literal " "%char; stdHour; literal ":"%char; stdZeroMinute; literal ":"%char;
     stdZeroSecond].
Proof. vm_compute. reflexivity. Qed.

Lemma inRange_true lo x hi : lo ≤ x < hi → inRange lo x hi = true.
Proof. intros H. unfold inRange. apply andb_true_iff. rewrite Z.leb_le, Z.ltb_lt. lia. Qed.

Section Fields.
Variables (f : fields) (rest : list ascii).

Lemma parse_year (n : Z) :
  0 ≤ n < 10000 →
  parseChunk stdLongYear f
    (digit (n / 1000) :: digit (n / 100 mod 10) :: digit (n / 10 mod 10)
       :: digit (n mod 10) :: rest)
  = Ok (mkFields n (month f) (day f) (hour f) (min f) (sec f), rest).
Proof.
  intros Hn. destruct (four_digits_range n Hn) as (R3 & R2 & R1 & R0).
  destruct (digit_facts _ R3) as (D3 & V3 & _).
  destruct (digit_facts _ R2) as (D2 & V2 & _).
  destruct (digit_facts _ R1) as (D1 & V1 & _).
  destruct (digit_facts _ R0) as (D0 & V0 & _).
  unfold parseChunk. by rewrite D3, D2, D1, D0, V3, V2, V1, V0, four_digits_value.
Qed.

Lemma parse_colon :
  parseChunk (literal ":"%char) f (":"%char :: rest) = Ok (f, rest).
Proof. reflexivity. Qed.

Lemma parse_space (n : Z) (more : list ascii) :
  0 ≤ n < 10 →
  parseChunk (literal " "%char) f (" "%char :: digit n :: more) = Ok (f, digit n :: more).
Proof.
  intros Hn. destruct (digit_facts _ Hn) as (_ & _ & Hsp).
  unfold parseChunk. cbn [cutspace]. rewrite !bool_decide_eq_true_2 by done.
  by rewrite (bool_decide_eq_false_2 _ Hsp).
Qed.

Lemma parse_month (n : Z) :
  1 ≤ n ≤ 12 →
  parseChunk stdZeroMonth f (digit (n / 10) :: digit (n mod 10) :: rest)
  = Ok (mkFields (year f) n (day f) (hour f) (min f) (sec f), rest).
Proof.
  intros Hn. unfold parseChunk.
  rewrite getnum_twoDigits by lia. by rewrite inRange_true by lia.
Qed.

Lemma parse_day (n : Z) :
  0 ≤ n < 100 →
  parseChunk stdZeroDay f (digit (n / 10) :: digit (n mod 10) :: rest)
  = Ok (mkFields (year f) (month f) n (hour f) (min f) (sec f), rest).
Proof. intros Hn. unfold parseChunk. by rewrite getnum_twoDigits by lia. Qed.

Lemma parse_hour (n : Z) :
  0 ≤ n ≤ 23 →
  parseChunk stdHour f (digit (n / 10) :: digit (n mod 10) :: rest)
  = Ok (mkFields (year f) (month f) (day f) n (min f) (sec f), rest).
Proof.
  intros Hn. unfold parseChunk.
  rewrite getnum_twoDigits by lia. by rewrite inRange_true by lia.
Qed.

Lemma parse_minute (n : Z) :
  0 ≤ n ≤ 59 →
  parseChunk stdZeroMinute f (digit (n / 10) :: digit (n mod 10) :: rest)
  = Ok (mkFields (year f) (month f) (day f) (hour f) n (sec f), rest).
Proof.
  intros Hn. unfold parseChunk.
  rewrite getnum_twoDigits by lia. by rewrite inRange_true by lia.
Qed.

Lemma parse_second (n : Z) :
  0 ≤ n ≤ 59 →
  parseChunk stdZeroSecond f [digit (n / 10); digit (n mod 10)]
  = Ok (mkFields (year f) (month f) (day f) (hour f) (min f) n, []).
Proof.
  intros Hn. unfold parseChunk.
  rewrite getnum_twoDigits by lia. by rewrite inRange_true by lia.
Qed.

End Fields.

Lemma bytesOf_dateText (y mo d h mi s : Z) :
  bytesOf (dateText y mo d h mi s)
  = [digit (y / 1000); digit (y / 100 mod 10); digit (y / 10 mod 10); digit (y mod 10);
     ":"%char; digit (mo / 10); digit (mo mod 10);
     ":"%char; digit (d / 10); digit (d mod 10);
     " "%char; digit (h / 10); digit (h mod 10);
     ":"%char; digit (mi / 10); digit (mi mod 10);
     ":"%char; digit (s / 10); digit (s mod 10)].
Proof. unfold dateText. rewrite !bytesOf_app. reflexivity. Qed.

(** The text of a valid calendar time parses to the time built from
    it. *)
Lemma Parse_dateText (y mo d h mi s : Z) :
  validCalendar y mo d h mi s →
  Parse "2006:01:02 15:04:05" (dateText y mo d h mi s) = Ok (Date y mo d h mi s).
Proof.
  intros (Hy & Hmo & Hd & Hh & Hmi & Hs).
  pose proof (daysIn_le_31 mo y) as H31.
  destruct (tens_range h ltac:(lia)) as [Rh _].
  unfold Parse. rewrite chunks_parseLayout, bytesOf_dateText.
  cbn [parseChunks].
  rewrite parse_year by lia. rewrite parse_colon. rewrite parse_month by lia.
  rewrite parse_colon. rewrite parse_day by lia. rewrite parse_space by lia.
  rewrite parse_hour by lia. rewrite parse_colon. rewrite parse_minute by lia.
  rewrite parse_colon. rewrite parse_second by lia.
  cbn [year month day hour min sec].
  assert ((d <? 1) || (daysIn mo y <? d) = false) as ->; [| done].
  apply orb_false_iff. rewrite !Z.ltb_ge. lia.
Qed.

End Dates.

(** ** The names of the copies *)

Module Naming.
Import GoStrings GoErrors Filepath GoTime OS Media Gardepro Spec.
Import StringFacts TimeFacts Runs RunFacts PathFacts PlacementFacts Dates.

(** *** The numbers that a time shows *)

(** The month and the day of a date take two digits. *)
Lemma dateInCycle_rough (doe : Z) :
  0 ≤ doe < 146097 →
  0 ≤ (dateInCycle doe).1.2 < 100 ∧ 0 ≤ (dateInCycle doe).2 < 100.
Proof.
  intros Hd. unfold dateInCycle. cbv zeta. cbn [fst snd].
  set (yoe := (doe - doe / 1460 + doe / 36524 - doe / 146096) / 365).
  set (doy := doe - (365 * yoe + yoe / 4 - yoe / 100)).
  assert (-50 ≤ doy < 500) as Hdoy.
  { unfold doy, yoe. Z.div_mod_to_equations. lia. }
  clearbody doy. clear yoe.
  destruct ((5 * doy + 2) / 153 <? 10) eqn:E.
  - apply Z.ltb_lt in E. split; Z.div_mod_to_equations; lia.
  - apply Z.ltb_ge in E. split; Z.div_mod_to_equations; lia.
Qed.

Lemma civil_rough (days : Z) :
  0 ≤ (civil days).1.2 < 100 ∧ 0 ≤ (civil days).2 < 100.
Proof.
  unfold civil. cbv zeta.
  assert (0 ≤ (days + 719468) mod 146097 < 146097) as Hr by (apply Z.mod_pos_bound; lia).
  pose proof (dateInCycle_rough _ Hr) as H.
  by destruct (dateInCycle ((days + 719468) mod 146097)) as [[yoe m] d].
Qed.

(** The years of the days from the last of 1903 to the seventh of
    February 2040. *)
Lemma civil_year_film (day : Z) :
  -24108 ≤ day ≤ 25604 → 1903 ≤ (civil day).1.1 ≤ 2040.
Proof.
  intros Hd. unfold civil, dateInCycle. cbv zeta. cbn [fst snd].
  set (z := day + 719468).
  assert (695360 ≤ z ≤ 745072) as Hz by (unfold z; lia). clearbody z. clear Hd day.
  set (era := z / 146097). set (doe := z mod 146097).
  assert (z = era * 146097 + doe ∧ 0 ≤ doe < 146097) as [Hzd Hdoe].
  { unfold era, doe. Z.div_mod_to_equations. lia. }
  clearbody era doe.
  set (yoe := (doe - doe / 1460 + doe / 36524 - doe / 146096) / 365).
  set (doy := doe - (365 * yoe + yoe / 4 - yoe / 100)).
  assert (era = 4 ∨ era = 5) as Hera by lia.
  destruct Hera as [-> | ->].
  - assert (110972 ≤ doe) by lia.
    assert (303 ≤ yoe ≤ 399) as Hy.
    { unfold yoe. Z.div_mod_to_equations. lia. }
    clearbody doy.
    destruct ((5 * doy + 2) / 153 <? 10) eqn:E; case_match; lia.
  - assert (doe ≤ 14587) by lia.
    assert (0 ≤ yoe ≤ 39) as Hy.
    { unfold yoe. Z.div_mod_to_equations. lia. }
    clearbody doy.
    destruct ((5 * doy + 2) / 153 <? 10) eqn:E; case_match; lia.
Qed.

Lemma Month_range (t : Time) : 0 ≤ Month t < 100.
Proof. unfold Month. pose proof (civil_rough (abs t / secondsPerDay)). lia. Qed.

Lemma Day_range (t : Time) : 0 ≤ Day t < 100.
Proof. unfold Day. pose proof (civil_rough (abs t / secondsPerDay)). lia. Qed.

Lemma Hour_range (t : Time) : 0 ≤ Hour t < 100.
Proof. unfold Hour, secondsPerDay. Z.div_mod_to_equations. lia. Qed.

Lemma Minute_range (t : Time) : 0 ≤ Minute t < 100.
Proof. unfold Minute. Z.div_mod_to_equations. lia. Qed.

Lemma Sec_range (t : Time) : 0 ≤ Sec t < 100.
Proof. unfold Sec. Z.div_mod_to_equations. lia. Qed.

(** *** Digits tell numbers apart *)

Lemma digit_inj (a b : Z) : 0 ≤ a < 10 → 0 ≤ b < 10 → digit a = digit b → a = b.
Proof.
  intros Ha Hb H.
  destruct (digit_facts a Ha) as (_ & <- & _).
  destruct (digit_facts b Hb) as (_ & <- & _).
  by rewrite H.
Qed.

Lemma twoDigits_inj (a b : Z) :
  0 ≤ a < 100 → 0 ≤ b < 100 → twoDigits a = twoDigits b → a = b.
Proof.
  intros Ha Hb H. unfold twoDigits in H. injection H as H1 H0.
  destruct (tens_range a Ha), (tens_range b Hb).
  apply digit_inj in H1; [| done ..]. apply digit_inj in H0; [| done ..].
  rewrite <- (two_digits_value a), <- (two_digits_value b). congruence.
Qed.

Lemma fourDigits_inj (a b : Z) :
  0 ≤ a < 10000 → 0 ≤ b < 10000 → fourDigits a = fourDigits b → a = b.
Proof.
  intros Ha Hb H. unfold fourDigits in H. injection H as H3 H2 H1 H0.
  destruct (four_digits_range a Ha) as (? & ? & ? & ?).
  destruct (four_digits_range b Hb) as (? & ? & ? & ?).
  apply digit_inj in H3; [| done ..]. apply digit_inj in H2; [| done ..].
  apply digit_inj in H1; [| done ..]. apply digit_inj in H0; [| done ..].
  rewrite <- (four_digits_value a), <- (four_digits_value b). congruence.
Qed.

(** *** The two paths, written out *)

Lemma targetDir_digits (target : string) (when : Time) :
  0 ≤ Year when ≤ 9999 →
  targetDir target when = target +:+ "/" +:+ fourDigits (Year when).
Proof.
  intros Hy. unfold targetDir.
  by rewrite Format_targetDirFmt, appendInt_fourDigits by lia.
Qed.

Lemma targetPath_digits (target : string) (when : Time) (source : string) :
  0 ≤ Year when ≤ 9999 →
  targetPath target when source
  = target +:+ "/" +:+ fourDigits (Year when) +:+ "/"
    +:+ datedName (Month when) (Day when) (Hour when) (Minute when) (Sec when)
          (Base source).
Proof.
  intros Hy. unfold targetPath, datedName.
  rewrite Format_fileDateStubFmt, appendInt_fourDigits by lia.
  rewrite !appendInt_twoDigits
    by first [apply Month_range | apply Day_range | apply Hour_range
             | apply Minute_range | apply Sec_range].
  by rewrite !append_assoc.
Qed.

Section WithEnvironment.
Context {env : Environment}.

(** X13.  A picture is named by the digits of its tag.  When the date
    tag of a picture holds the text [YYYY:MM:DD HH:MM:SS] of a valid
    calendar time, the switch of [main] gives the directory
    [target/YYYY] and the path [target/YYYY/MM-DD-HH:MM:SS-base], with
    the same digits, whatever the time zone of the machine. *)
Theorem picture_named_by_tag source target (w : World) bytes raw index entry
    (y mo d h mi s : Z) :
  ToLower (Ext source) = ".jpg" ∨ ToLower (Ext source) = ".jpeg" →
  files w !! source = Some (File bytes) →
  SearchAndExtractExif bytes = Ok raw →
  NewIfdMappingWithStandard = None →
  Collect raw = Ok index →
  dateTimeEntries index = Ok [entry] →
  Value entry = Ok (StringValue (dateText y mo d h mi s)) →
  validCalendar y mo d h mi s →
  switch source target w
  = (Done (target +:+ "/" +:+ fourDigits y,
           target +:+ "/" +:+ fourDigits y +:+ "/" +:+ datedName mo d h mi s (Base source)),
     record (ReadCall source) (record (OpenCall source) w)).
Proof.
  intros Hext Hfile Hraw Hmap Hindex Hentry Hvalue Hvalid.
  pose proof (Parse_dateText _ _ _ _ _ _ Hvalid) as Hparse.
  destruct Hvalid as (Hy & Hmo & Hd & Hh & Hmi & Hs).
  destruct (Date_shows y mo d h mi s Hmo Hd Hh Hmi Hs) as (Ey & Emo & Ed & Eh & Emi & Es).
  rewrite (switch_reads source target (files w) (Date y mo d h mi s) w); [| | done].
  - rewrite targetDir_digits, targetPath_digits by (rewrite Ey; lia).
    by rewrite Ey, Emo, Ed, Eh, Emi, Es.
  - left. exists bytes, raw, index, entry, (dateText y mo d h mi s). by split_and!.
Qed.

(** X14.  A film goes to a year from 1903 to 2040.  The creation time of
    an [mvhd] box is taken as an unsigned 32-bit count of seconds from
    1904, so with a time zone at most a day from UTC the directory of a
    film is always [target/YYYY] with a year of four digits in that
    range. *)
Theorem film_year_range (target : string) (v : Z) :
  (∀ u, -86400 ≤ localTimeZone u ≤ 86400) →
  1903 ≤ Year (mvhdTime v) ≤ 2040
  ∧ targetDir target (mvhdTime v) = target +:+ "/" +:+ fourDigits (Year (mvhdTime v)).
Proof.
  intros Hzone.
  assert (1903 ≤ Year (mvhdTime v) ≤ 2040) as Hy; [| split; [done |]].
  - assert (0 ≤ v mod 2 ^ 32 < 4294967296) as Hv by (apply Z.mod_pos_bound; lia).
    unfold Year, abs.
    assert (unix (mvhdTime v) = -2082844800 + v mod 2 ^ 32) as ->.
    { unfold mvhdTime, In, Add, mulDuration, uint32, Second. cbn [unix].
      rewrite wrap64_small
        by (change (2 ^ 63) with 9223372036854775808; lia).
      rewrite Z.mul_comm, Z.quot_mul by lia. f_equal. }
    cbn [loc mvhdTime In].
    generalize dependent (v mod 2 ^ 32). intros m Hm.
    pose proof (Hzone (-2082844800 + m)) as Hu.
    apply civil_year_film. unfold secondsPerDay.
    generalize dependent (localTimeZone (-2082844800 + m)). intros off Hoff.
    split; [apply Z.div_le_lower_bound; lia |].
    apply Z.lt_succ_r, Z.div_lt_upper_bound; lia.
  - apply targetDir_digits. lia.
Qed.

End WithEnvironment.

(** X15.  Different moments or names, different places.  For times in
    the years 0 to 9999, two sources get the same path under a target
    root only when their times show the same date and time of day, to
    the second, and their paths end in the same name. *)
Theorem targetPath_injective (target : string) (when1 when2 : Time)
    (source1 source2 : string) :
  0 ≤ Year when1 ≤ 9999 →
  0 ≤ Year when2 ≤ 9999 →
  targetPath target when1 source1 = targetPath target when2 source2 →
  shows when1 (Year when2) (Month when2) (Day when2) (Hour when2) (Minute when2)
    (Sec when2)
  ∧ Base source1 = Base source2.
Proof.
  intros Hy1 Hy2 H.
  rewrite !targetPath_digits in H by done.
  apply (inj (String.app target)) in H.
  unfold datedName in H.
  cbv [String.append fourDigits twoDigits] in H.
  injection H as E3 E2 E1 E0 Emo1 Emo0 Ed1 Ed0 Eh1 Eh0 Emi1 Emi0 Es1 Es0 Eb.
  split; [| done]. unfold shows. split_and!.
  - apply fourDigits_inj; [lia | lia |]. unfold fourDigits. congruence.
  - apply twoDigits_inj; [apply Month_range .. |]. unfold twoDigits. congruence.
  - apply twoDigits_inj; [apply Day_range .. |]. unfold twoDigits. congruence.
  - apply twoDigits_inj; [apply Hour_range .. |]. unfold twoDigits. congruence.
  - apply twoDigits_inj; [apply Minute_range .. |]. unfold twoDigits. congruence.
  - apply twoDigits_inj; [apply Sec_range .. |]. unfold twoDigits. congruence.
Qed.

(** X16.  The file lies in the directory of its year.  For a source
    whose name has an extension, the path of the copy is the directory
    that [main] checks and creates, one separator, and a name without a
    separator: creating that one directory is enough for the copy. *)
Theorem destination_in_year_directory (target : string) (when : Time) (source : string) :
  Ext source ≠ "" →
  ∃ name, targetPath target when source = targetDir target when +:+ "/" +:+ name
          ∧ name ≠ ""
          ∧ hasSeparator name = false.
Proof.
  intros Hext.
  exists (appendInt (Month when) 2 +:+ "-" +:+ appendInt (Day when) 2 +:+ "-"
          +:+ appendInt (Hour when) 2 +:+ ":" +:+ appendInt (Minute when) 2 +:+ ":"
          +:+ appendInt (Sec when) 2 +:+ "-" +:+ Base source).
  split_and!.
  - unfold targetPath, targetDir.
    rewrite Format_fileDateStubFmt, Format_targetDirFmt. by rewrite !append_assoc.
  - apply append_not_empty. by rewrite append_cons.
  - rewrite !hasSeparator_app, !appendInt_no_separator, (Ext_Base _ Hext). done.
Qed.

(** *** Examples *)

Lemma picture_named_by_tag_witness :
  @switch (exampleEnvironment (λ _, -28800)) "/dcim/IMG_001.JPG" "/archive"
    (start exampleFiles)
  = (Done ("/archive/2023", "/archive/2023/06-15-14:30:05-IMG_001.JPG"),
     record (ReadCall "/dcim/IMG_001.JPG")
       (record (OpenCall "/dcim/IMG_001.JPG") (start exampleFiles))).
Proof.
  assert (validCalendar 2023 6 15 14 30 5) as Hvalid.
  { unfold validCalendar. change (daysIn 6 2023) with 30. lia. }
  apply (@picture_named_by_tag (exampleEnvironment (λ _, -28800)) "/dcim/IMG_001.JPG"
           "/archive" (start exampleFiles) exampleBytes exampleBytes
           (exampleIndex exampleBytes)
           (mkTag "IFD" "DateTime" 0x132 (Ok (StringValue "2023:06:15 14:30:05")))
           2023 6 15 14 30 5);
    [by left | reflexivity | reflexivity | reflexivity | reflexivity | reflexivity
    | reflexivity | exact Hvalid].
Defined.

Lemma film_year_range_witness :
  1903 ≤ Year (@mvhdTime (exampleEnvironment UTC) 3786912345) ≤ 2040
  ∧ targetDir "/archive" (@mvhdTime (exampleEnvironment UTC) 3786912345)
    = "/archive" +:+ "/" +:+ fourDigits (Year (@mvhdTime (exampleEnvironment UTC) 3786912345)).
Proof.
  apply (@film_year_range (exampleEnvironment UTC) "/archive" 3786912345).
  intros u. change (-86400 ≤ 0 ≤ 86400). lia.
Defined.

Lemma targetPath_injective_witness :
  shows (Date 2023 6 15 14 30 5) (Year (Date 2023 6 15 14 30 5))
    (Month (Date 2023 6 15 14 30 5)) (Day (Date 2023 6 15 14 30 5))
    (Hour (Date 2023 6 15 14 30 5)) (Minute (Date 2023 6 15 14 30 5))
    (Sec (Date 2023 6 15 14 30 5))
  ∧ Base "/dcim/IMG_001.JPG" = Base "/card/100MEDIA/IMG_001.JPG".
Proof.
  assert (Year (Date 2023 6 15 14 30 5) = 2023) as Hy by (vm_compute; reflexivity).
  apply (targetPath_injective "/archive" (Date 2023 6 15 14 30 5)
           (Date 2023 6 15 14 30 5) "/dcim/IMG_001.JPG" "/card/100MEDIA/IMG_001.JPG");
    [rewrite Hy; lia | rewrite Hy; lia | vm_compute; reflexivity].
Defined.

Lemma destination_in_year_directory_witness :
  ∃ name,
    targetPath "/archive" (Date 2023 6 15 14 30 5) "/dcim/IMG_001.JPG"
    = targetDir "/archive" (Date 2023 6 15 14 30 5) +:+ "/" +:+ name
    ∧ name ≠ "" ∧ hasSeparator name = false.
Proof.
  apply (destination_in_year_directory "/archive" (Date 2023 6 15 14 30 5)
           "/dcim/IMG_001.JPG").
  vm_compute. discriminate.
Defined.

End Naming.

(** ** The last call of a run *)

Module Endings.
Import GoStrings GoErrors Filepath GoTime OS Media Gardepro Spec.
Import StringFacts TimeFacts Runs RunFacts.

Lemma bind_done_inv {A B} (m : M A) (k : A → M B) (w w' : World) (b : B) :
  bind m k w = (Done b, w') → ∃ a w1, m w = (Done a, w1) ∧ k a w1 = (Done b, w').
Proof.
  unfold bind. destruct (m w) as [[a | message err] w1]; [| discriminate].
  intros H. by exists a, w1.
Qed.

Lemma logCalls_last (w : World) l e message :
  ∃ fields, last (logCalls w l e message) = Some (Logged l message fields).
Proof. unfold logCalls. destruct (out (logger w)); by eexists. Qed.

Lemma logged_last (w : World) l e message :
  ∃ fields, last (trace (logged w l e message)) = Some (Logged l message fields).
Proof.
  destruct (logCalls_last w l e message) as [fields Hl]. exists fields.
  rewrite logged_trace. unfold logCalls in *.
  destruct (out (logger w)); simplify_eq/=; by rewrite last_app.
Qed.

Lemma returns_fatalLogged {A} (m : M A) : returns m → fatalLogged m.
Proof. intros Hm w message err w' H. destruct (Hm w) as (a & w1 & E). congruence. Qed.

Lemma fatalLogged_bind {A B} (m : M A) (k : A → M B) :
  fatalLogged m → (∀ a, fatalLogged (k a)) → fatalLogged (bind m k).
Proof.
  intros Hm Hk w message err w' H. unfold bind in H.
  destruct (m w) as [[a | message1 err1] w1] eqn:E.
  - by apply (Hk a w1).
  - simplify_eq. by apply (Hm w).
Qed.

Lemma fatalLogged_ret {A} (a : A) : fatalLogged (ret a).
Proof. apply returns_fatalLogged. intros w. by eexists _, _. Qed.

Lemma fatalLogged_Msg l e message : fatalLogged (Msg l e message).
Proof. apply returns_fatalLogged. intros w. rewrite Msg_run. by eexists _, _. Qed.

Lemma fatalLogged_errorFatal {A} message err extra :
  fatalLogged (@errorFatal A message err extra).
Proof.
  intros w message' err' w' H. rewrite errorFatal_run in H. simplify_eq. split.
  - apply logged_last.
  - rewrite logged_trace. cbn. set_solver.
Qed.

Lemma returns_bind {A B} (m : M A) (k : A → M B) :
  returns m → (∀ a, returns (k a)) → returns (bind m k).
Proof.
  intros Hm Hk w. destruct (Hm w) as (a & w1 & E).
  rewrite (bind_done _ _ _ _ _ E). apply Hk.
Qed.

Lemma returns_ret {A} (a : A) : returns (ret a).
Proof. intros w. by eexists _, _. Qed.

Lemma returns_stat path : returns (stat path).
Proof. intros w. by eexists _, _. Qed.

Lemma returns_open path : returns (open path).
Proof. intros w. by eexists _, _. Qed.

Lemma returns_read path : returns (read path).
Proof. intros w. by eexists _, _. Qed.

Lemma returns_mkdir path : returns (mkdir path).
Proof. intros w. unfold mkdir. destruct (Mkdir (files w) path). by eexists _, _. Qed.

Lemma returns_create path : returns (create path).
Proof. intros w. unfold create. destruct (Create (files w) path). by eexists _, _. Qed.

Lemma returns_write path bytes : returns (write path bytes).
Proof. intros w. by eexists _, _. Qed.

Lemma returns_addContext key val : returns (addContext key val).
Proof. intros w. by eexists _, _. Qed.

Lemma returns_Msg l e message : returns (Msg l e message).
Proof. intros w. rewrite Msg_run. by eexists _, _. Qed.

(** The functions that [main] calls report their errors as values:
    none of them ends the process. *)
Lemma returns_checkTargetDir path : returns (checkTargetDir path).
Proof.
  unfold checkTargetDir. apply returns_bind; [apply returns_stat |].
  intros [info | err].
  - destruct (negb (IsDir info)); apply returns_ret.
  - destruct (IsNotExist err); [| apply returns_ret].
    apply returns_bind; [apply returns_mkdir |]. intros [e |]; apply returns_ret.
Qed.

Lemma returns_compareFile a b : returns (compareFile a b).
Proof.
  unfold compareFile. apply returns_bind; [apply returns_open |].
  intros [e |]; [apply returns_ret |].
  apply returns_bind; [apply returns_open |].
  intros [e |]; [apply returns_ret |].
  apply returns_bind; [apply returns_read | intros c1].
  apply returns_bind; [apply returns_read | intros c2].
  destruct c1, c2; apply returns_ret.
Qed.

Lemma returns_copyFile source target : returns (copyFile source target).
Proof.
  unfold copyFile. apply returns_bind; [apply returns_open |].
  intros [e |]; [apply returns_ret |].
  apply returns_bind; [apply returns_create |].
  intros [e |]; [apply returns_ret |].
  apply returns_bind; [apply returns_read |].
  intros [bytes | e]; [| apply returns_ret].
  apply returns_bind; [apply returns_write | intros _; apply returns_ret].
Qed.

Lemma returns_copySourceToTarget source target extra :
  returns (copySourceToTarget source target extra).
Proof.
  unfold copySourceToTarget. apply returns_bind; [apply returns_stat |].
  intros [info | err].
  - apply returns_bind; [apply returns_compareFile |].
    intros [[|] | e]; try apply returns_ret.
    apply returns_bind; [apply returns_Msg | intros _; apply returns_ret].
  - destruct (IsNotExist err); [| apply returns_ret].
    apply returns_bind; [apply returns_copyFile |].
    intros [e |]; [apply returns_ret |].
    apply returns_bind; [apply returns_Msg | intros _; apply returns_ret].
Qed.

Section WithEnvironment.
Context {env : Environment}.

Lemma returns_logTags tags : returns (logTags tags).
Proof.
  induction tags as [|t tags IH]; cbn [logTags]; [apply returns_ret |].
  apply returns_bind; [apply returns_Msg | by intros _].
Qed.

Lemma returns_EXIFgetIndex path : returns (EXIFgetIndex path).
Proof.
  unfold EXIFgetIndex. apply returns_bind.
  - unfold readFile. apply returns_bind; [apply returns_open |].
    intros [e |]; [apply returns_ret | apply returns_read].
  - intros r. repeat case_match; apply returns_ret.
Qed.

Lemma returns_EXIFgetValue index tagName tagID :
  returns (EXIFgetValue index tagName tagID).
Proof.
  unfold EXIFgetValue. cbv zeta. case_match.
  - repeat case_match; apply returns_ret.
  - apply returns_bind; [apply returns_Msg | intros _].
    apply returns_bind.
    { unfold EXIFenumerateIndex.
      apply returns_bind; [apply returns_logTags | intros _; apply returns_ret]. }
    intros r. apply returns_bind; [| intros _; apply returns_ret].
    destruct r; [apply returns_Msg | apply returns_ret].
Qed.

Lemma returns_MP4getMetadata path : returns (MP4getMetadata path).
Proof.
  unfold MP4getMetadata. apply returns_bind; [apply returns_open |].
  intros [e |]; [apply returns_ret |].
  apply returns_bind; [apply returns_read |]. intros [b | e]; apply returns_ret.
Qed.

Lemma fatalLogged_switch source target : fatalLogged (switch source target).
Proof.
  unfold switch. cbv zeta. repeat case_match.
  - unfold jpgCase.
    apply fatalLogged_bind; [apply returns_fatalLogged, returns_EXIFgetIndex |].
    intros [index | e]; [| apply fatalLogged_errorFatal].
    apply fatalLogged_bind; [apply returns_fatalLogged, returns_EXIFgetValue |].
    intros r. repeat case_match; try apply fatalLogged_errorFatal. apply fatalLogged_ret.
  - unfold mp4Case.
    apply fatalLogged_bind; [apply returns_fatalLogged, returns_MP4getMetadata |].
    intros r. repeat case_match; try apply fatalLogged_errorFatal. apply fatalLogged_ret.
  - apply fatalLogged_errorFatal.
Qed.

Lemma fatalLogged_afterSwitch source found : fatalLogged (afterSwitch source found).
Proof.
  unfold afterSwitch. cbv zeta.
  apply fatalLogged_bind.
  { repeat case_match; first [apply fatalLogged_errorFatal | apply fatalLogged_ret]. }
  intros _. apply fatalLogged_bind; [apply returns_fatalLogged, returns_checkTargetDir |].
  intros e1. apply fatalLogged_bind.
  { destruct e1; [apply fatalLogged_errorFatal | apply fatalLogged_ret]. }
  intros _.
  apply fatalLogged_bind; [apply returns_fatalLogged, returns_copySourceToTarget |].
  intros e2. apply fatalLogged_bind; [| intros _; apply fatalLogged_Msg].
  destruct e2; [apply fatalLogged_errorFatal | apply fatalLogged_ret].
Qed.

Lemma fatalLogged_afterLog source target : fatalLogged (afterLog source target).
Proof.
  unfold afterLog.
  apply fatalLogged_bind; [apply returns_fatalLogged, returns_addContext | intros _].
  apply fatalLogged_bind; [apply returns_fatalLogged, returns_addContext | intros _].
  apply fatalLogged_bind; [apply fatalLogged_Msg | intros _].
  apply fatalLogged_bind; [apply fatalLogged_switch | intros found].
  apply fatalLogged_afterSwitch.
Qed.

(** When the part of [main] after the log set-up returns, the last
    call is the event that was deferred. *)
Lemma afterLog_done source target (w w' : World) (a : unit) :
  afterLog source target w = (Done a, w') →
  ∃ fields, last (trace w') = Some (Logged InfoLevel "GardePro finished" fields).
Proof.
  unfold afterLog. intros H.
  apply bind_done_inv in H as (? & ? & _ & H).
  apply bind_done_inv in H as (? & ? & _ & H).
  apply bind_done_inv in H as (? & ? & _ & H).
  apply bind_done_inv in H as (found & ? & _ & H).
  unfold afterSwitch in H. cbv zeta in H.
  apply bind_done_inv in H as (? & ? & _ & H).
  apply bind_done_inv in H as (? & ? & _ & H).
  apply bind_done_inv in H as (? & ? & _ & H).
  apply bind_done_inv in H as (? & ? & _ & H).
  apply bind_done_inv in H as (? & ? & _ & H).
  rewrite Msg_run in H. simplify_eq. apply logged_last.
Qed.

(** X17.  The last call of a run tells how it ended, from the command
    line on.  A run that leaves through [errorFatal] has shown the
    dialog "Fatal Error" with the text of the error, and its last call
    is the fatal event with the message it left with: the deferred
    "GardePro finished" is not logged.  A run that returns ends with
    "GardePro finished", or, when it returned before the log was set
    up, with the dialog about the flags, which shows the error of the
    parser or names the missing flag, or with the dialog about the log
    file. *)
Theorem main_last_call (parsed : Result Flags) (w : World) :
  match mainFrom parsed w with
  | (Fatal message err, w') =>
      (∃ fields, last (trace w') = Some (Logged FatalLevel message fields))
      ∧ DialogError "Fatal Error" (fatalText message err) ∈ trace w'
  | (Done _, w') =>
      (∃ err, parsed = Err err
              ∧ last (trace w')
                = Some (DialogError "Error parsing command line flags" (Error err)))
      ∨ (∃ flags, parsed = Ok flags
                  ∧ (flagSource flags = "" ∨ flagTarget flags = "")
                  ∧ last (trace w')
                    = Some (DialogError "Error parsing command line flags"
                              "Missing command line flag -source or -target"))
      ∨ (∃ err, last (trace w') = Some (DialogError "Log File Creation" (Error err)))
      ∨ ∃ fields, last (trace w') = Some (Logged InfoLevel "GardePro finished" fields)
  end.
Proof.
  destruct parsed as [[console logFile source target] | err]; cbn [mainFrom].
  2: { left. exists err. split; [done |]. cbn. by rewrite last_snoc. }
  cbn [flagConsole flagLog flagSource flagTarget].
  rewrite main_parts.
  destruct (bool_decide (source = "") || bool_decide (target = "")) eqn:Hflags.
  { right. left. eexists. split; [done |]. cbn [flagSource flagTarget]. split.
    - apply orb_true_iff in Hflags as [H | H]; apply bool_decide_eq_true in H; auto.
    - cbn. by rewrite last_snoc. }
  destruct (openLog_cases console logFile w) as [[_ Hlog] | [e Hlog]].
  - rewrite (bind_done _ _ _ _ _ Hlog). cbn [negb].
    destruct (afterLog source (TrimSuffix target "/") (logOpened console logFile w))
      as [[a | message err] w'] eqn:Hrun.
    + right. right. right. by apply (afterLog_done _ _ _ _ _ Hrun).
    + by apply (fatalLogged_afterLog _ _ _ _ _ _ Hrun).
  - rewrite (bind_done _ _ _ _ _ Hlog). cbn.
    right. right. left. exists e. by rewrite last_snoc.
Qed.

End WithEnvironment.

End Endings.

(** ** Fatal ends *)

Module Failures.
Import GoStrings GoErrors Filepath GoTime OS Media Gardepro Spec.
Import StringFacts TimeFacts Runs RunFacts PathFacts Endings.

Lemma fatalWith_returns {A} messages (m : M A) : returns m → fatalWith messages m.
Proof. intros Hm w message err H. destruct (Hm w) as (a & w1 & E). by rewrite E in H. Qed.

Lemma fatalWith_bind {A B} messages (m : M A) (k : A → M B) :
  fatalWith messages m → (∀ a, fatalWith messages (k a)) → fatalWith messages (bind m k).
Proof.
  intros Hm Hk w message err H. unfold bind in H.
  destruct (m w) as [[a | message1 err1] w1] eqn:E.
  - exact (Hk a w1 message err H).
  - simplify_eq/=. apply (Hm w message err). by rewrite E.
Qed.

Lemma fatalWith_errorFatal {A} messages message err extra :
  message ∈ messages → fatalWith messages (@errorFatal A message err extra).
Proof. intros Hin w message' err' H. rewrite errorFatal_run in H. by simplify_eq/=. Qed.

Lemma fatalWith_ret {A} messages (a : A) : fatalWith messages (ret a).
Proof. apply fatalWith_returns, returns_ret. Qed.

Section WithEnvironment.
Context {env : Environment}.

Lemma fatalWith_switch source target :
  fatalWith (fatalMessages source) (switch source target).
Proof.
  unfold switch. cbv zeta. repeat case_match.
  - unfold jpgCase.
    apply fatalWith_bind; [apply fatalWith_returns, returns_EXIFgetIndex |].
    intros [index | e]; [| apply fatalWith_errorFatal; set_solver].
    apply fatalWith_bind; [apply fatalWith_returns, returns_EXIFgetValue |].
    intros r. repeat case_match;
      first [apply fatalWith_ret | apply fatalWith_errorFatal; set_solver].
  - unfold mp4Case.
    apply fatalWith_bind; [apply fatalWith_returns, returns_MP4getMetadata |].
    intros r. repeat case_match;
      first [apply fatalWith_ret | apply fatalWith_errorFatal; set_solver].
  - apply fatalWith_errorFatal. set_solver.
Qed.

(** With the two paths of the switch, the checks for an empty path
    are passed. *)
Lemma fatalWith_afterSwitch source target when :
  fatalWith (fatalMessages source)
    (afterSwitch source (targetDir target when, targetPath target when source)).
Proof.
  unfold afterSwitch. cbv zeta. cbn [fst snd].
  rewrite (bool_decide_eq_false_2 _ (targetDir_not_empty target when)).
  rewrite (bool_decide_eq_false_2 _ (targetPath_not_empty target when source)).
  apply fatalWith_bind; [apply fatalWith_ret | intros _].
  apply fatalWith_bind; [apply fatalWith_returns, returns_checkTargetDir |].
  intros e1. apply fatalWith_bind.
  { destruct e1; [apply fatalWith_errorFatal; set_solver | apply fatalWith_ret]. }
  intros _.
  apply fatalWith_bind; [apply fatalWith_returns, returns_copySourceToTarget |].
  intros e2. apply fatalWith_bind; [| intros _; apply fatalWith_returns, returns_Msg].
  destruct e2; [apply fatalWith_errorFatal; set_solver | apply fatalWith_ret].
Qed.

Lemma fatalWith_afterLog source target :
  fatalWith (fatalMessages source) (afterLog source target).
Proof.
  unfold afterLog.
  apply fatalWith_bind; [apply fatalWith_returns, returns_addContext | intros _].
  apply fatalWith_bind; [apply fatalWith_returns, returns_addContext | intros _].
  apply fatalWith_bind; [apply fatalWith_returns, returns_Msg | intros _].
  intros w message err H. unfold bind in H.
  destruct (switch source target w) as [[[d p] | message1 err1] w1] eqn:E.
  - apply switch_paths in E as (when & -> & ->).
    exact (fatalWith_afterSwitch source target when w1 message err H).
  - simplify_eq/=. apply (fatalWith_switch source target w message err). by rewrite E.
Qed.

(** X18.  The messages of a fatal end.  When [main] leaves through
    [errorFatal] its message is one of ten: eight from the switch, among
    them "Unrecognized extension: " with the lower-cased extension of the
    source, then "Check target dir" and "Copy source file to target
    directory".  The messages "No target dir" and "No target path" are
    never given: the two paths that come out of the switch are not
    empty. *)
Theorem main_fatal_messages console logFile source target (w : World) message err :
  (main console logFile source target w).1 = Fatal message err →
  message ∈ fatalMessages source
  ∧ message ≠ "No target dir" ∧ message ≠ "No target path".
Proof.
  intros H.
  assert (message ∈ fatalMessages source) as Hin.
  { rewrite main_parts in H.
    destruct (bool_decide (source = "") || bool_decide (target = "")); [done |].
    destruct (openLog_cases console logFile w) as [[_ Hlog] | [e Hlog]];
      rewrite (bind_done _ _ _ _ _ Hlog) in H; [| done].
    exact (fatalWith_afterLog _ _ _ message err H). }
  split; [done |].
  unfold fatalMessages in Hin.
  split; intros ->;
    repeat (apply elem_of_cons in Hin as [Hin | Hin];
            [try rewrite append_cons in Hin; discriminate |]);
    by apply elem_of_nil in Hin.
Qed.

(** X19.  A source that is not there.  With both flags given and the
    log set up, and nothing at the source path: for a picture [main]
    ends with "Get EXIF index" and the error of opening the file
    wrapped in "getting EXIF from file"; for a film with "Get MP4
    metadata" and the error wrapped in "open file".  No path but the
    log file has changed; the source has not been created. *)
Theorem main_missing_source console logFile source target (fs : gmap string Node) :
  source ≠ "" → target ≠ "" →
  logReady console logFile source fs →
  fs !! source = None →
  ∃ e,
    notThere e
    ∧ (ToLower (Ext source) = ".jpg" ∨ ToLower (Ext source) = ".jpeg" →
       ∃ w', main console logFile source target (start fs)
             = (Fatal "Get EXIF index" (Some (Wrapped "getting EXIF from file" e)), w')
             ∧ ∀ q, console = true ∨ q ≠ logFile → files w' !! q = fs !! q)
    ∧ (ToLower (Ext source) = ".mp4" →
       ∃ w', main console logFile source target (start fs)
             = (Fatal "Get MP4 metadata" (Some (Wrapped "open file" e)), w')
             ∧ ∀ q, console = true ∨ q ≠ logFile → files w' !! q = fs !! q).
Proof.
  intros Hs Ht Hready Hnone.
  assert (logOpens console logFile fs) as Hlog.
  { destruct Hready as [? | [? _]]; [by left | by right]. }
  assert (console = true ∨ source ≠ logFile) as Hsrc.
  { destruct Hready as [? | [_ ?]]; [by left | right; congruence]. }
  set (w := atSwitch console logFile source target fs).
  assert (files w !! source = None) as Hnow.
  { unfold w. by rewrite atSwitch_files. }
  assert (∃ e, notThere e ∧ Open (files w) source = Some e) as (e & He & Hopen).
  { unfold Open, notThere. rewrite Hnow.
    destruct (files w !! parent source) as [[c |] |]; eauto. }
  assert (∀ l ev message d q, console = true ∨ q ≠ logFile →
            files (logged (record d (record (OpenCall source) w)) l ev message) !! q
            = fs !! q) as Hframe.
  { intros l ev message d q Hq. rewrite logged_files.
    - cbn. unfold w. by apply atSwitch_files.
    - cbn. pose proof (atSwitch_sink console logFile source target fs) as Hsink.
      fold w in Hsink. red in Hsink. rewrite Hsink.
      destruct Hq as [-> | Hq]; [done |]. destruct console; [done | congruence]. }
  exists e. split; [done |]. split.
  - intros Hext. eexists. split.
    + apply main_ends_in_switch; [done .. |]. fold w.
      rewrite switch_jpg by done.
      unfold jpgCase, EXIFgetIndex, readFile, bind, open, ret. rewrite Hopen.
      by rewrite errorFatal_run.
    + intros q Hq. by apply Hframe.
  - intros Hext. eexists. split.
    + apply main_ends_in_switch; [done .. |]. fold w.
      rewrite switch_mp4 by done.
      unfold mp4Case, MP4getMetadata, bind, open, ret. rewrite Hopen.
      by rewrite errorFatal_run.
    + intros q Hq. by apply Hframe.
Qed.

End WithEnvironment.

Lemma main_fatal_messages_witness :
  (@main (exampleEnvironment UTC) true "" "/dcim/sketch.png" "/archive" (start exampleFiles)).1
  = Fatal "Unrecognized extension: .png" None
  ∧ "Unrecognized extension: .png" ∈ fatalMessages "/dcim/sketch.png".
Proof.
  assert ((@main (exampleEnvironment UTC) true "" "/dcim/sketch.png" "/archive"
             (start exampleFiles)).1
          = Fatal "Unrecognized extension: .png" None) as Hrun
    by (vm_compute; reflexivity).
  split; [exact Hrun |].
  apply (@main_fatal_messages (exampleEnvironment UTC) true "" "/dcim/sketch.png"
           "/archive" (start exampleFiles) _ None Hrun).
Defined.

Lemma main_missing_source_witness :
  ∃ e w',
    @main (exampleEnvironment UTC) false "/tmp/gardepro.log" "/dcim/IMG_002.JPG" "/archive"
      (start exampleFiles)
    = (Fatal "Get EXIF index" (Some (Wrapped "getting EXIF from file" e)), w')
    ∧ files w' !! "/dcim/IMG_002.JPG" = None.
Proof.
  destruct (@main_missing_source (exampleEnvironment UTC) false "/tmp/gardepro.log"
              "/dcim/IMG_002.JPG" "/archive" exampleFiles)
    as (e & _ & Hjpg & _).
  - discriminate.
  - discriminate.
  - right. split; [vm_compute; reflexivity | discriminate].
  - vm_compute. reflexivity.
  - destruct Hjpg as (w' & Hrun & Hfiles); [left; vm_compute; reflexivity |].
    exists e, w'. split; [exact Hrun |].
    rewrite Hfiles by (right; discriminate). vm_compute. reflexivity.
Defined.

End Failures.

(** ** The paths a run touches *)

Module Confinement.
Import GoStrings GoErrors Filepath GoTime OS Media Gardepro Spec.
Import StringFacts TimeFacts Runs RunFacts PathFacts PlacementFacts.

Section Confined.
Variables (console : bool) (logFile : string) (paths : list string).

Local Abbreviation confined' := (confined console logFile paths).

Lemma confined_ret {A} (a : A) : confined' (ret a).
Proof. intros w Hs. exists []. cbn. by rewrite app_nil_r. Qed.

Lemma confined_exit {A} message err : confined' (@exit A message err).
Proof. intros w Hs. exists []. cbn. by rewrite app_nil_r. Qed.

Lemma confined_bind {A B} (m : M A) (k : A → M B) :
  confined' m → (∀ a, confined' (k a)) → confined' (bind m k).
Proof.
  intros Hm Hk w Hs. destruct (Hm w Hs) as (c1 & Ht1 & Hok1 & Hs1).
  unfold bind. destruct (m w) as [[a | message err] w1] eqn:Hmw; cbn in *.
  - destruct (Hk a w1 Hs1) as (c2 & Ht2 & Hok2 & Hs2).
    exists (c1 ++ c2)%list. rewrite Ht2, Ht1, app_assoc.
    split_and!; [done | by apply Forall_app | done].
  - by exists c1.
Qed.

Lemma onPaths_given (c : Call) (p : string) :
  pathOf c = Some p → p ∈ paths → onPaths console logFile paths c.
Proof. intros Hc Hp. unfold onPaths. rewrite Hc. by left. Qed.

Lemma confined_stat p : p ∈ paths → confined' (stat p).
Proof.
  intros Hp w Hs. exists [StatCall p]. split_and!; [done | | done].
  constructor; [by apply (onPaths_given _ p) | done].
Qed.

Lemma confined_open p : p ∈ paths → confined' (open p).
Proof.
  intros Hp w Hs. exists [OpenCall p]. split_and!; [done | | done].
  constructor; [by apply (onPaths_given _ p) | done].
Qed.

Lemma confined_read p : p ∈ paths → confined' (read p).
Proof.
  intros Hp w Hs. exists [ReadCall p]. split_and!; [done | | done].
  constructor; [by apply (onPaths_given _ p) | done].
Qed.

Lemma confined_mkdir p : p ∈ paths → confined' (mkdir p).
Proof.
  intros Hp w Hs. exists [MkdirCall p]. unfold mkdir.
  destruct (Mkdir (files w) p) as [e fs1]. split_and!; [done | | done].
  constructor; [by apply (onPaths_given _ p) | done].
Qed.

Lemma confined_create p : p ∈ paths → confined' (create p).
Proof.
  intros Hp w Hs. exists [CreateCall p]. unfold create.
  destruct (Create (files w) p) as [e fs1]. split_and!; [done | | done].
  constructor; [by apply (onPaths_given _ p) | done].
Qed.

Lemma confined_write p data : p ∈ paths → confined' (write p data).
Proof.
  intros Hp w Hs. exists [WriteCall p data]. split_and!; [done | | done].
  constructor; [by apply (onPaths_given _ p) | done].
Qed.

Lemma confined_dialog title message : confined' (dialog title message).
Proof.
  intros w Hs. exists [DialogError title message]. split_and!; [done | | done].
  by constructor.
Qed.

Lemma confined_Msg l e message : confined' (Msg l e message).
Proof.
  intros w Hs. rewrite Msg_run. unfold logged. red in Hs. rewrite Hs.
  destruct console; cbn.
  - eexists [_]. split_and!; [done | by constructor | done].
  - eexists [_; _]. split_and!; [by rewrite <- app_assoc | | done].
    constructor; [| by constructor]. unfold onPaths. cbn. by right.
Qed.

Lemma confined_errorFatal {A} message err extra :
  confined' (@errorFatal A message err extra).
Proof.
  unfold errorFatal.
  apply confined_bind; [apply confined_dialog | intros _].
  apply confined_bind; [apply confined_Msg | intros _]. apply confined_exit.
Qed.

Lemma confined_checkTargetDir d : d ∈ paths → confined' (checkTargetDir d).
Proof.
  intros Hd. unfold checkTargetDir. apply confined_bind; [by apply confined_stat |].
  intros [info | err].
  - destruct (negb (IsDir info)); apply confined_ret.
  - destruct (IsNotExist err); [| apply confined_ret].
    apply confined_bind; [by apply confined_mkdir |]. intros [e |]; apply confined_ret.
Qed.

Lemma confined_compareFile a b : a ∈ paths → b ∈ paths → confined' (compareFile a b).
Proof.
  intros Ha Hb. unfold compareFile. apply confined_bind; [by apply confined_open |].
  intros [e |]; [apply confined_ret |].
  apply confined_bind; [by apply confined_open |].
  intros [e |]; [apply confined_ret |].
  apply confined_bind; [by apply confined_read | intros c1].
  apply confined_bind; [by apply confined_read | intros c2].
  destruct c1, c2; apply confined_ret.
Qed.

Lemma confined_copyFile a b : a ∈ paths → b ∈ paths → confined' (copyFile a b).
Proof.
  intros Ha Hb. unfold copyFile. apply confined_bind; [by apply confined_open |].
  intros [e |]; [apply confined_ret |].
  apply confined_bind; [by apply confined_create |].
  intros [e |]; [apply confined_ret |].
  apply confined_bind; [by apply confined_read |].
  intros [bytes | e]; [| apply confined_ret].
  apply confined_bind; [by apply confined_write | intros _; apply confined_ret].
Qed.

Lemma confined_copySourceToTarget a b extra :
  a ∈ paths → b ∈ paths → confined' (copySourceToTarget a b extra).
Proof.
  intros Ha Hb. unfold copySourceToTarget.
  apply confined_bind; [by apply confined_stat |].
  intros [info | err].
  - apply confined_bind; [by apply confined_compareFile |].
    intros [[|] | e]; try apply confined_ret.
    apply confined_bind; [apply confined_Msg | intros _; apply confined_ret].
  - destruct (IsNotExist err); [| apply confined_ret].
    apply confined_bind; [by apply confined_copyFile |].
    intros [e |]; [apply confined_ret |].
    apply confined_bind; [apply confined_Msg | intros _; apply confined_ret].
Qed.

(** What follows the check of the directory in [main]. *)
Lemma confined_placing source d p (e1 : option error) :
  source ∈ paths → p ∈ paths →
  confined'
    (match e1 with
     | Some e => errorFatal "Check target dir" (Some e) (Some (extraTargetFn d p))
     | None => ret tt
     end;;
     let* err := copySourceToTarget source p (extraTargetFn d p) in
     match err with
     | Some e =>
         errorFatal "Copy source file to target directory" (Some e)
           (Some (extraTargetFn d p))
     | None => ret tt
     end;;
     Msg InfoLevel [] "GardePro finished").
Proof.
  intros Hs Hp. apply confined_bind.
  { destruct e1; [apply confined_errorFatal | apply confined_ret]. }
  intros _. apply confined_bind; [by apply confined_copySourceToTarget |].
  intros e2. apply confined_bind; [| intros _; apply confined_Msg].
  destruct e2; [apply confined_errorFatal | apply confined_ret].
Qed.

End Confined.

(** The check of the directory starts with [os.Stat] on it. *)
Lemma checkTargetDir_stats d (w : World) :
  ∃ calls, trace (checkTargetDir d w).2 = (trace w ++ StatCall d :: calls)%list.
Proof.
  unfold checkTargetDir, bind, stat, mkdir, ret. cbn.
  destruct (Stat (files w) d) as [info | err]; cbn.
  - destruct (negb (IsDir info)); by exists [].
  - destruct (IsNotExist err); [| by exists []].
    cbn. destruct (Mkdir (files w) d) as [[e |] fs1]; cbn;
      exists [MkdirCall d]; by rewrite <- app_assoc.
Qed.

End Confinement.

(** ** The target root with and without its trailing separator *)

Module Roots.
Import GoStrings GoErrors Filepath GoTime OS Media Gardepro Spec.
Import StringFacts TimeFacts Runs RunFacts PathFacts PlacementFacts Endings Confinement.

Section WithEnvironment.
Context {env : Environment}.

(** The calls of a run that has reached the target, on a root written
    with its separator. *)
Lemma placement_calls console logFile source r fs when :
  r ≠ "" → HasSuffix r "/" = false →
  logReady console logFile source fs →
  readsTime source fs when →
  StatCall (targetDir r when)
    ∈ trace (main console logFile source (r +:+ "/") (start fs)).2
  ∧ Forall (onPaths console logFile
              [source; targetDir r when; targetPath r when source])
           (trace (main console logFile source (r +:+ "/") (start fs)).2).
Proof.
  intros Hne Hr Hlog Hreads.
  set (d := targetDir r when). set (p := targetPath r when source).
  set (paths := [source; d; p]).
  set (w1 := atPlacement console logFile source (r +:+ "/") fs).
  assert (sinkOf console logFile w1) as Hs1 by apply atPlacement_sink.
  assert (Forall (onPaths console logFile paths) (trace w1)) as Hbefore.
  { unfold w1, atPlacement. cbn. rewrite <- app_assoc. apply Forall_app. split.
    - eapply Forall_impl; [apply atSwitch_trace |].
      intros c [Hc | [Hc1 Hc2]]; unfold onPaths; [by rewrite Hc | rewrite Hc2; by right].
    - repeat constructor; unfold onPaths; cbn; left; set_solver. }
  assert (∃ calls,
             trace (main console logFile source (r +:+ "/") (start fs)).2
             = (trace w1 ++ calls)%list
             ∧ StatCall d ∈ calls
             ∧ Forall (onPaths console logFile paths) calls)
    as (calls & -> & Hin & Hall).
  { rewrite (main_reaches_placement console logFile source (r +:+ "/") fs when
               ltac:(by apply append_not_empty) Hlog Hreads).
    rewrite TrimSuffix_app. fold d p w1.
    unfold afterSwitch. cbn [fst snd].
    rewrite (bool_decide_eq_false_2 _ (targetDir_not_empty r when)).
    rewrite (bool_decide_eq_false_2 _ (targetPath_not_empty r when source)).
    unfold bind at 1. cbn [ret].
    destruct (returns_checkTargetDir d w1) as (e1 & w2 & Hcheck).
    rewrite (bind_done _ _ _ _ _ Hcheck).
    destruct (confined_checkTargetDir console logFile paths d ltac:(set_solver) w1 Hs1)
      as (c1 & Ht1 & Hok1 & Hs2).
    destruct (checkTargetDir_stats d w1) as (c1' & Hstat).
    rewrite Hcheck in Ht1, Hs2, Hstat. cbn in Ht1, Hs2, Hstat.
    destruct (confined_placing console logFile paths source d p e1
                ltac:(set_solver) ltac:(set_solver) w2 Hs2) as (c2 & Ht2 & Hok2 & _).
    cbv beta. rewrite Ht2. exists (c1 ++ c2)%list.
    rewrite Ht1 in Hstat. apply app_inv_head in Hstat. subst c1.
    split_and!; [by rewrite Ht1, app_assoc | set_solver | by apply Forall_app]. }
  split; [set_solver | by apply Forall_app].
Qed.

(** C10.  [main] trims one trailing separator from the target root
    before it builds the paths.  For a root [r] that does not itself
    end in a separator, a run on the root written [r/] is the run on
    [r].  When the run comes to place the file, it looks at the
    directory made from [r] and the time, and every call it makes on a
    path is on the source, on the log file, on that directory or on the
    destination path made from [r], the time and the base name: no
    path is made from [r/]. *)
Theorem trailing_separator_trimmed (r : string) console logFile source :
  r ≠ "" →
  HasSuffix r "/" = false →
  main console logFile source (r +:+ "/") = main console logFile source r
  ∧ ∀ fs when,
      logReady console logFile source fs →
      readsTime source fs when →
      StatCall (r +:+ Format when targetDirFmt)
        ∈ trace (main console logFile source (r +:+ "/") (start fs)).2
      ∧ Forall (onPaths console logFile
                  [source; r +:+ Format when targetDirFmt;
                   r +:+ Format when fileDateStubFmt +:+ Base source])
               (trace (main console logFile source (r +:+ "/") (start fs)).2).
Proof.
  intros Hne Hr. split.
  - unfold main. rewrite TrimSuffix_app, (TrimSuffix_none _ _ Hr).
    rewrite (bool_decide_eq_false_2 (r = "")) by done.
    rewrite (bool_decide_eq_false_2 (r +:+ "/" = "")) by (by apply append_not_empty).
    done.
  - intros fs when Hlog Hreads.
    by apply (placement_calls console logFile source r fs when).
Qed.

End WithEnvironment.

Lemma trailing_separator_trimmed_witness :
  @main (exampleEnvironment UTC) true "/tmp/gardepro.log" "/dcim/IMG_001.JPG" "/archive/"
  = @main (exampleEnvironment UTC) true "/tmp/gardepro.log" "/dcim/IMG_001.JPG" "/archive"
  ∧ StatCall "/archive/2023"
      ∈ trace (@main (exampleEnvironment UTC) true "/tmp/gardepro.log" "/dcim/IMG_001.JPG"
                 "/archive/" (start exampleFiles)).2
  ∧ StatCall "/archive//2023"
      ∉ trace (@main (exampleEnvironment UTC) true "/tmp/gardepro.log" "/dcim/IMG_001.JPG"
                 "/archive/" (start exampleFiles)).2.
Proof.
  destruct (@trailing_separator_trimmed (exampleEnvironment UTC) "/archive" true
              "/tmp/gardepro.log" "/dcim/IMG_001.JPG") as [Hsame Hcalls];
    [discriminate | reflexivity |].
  destruct (Hcalls exampleFiles (Date 2023 6 15 14 30 5)) as [Hstat Hall];
    [by left | apply EndToEndExamples.example_readsTime; reflexivity |].
  split_and!; [exact Hsame | exact Hstat |].
  intros Hin. rewrite Forall_forall in Hall. apply Hall in Hin.
  unfold onPaths in Hin. cbn [pathOf] in Hin.
  destruct Hin as [Hin | [Hin _]]; [| discriminate].
  repeat (apply elem_of_cons in Hin as [Hin | Hin]; [vm_compute in Hin; discriminate |]).
  by apply elem_of_nil in Hin.
Defined.

End Roots.

(** ** Runs that end before placement *)

Module Aborts.
Import GoStrings GoErrors Filepath GoTime OS Media Gardepro Spec.
Import StringFacts TimeFacts Runs RunFacts PathFacts PlacementFacts Decoding Endings Failures.

(** *** The two returns before the log is set up *)

Section WithEnvironment.
Context {env : Environment}.

Lemma main_without_flags console logFile source target (w : World) :
  source = "" ∨ target = "" →
  main console logFile source target w
  = (Done tt,
     record (DialogError "Error parsing command line flags"
               "Missing command line flag -source or -target") w).
Proof.
  intros H. rewrite main_parts.
  assert (bool_decide (source = "") || bool_decide (target = "") = true) as ->; [| done].
  destruct H as [-> | ->]; [done |]. by rewrite orb_true_r.
Qed.

Lemma main_without_log console logFile source target (fs : gmap string Node) :
  source ≠ "" → target ≠ "" → ¬ logOpens console logFile fs →
  console = false
  ∧ ∃ err,
      main console logFile source target (start fs)
      = (Done tt,
         record (DialogError "Log File Creation" (Error err))
           (record (OpenAppendCall logFile) (start fs))).
Proof.
  intros Hs Ht Hlog.
  assert (console = false) as -> by (destruct console; [by destruct Hlog; left | done]).
  split; [done |].
  destruct (openLog_cases false logFile (start fs)) as [[Hopen _] | [err Hrun]];
    [done |].
  exists err. rewrite main_parts.
  rewrite !bool_decide_eq_false_2 by done. cbn [orb].
  by rewrite (bind_done _ _ _ _ _ Hrun).
Qed.

(** Whether the log can be set up is decided by the file system. *)
Lemma logOpens_dec console logFile (fs : gmap string Node) :
  logOpens console logFile fs ∨ ¬ logOpens console logFile fs.
Proof.
  unfold logOpens. destruct console; [by left; left |].
  destruct (OpenAppend fs logFile).1 as [e |]; [right | left; by right].
  by intros [? | ?].
Qed.

Lemma flags_dec (source target : string) :
  (source = "" ∨ target = "") ∨ (source ≠ "" ∧ target ≠ "").
Proof.
  destruct (decide (source = "")); [by left; left |].
  destruct (decide (target = "")); [by left; right | by right].
Qed.

(** *** Sources without a creation time *)

(** Whether a source carries its time is decided by what is at its
    path. *)
Lemma readsTime_same source (fs fs' : gmap string Node) when :
  fs !! source = fs' !! source → readsTime source fs when → readsTime source fs' when.
Proof.
  intros Hsame [(bytes & raw & index & entry & whenStr & Hext & Hf & H)
               | (bytes & v & Hext & Hf & H)].
  - left. exists bytes, raw, index, entry, whenStr. by rewrite <- Hsame.
  - right. exists bytes, v. by rewrite <- Hsame.
Qed.

Lemma fatalWith_jpgCase source target :
  fatalWith extractionMessages (jpgCase source target).
Proof.
  unfold jpgCase.
  apply fatalWith_bind; [apply fatalWith_returns, returns_EXIFgetIndex |].
  intros [index | e]; [| apply fatalWith_errorFatal; set_solver].
  apply fatalWith_bind; [apply fatalWith_returns, returns_EXIFgetValue |].
  intros r. repeat case_match;
    first [apply fatalWith_ret | apply fatalWith_errorFatal; set_solver].
Qed.

Lemma fatalWith_mp4Case source target :
  fatalWith extractionMessages (mp4Case source target).
Proof.
  unfold mp4Case.
  apply fatalWith_bind; [apply fatalWith_returns, returns_MP4getMetadata |].
  intros r. repeat case_match;
    first [apply fatalWith_ret | apply fatalWith_errorFatal; set_solver].
Qed.

Lemma supported_not_empty source : supported source → source ≠ "".
Proof. intros [H | [H | H]] ->; vm_compute in H; discriminate. Qed.

(** The switch on a source without a creation time ends in
    [errorFatal] with one of the messages of the extraction. *)
Lemma switch_lacking source target (fs : gmap string Node) (w : World) :
  lacksCreationTime source fs →
  files w !! source = fs !! source →
  ∃ message err w',
    switch source target w = (Fatal message err, w')
    ∧ message ∈ extractionMessages.
Proof.
  intros [Hkind Hnone] Hsame.
  destruct (switch source target w) as [[found | message err] w'] eqn:Hrun.
  - destruct (switch_done_reads _ _ _ _ _ Hrun) as [when Hreads].
    destruct (Hnone when). by apply (readsTime_same source (files w)).
  - exists message, err, w'. split; [done |].
    destruct Hkind as [Hext | [Hext | Hext]].
    + rewrite switch_jpg in Hrun by (by left).
      apply (fatalWith_jpgCase source target w message err). by rewrite Hrun.
    + rewrite switch_jpg in Hrun by (by right).
      apply (fatalWith_jpgCase source target w message err). by rewrite Hrun.
    + rewrite switch_mp4 in Hrun by done.
      apply (fatalWith_mp4Case source target w message err). by rewrite Hrun.
Qed.

(** Three ways of lacking the time: a picture without metadata, a
    picture whose index has no date tag, a film without an [mvhd]
    box. *)
Lemma lacks_without_metadata source (fs : gmap string Node) bytes err :
  ToLower (Ext source) = ".jpg" ∨ ToLower (Ext source) = ".jpeg" →
  fs !! source = Some (File bytes) →
  SearchAndExtractExif bytes = Err err →
  lacksCreationTime source fs.
Proof.
  intros Hext Hf Hx. split; [destruct Hext; [by left | by right; left] |].
  intros when [(bytes' & raw & index & entry & whenStr & _ & Hf' & Hx' & _)
              | (bytes' & v & Hext' & _)].
  - congruence.
  - destruct Hext as [E | E]; rewrite E in Hext'; discriminate.
Qed.

Lemma lacks_without_tag source (fs : gmap string Node) bytes raw index :
  ToLower (Ext source) = ".jpg" ∨ ToLower (Ext source) = ".jpeg" →
  fs !! source = Some (File bytes) →
  SearchAndExtractExif bytes = Ok raw →
  Collect raw = Ok index →
  tagMissing index →
  lacksCreationTime source fs.
Proof.
  intros Hext Hf Hx Hc [Hroot Hexif].
  split; [destruct Hext; [by left | by right; left] |].
  intros when [(bytes' & raw' & index' & entry & whenStr & _ & Hf' & Hx' & _ & Hc' & Ht & _)
              | (bytes' & v & Hext' & _)].
  - assert (index' = index) as -> by congruence.
    unfold dateTimeEntries in Ht.
    rewrite (FindTagWithId_missing _ _ Hroot) in Ht.
    destruct (Lookup index !! "IFD/Exif") as [i |] eqn:Hi.
    + by rewrite (FindTagWithId_missing _ _ (Hexif i eq_refl)) in Ht.
    + done.
  - destruct Hext as [E | E]; rewrite E in Hext'; discriminate.
Qed.

Lemma lacks_without_box source (fs : gmap string Node) bytes :
  ToLower (Ext source) = ".mp4" →
  fs !! source = Some (File bytes) →
  ExtractBoxWithPayload bytes = Ok [] →
  lacksCreationTime source fs.
Proof.
  intros Hext Hf Hx. split; [by right; right |].
  intros when [(bytes' & raw & index & entry & whenStr & Hext' & _)
              | (bytes' & v & _ & Hf' & Hx' & _)].
  - destruct Hext' as [E | E]; rewrite E in Hext; discriminate.
  - congruence.
Qed.

(** C6, as the code has it.  A source of a kind the program knows from
    which no creation time can be read, with the log not going to the
    source file itself.  Whatever the flags and the log: the run makes
    no call to [os.Stat], [os.Mkdir] or [os.Create], it only opens and
    reads the source and writes to the log, and every path other than
    the log file holds what it held before, so no directory and no
    file is made for the source.  With a target root given and the log
    set up, the run ends in [errorFatal] with one of the messages of
    the extraction.  Without a target root, or when the log file
    cannot be opened, [main] returns after a dialog: that run does not
    fail. *)
Theorem missing_creation_time_aborts console logFile source target fs :
  lacksCreationTime source fs →
  console = true ∨ logFile ≠ source →
  ∃ outcome w',
    main console logFile source target (start fs) = (outcome, w')
    ∧ Forall (λ c, beforePlacement console logFile source c = true) (trace w')
    ∧ (∀ p, console = true ∨ p ≠ logFile → files w' !! p = fs !! p)
    ∧ (target ≠ "" → logOpens console logFile fs →
       ∃ message err, outcome = Fatal message err ∧ message ∈ extractionMessages)
    ∧ (target = "" ∨ ¬ logOpens console logFile fs → outcome = Done tt).
Proof.
  intros Hlack Hapart.
  pose proof (supported_not_empty source (proj1 Hlack)) as Hs.
  destruct (decide (target = "")) as [Ht | Ht].
  { eexists _, _. split; [apply main_without_flags; by right |].
    split_and!; [by repeat constructor | done | done | done]. }
  destruct (logOpens_dec console logFile fs) as [Hlog | Hlog].
  - set (w0 := atSwitch console logFile source target fs).
    assert (files w0 !! source = fs !! source) as Hsrc.
    { apply atSwitch_files. destruct Hapart; [by left | right; congruence]. }
    destruct (switch_lacking source (TrimSuffix target "/") fs w0 Hlack Hsrc)
      as (message & err & w' & Hrun & Hmsg).
    destruct (quiet_switch console logFile source (TrimSuffix target "/") w0
                (atSwitch_sink console logFile source target fs))
      as (calls & Htrace & Hcalls & _ & Hfiles).
    rewrite Hrun in Htrace, Hfiles. cbn in Htrace, Hfiles.
    exists (Fatal message err), w'. split_and!.
    + by apply main_ends_in_switch.
    + rewrite Htrace. apply Forall_app. split; [apply atSwitch_before | done].
    + intros p Hp. rewrite Hfiles by done. by apply atSwitch_files.
    + intros _ _. by exists message, err.
    + by intros [? | ?].
  - destruct (main_without_log console logFile source target fs Hs Ht Hlog)
      as (-> & err & Hrun).
    eexists _, _. split; [exact Hrun |].
    split_and!; [| done | done | done].
    repeat constructor. cbn. by apply bool_decide_eq_true.
Qed.

(** C7, as the code has it.  A source whose extension is no case
    variant of [.jpg], [.jpeg] or [.mp4].  Whatever the flags and the
    log, the run touches neither the source nor the target: its only
    calls to the file system are on the log file, none when the log
    goes to the console, and every other path holds what it held.
    With source and target given and the log set up, [main] ends in
    [errorFatal] with "Unrecognized extension: " and the lower-cased
    extension, after it has opened the log file and written to it.
    Without one of the two flags, or when the log file cannot be
    opened, [main] returns after a dialog: that run does not fail. *)
Theorem unsupported_extension_fails console logFile source target fs :
  EqualFold (Ext source) ".jpg" = false →
  EqualFold (Ext source) ".jpeg" = false →
  EqualFold (Ext source) ".mp4" = false →
  ∃ outcome w',
    main console logFile source target (start fs) = (outcome, w')
    ∧ Forall (λ c, pathOf c = None ∨ (console = false ∧ pathOf c = Some logFile))
             (trace w')
    ∧ (∀ p, console = true ∨ p ≠ logFile → files w' !! p = fs !! p)
    ∧ (source ≠ "" → target ≠ "" → logOpens console logFile fs →
       outcome = Fatal ("Unrecognized extension: " +:+ ToLower (Ext source)) None
       ∧ (console = false →
          ∃ rest, trace w' = OpenAppendCall logFile :: WriteCall logFile newline :: rest))
    ∧ (source = "" ∨ target = "" →
       outcome = Done tt
       ∧ trace w' = [DialogError "Error parsing command line flags"
                       "Missing command line flag -source or -target"])
    ∧ (source ≠ "" → target ≠ "" → ¬ logOpens console logFile fs →
       outcome = Done tt
       ∧ ∃ err, trace w' = [OpenAppendCall logFile;
                            DialogError "Log File Creation" (Error err)]).
Proof.
  intros H1 H2 H3.
  assert (ToLower (Ext source) ≠ ".jpg") as N1.
  { intros E. apply Extensions.ToLower_EqualFold in E; [congruence | done]. }
  assert (ToLower (Ext source) ≠ ".jpeg") as N2.
  { intros E. apply Extensions.ToLower_EqualFold in E; [congruence | done]. }
  assert (ToLower (Ext source) ≠ ".mp4") as N3.
  { intros E. apply Extensions.ToLower_EqualFold in E; [congruence | done]. }
  destruct (flags_dec source target) as [Hflags | [Hs Ht]].
  { eexists _, _. split; [by apply main_without_flags |].
    split_and!; [by repeat constructor; left | done | | done |].
    - intros Hs Ht. by destruct Hflags.
    - intros Hs Ht. by destruct Hflags. }
  destruct (logOpens_dec console logFile fs) as [Hlog | Hlog].
  - eexists _, _. split.
    { apply main_ends_in_switch; try done.
      rewrite (switch_other _ _ N1 N2 N3). apply errorFatal_run. }
    unfold atSwitch, logged. destruct console; cbn.
    + split_and!.
      * each_call ltac:(by left).
      * done.
      * intros _ _ _. split; [done | done].
      * by intros [? | ?].
      * intros _ _ Hno. by destruct Hno.
    + split_and!.
      * each_call ltac:(first [by left | by right]).
      * intros p [? | Hp]; [done |].
        rewrite !lookup_appendTo_ne by done. by apply lookup_OpenAppend_ne.
      * intros _ _ _. split; [done |]. intros _. by eexists.
      * by intros [? | ?].
      * intros _ _ Hno. by destruct Hno.
  - destruct (main_without_log console logFile source target fs Hs Ht Hlog)
      as (-> & err & Hrun).
    eexists _, _. split; [exact Hrun |].
    split_and!; [| done | done | by intros [? | ?] |].
    + cbn. each_call ltac:(first [by left | by right]).
    + intros _ _ _. split; [done |]. by exists err.
Qed.

End WithEnvironment.

Lemma blank_lacks_creation_time :
  @lacksCreationTime (exampleEnvironment UTC) "/dcim/blank.jpg" exampleFiles.
Proof.
  apply (@lacks_without_tag (exampleEnvironment UTC) "/dcim/blank.jpg" exampleFiles
           [] [] (exampleIndex [])); try reflexivity; [by left |].
  split.
  - intros e He. inversion He.
  - intros i Hi. vm_compute in Hi. discriminate.
Qed.

Lemma missing_creation_time_aborts_witness :
  ∃ message err w',
    @main (exampleEnvironment UTC) false "/tmp/gardepro.log" "/dcim/blank.jpg" "/archive"
      (start exampleFiles) = (Fatal message err, w')
    ∧ message ∈ extractionMessages
    ∧ Forall (λ c, beforePlacement false "/tmp/gardepro.log" "/dcim/blank.jpg" c = true)
             (trace w')
    ∧ files w' !! "/archive/2023" = None.
Proof.
  destruct (@missing_creation_time_aborts (exampleEnvironment UTC) false
              "/tmp/gardepro.log" "/dcim/blank.jpg" "/archive" exampleFiles)
    as (outcome & w' & Hrun & Htrace & Hfiles & Hfatal & _).
  - apply blank_lacks_creation_time.
  - right. discriminate.
  - destruct Hfatal as (message & err & -> & Hin);
      [discriminate | right; vm_compute; reflexivity |].
    exists message, err, w'. split_and!; [exact Hrun | exact Hin | exact Htrace |].
    rewrite Hfiles by (right; discriminate). reflexivity.
Defined.

(** C6 as stated fails: the picture [/dcim/blank.jpg] has no date tag,
    but with a log file that cannot be opened the run on it does not
    fail: [main] shows the dialog "Log File Creation" and returns. *)
Lemma missing_creation_time_returns :
  let run := @main (exampleEnvironment UTC) false "/var/log/gardepro.log"
               "/dcim/blank.jpg" "/archive" (start exampleFiles) in
  @lacksCreationTime (exampleEnvironment UTC) "/dcim/blank.jpg" exampleFiles
  ∧ run.1 = Done tt
  ∧ trace run.2
    = [OpenAppendCall "/var/log/gardepro.log";
       DialogError "Log File Creation" (Error (SyscallError ENOENT))].
Proof.
  cbv zeta. split_and!.
  - apply blank_lacks_creation_time.
  - vm_compute. reflexivity.
  - vm_compute. reflexivity.
Qed.

Lemma unsupported_extension_fails_witness :
  ∃ w',
    @main (exampleEnvironment UTC) false "/tmp/gardepro.log" "/dcim/sketch.png" "/archive"
      (start exampleFiles)
    = (Fatal "Unrecognized extension: .png" None, w')
    ∧ Forall (λ c, pathOf c = None ∨ pathOf c = Some "/tmp/gardepro.log") (trace w')
    ∧ files w' !! "/dcim/sketch.png" = exampleFiles !! "/dcim/sketch.png".
Proof.
  destruct (@unsupported_extension_fails (exampleEnvironment UTC) false
              "/tmp/gardepro.log" "/dcim/sketch.png" "/archive" exampleFiles)
    as (outcome & w' & Hrun & Htrace & Hfiles & Hfatal & _);
    [reflexivity | reflexivity | reflexivity |].
  destruct Hfatal as [-> _];
    [discriminate | discriminate | right; vm_compute; reflexivity |].
  exists w'. split_and!.
  - exact Hrun.
  - eapply Forall_impl; [exact Htrace |]. intros c [? | [_ ?]]; [by left | by right].
  - apply Hfiles. right. discriminate.
Defined.

(** C7 as stated fails: with the log going to [/tmp/gardepro.log],
    the run on [/dcim/sketch.png] ends with "Unrecognized extension:
    .png", and by then it has made the log file, which was not there,
    with a call to the file system as the first thing it did. *)
Lemma unsupported_extension_touches_log :
  let run := @main (exampleEnvironment UTC) false "/tmp/gardepro.log"
               "/dcim/sketch.png" "/archive" (start exampleFiles) in
  run.1 = Fatal "Unrecognized extension: .png" None
  ∧ exampleFiles !! "/tmp/gardepro.log" = None
  ∧ (∃ content, files run.2 !! "/tmp/gardepro.log" = Some (File content))
  ∧ head (trace run.2) = Some (OpenAppendCall "/tmp/gardepro.log")
  ∧ ¬ Forall (λ c, pathOf c = None) (trace run.2).
Proof.
  cbv zeta. split_and!.
  - vm_compute. reflexivity.
  - vm_compute. reflexivity.
  - eexists. vm_compute. reflexivity.
  - vm_compute. reflexivity.
  - intros H. apply Forall_inv in H. vm_compute in H. discriminate.
Qed.

End Aborts.
